(** * SvgCache: the vector-graphic rasterization cache of MathAnimation

    A shallow embedding of [Animations/src/svg/SvgCache.cpp]: the cache key
    ([SvgCache::hash]), the shelf packer and the eviction / page-rotation
    policy ([SvgCache::put], [SvgCache::growCache]) and the lookup entry
    points ([SvgCache::get], [SvgCache::getOrCreateIfNotExist]).

    C++ [float] is IEEE-754 binary32, modelled bit-exactly with the
    parametric [spec_float] operations of the standard library.

    Further parts cover the rest of that file ([init], [free], [clearAll],
    [generateDefaultFramebuffer], [render]), the reference-counted texture
    cache of [renderer/TextureCache.cpp], the scene selection of
    [core/Application.cpp] and the gizmo registry of [editor/Gizmos.cpp]. *)

From Stdlib Require Import ZArith List Bool Lia String.
From Stdlib Require Import Floats.SpecFloat.
From stdpp Require Import base option list gmap strings.

Local Open Scope Z_scope.

Set Warnings "-clear-no-such-hyp".

(* ================================================================== *)
(** ** binary32 arithmetic *)
(* ================================================================== *)

Module F32.

Definition prec : Z := 24.
Definition emax : Z := 128.

Definition float : Type := spec_float.

Definition add : float -> float -> float := SFadd prec emax.
Definition sub : float -> float -> float := SFsub prec emax.
Definition mul : float -> float -> float := SFmul prec emax.
Definition div : float -> float -> float := SFdiv prec emax.

(** [a < b], [a <= b], [a >= b]: false as soon as one side is NaN. *)
Definition ltb (a b : float) : bool := SFltb a b.
Definition leb (a b : float) : bool := SFleb a b.
Definition geb (a b : float) : bool := SFleb b a.

(** Integer to float conversion, round to nearest even. *)
Definition of_Z (n : Z) : float := binary_normalize prec emax n 0 false.

(** The literal [num/den] written in decimal: the nearest binary32. *)
Definition of_decimal (num den : Z) : float := div (of_Z num) (of_Z den).

Definition zero : float := S754_zero false.

(** Truncation toward zero of a finite float. *)
Definition trunc (f : float) : option Z :=
  match f with
  | S754_zero _ => Some 0
  | S754_finite s m e =>
      let mag := match e with
                 | Zneg p => Z.shiftr (Zpos m) (Zpos p)
                 | _ => Z.shiftl (Zpos m) e
                 end in
      Some (if s then - mag else mag)
  | S754_infinity _ | S754_nan => None
  end.

(** [(int)f]: defined only when the truncated value fits a 32-bit [int]
    (anything else is undefined behaviour in C++). *)
Definition to_int (f : float) : option Z :=
  match trunc f with
  | Some z => if (- 2 ^ 31 <=? z) && (z <? 2 ^ 31) then Some z else None
  | None => None
  end.

(** [(size_t)f], 64-bit. *)
Definition to_size_t (f : float) : option Z :=
  match trunc f with
  | Some z => if (0 <=? z) && (z <? 2 ^ 64) then Some z else None
  | None => None
  end.

(** [glm::max(a, b)] is [(a < b) ? b : a]. *)
Definition max (a b : float) : float := if ltb a b then b else a.

Definition is_nan (f : float) : bool :=
  match f with S754_nan => true | _ => false end.

End F32.


(* ================================================================== *)
(** ** Data model *)
(* ================================================================== *)

Record Vec2 := mkVec2 { x : F32.float; y : F32.float }.

(** [Vec2 + Vec2] is componentwise. *)
Definition Vec2_add (a b : Vec2) : Vec2 :=
  {| x := F32.add (x a) (x b); y := F32.add (y a) (y b) |}.

(** The value the LRU store keeps for a key. *)
Record _SvgCacheEntryInternal := {
  texCoordsMin : Vec2;
  texCoordsMax : Vec2;
  svgSize : Vec2;
  allottedSize : Vec2;
  textureOffset : Vec2;
  colorAttachment : Z
}.

(** What [get] hands to the renderer: the texture is one of the colour
    attachments of the cache framebuffer, or the static 1x1 [dummy]. *)
Inductive TextureRef := ColorAttachmentRef (i : Z) | DummyTexture.

Record SvgCacheEntry := mkSvgCacheEntry {
  entryTexCoordsMin : Vec2;
  entryTexCoordsMax : Vec2;
  textureRef : TextureRef
}.

(** The headers that declare the shapes and objects are not among the
    sources; the records keep the fields that [SvgCache.cpp] reads:
    [svg->bbox], [svg->md5] with [svg->md5Length] (the bytes of the
    fingerprint; [None] is the null pointer), [parent->svgScale] and
    [parent->percentReplacementTransformed]. *)
Record BBox := { bboxMin : Vec2; bboxMax : Vec2 }.

Record SvgObject := {
  md5 : option (list Byte.byte);
  bbox : BBox
}.

Record AnimObject := {
  svgObject : option SvgObject;
  svgScale : F32.float;
  percentReplacementTransformed : F32.float
}.

(** The framebuffer of the cache: its size in pixels and the number of
    colour attachments (pages); every attachment has the framebuffer's size. *)
Record Framebuffer := {
  width : Z;
  height : Z;
  colorAttachments_size : Z
}.

(* ================================================================== *)
(** ** The LRU store *)
(* ================================================================== *)

Module LRUCache.

(** Modelled from the spec: the class template [LRUCache] (a header of the
    repository) is not among the sources.  Following section 4.2 the store
    is a hash map for key lookup together with a linked list of nodes kept
    in recency order; [entries] is that list read from the oldest node
    along [next], [index] is the key set of the hash map. *)
Record LRUCacheEntry := { key : Z; data : _SvgCacheEntryInternal }.

Record t := { entries : list LRUCacheEntry; index : gset Z }.

Definition empty : t := {| entries := []; index := ∅ |}.

(** Unlink the first node carrying key [k]. *)
Fixpoint unlink (k : Z) (l : list LRUCacheEntry) : list LRUCacheEntry :=
  match l with
  | [] => []
  | e :: l' => if key e =? k then l' else e :: unlink k l'
  end.

Definition node (k : Z) (l : list LRUCacheEntry) : option LRUCacheEntry :=
  List.find (fun e => key e =? k) l.

(** [exists(key)]: does not alter recency. *)
Definition exists_ (c : t) (k : Z) : bool := bool_decide (k ∈ index c).

(** [get(key)]: a hit makes the entry the most recently used one. *)
Definition get (c : t) (k : Z) : option _SvgCacheEntryInternal * t :=
  if exists_ c k then
    match node k (entries c) with
    | Some e => (Some (data e),
                 {| entries := unlink k (entries c) ++ [e]; index := index c |})
    | None => (None, c)
    end
  else (None, c).

(** [insert(key, value)]: inserts or overwrites, the entry becomes the
    most recently used one. *)
Definition insert (c : t) (k : Z) (v : _SvgCacheEntryInternal) : t :=
  {| entries := unlink k (entries c) ++ [{| key := k; data := v |}];
     index := {[ k ]} ∪ index c |}.

(** [evict(key)]: removes the entry, [false] when the key is absent. *)
Definition evict (c : t) (k : Z) : bool * t :=
  if exists_ c k then
    (true, {| entries := unlink k (entries c); index := index c ∖ {[ k ]} |})
  else (false, c).

(** [getOldest()]: the head of the recency list, [None] for [nullptr]. *)
Definition getOldest (c : t) : option LRUCacheEntry := head (entries c).

Definition size (c : t) : Z := Z.of_nat (size (index c)).

Definition keys (c : t) : list Z := key <$> entries c.

(** The hash map and the list describe the same entries, one node a key. *)
Definition wf (c : t) : Prop :=
  NoDup (keys c) ∧ index c = list_to_set (keys c).

#[global] Instance wf_dec (c : t) : Decision (wf c) :=
  ltac:(unfold wf; apply _).

End LRUCache.

Import LRUCache(LRUCacheEntry).

(* ================================================================== *)
(** ** The cache key *)
(* ================================================================== *)

(** [CMath::combineHash<T>] and [std::hash] are library code outside the
    cache; the key derivation is stated for any choice of them. *)
Class Hasher := {
  combineHash_int : Z -> Z -> Z;
  combineHash_uint64 : Z -> Z -> Z;
  std_hash_string : list Byte.byte -> Z
}.

Section Cache.

Context `{Hasher}.

(** [SvgCache::hash]. [None] when a float to [int] conversion is out of
    range. *)
Definition hash (svgMd5 : list Byte.byte)
    (svgScale replacementTransform : F32.float) : option Z :=
  roundedSvgScale ← F32.to_int (F32.mul svgScale (F32.of_Z 1000));
  let hash := combineHash_int roundedSvgScale 0 in
  roundedTransform ← F32.to_int (F32.mul replacementTransform (F32.of_Z 100));
  let hash := combineHash_int roundedTransform hash in
  let md5Hash := std_hash_string svgMd5 in
  Some (combineHash_uint64 md5Hash hash).

(* ================================================================ *)
(** ** Cache state *)
(* ================================================================ *)

Record SvgCache := {
  framebuffer : Framebuffer;
  cachedSvgs : LRUCache.t;
  cacheCurrentPos : Vec2;
  cacheLineHeight : F32.float;
  cacheCurrentColorAttachment : Z
}.

(** The process state [put] can reach: the cache object and the export
    flag that [ExportPanel::isExportingVideo()] reads. *)
Record World := {
  svgCache : SvgCache;
  ExportPanel_isExportingVideo : bool
}.

Definition cachePadding : Vec2 := {| x := F32.of_Z 10; y := F32.of_Z 10 |}.

(** [0.1f]. *)
Definition evictionThreshold : F32.float :=
  Eval vm_compute in F32.of_decimal 1 10.

Inductive Dispatch := Sync | Async.

(** The two [g_logger_error] format strings. *)
Definition msgScanEvictFailed : string := "SVG cache eviction failed: 0x%8x".
Definition msgGrowEvictFailed : string := "Failed to evict cache entry %u".

(** What a call does to the store and to its collaborators, in order.
    [ActProbe k]: the eviction scan reads [oldest->data.allottedSize] of the
    node with key [k]; [ActEvict k ok]: [cachedSvgs.evict(k)] returned [ok];
    [ActScissorClear]: the scissored clear of a slot; [ActClearPage]: the
    clear of a whole colour attachment in [growCache]; [ActInsert]:
    [cachedSvgs.insert]; [ActRender]: [svg->render] or [svg->renderAsync]. *)
Inductive Action :=
| ActProbe (k : Z)
| ActEvict (k : Z) (ok : bool)
| ActLogError (msg : string) (k : Z)
| ActScissorClear (page sx sy sw sh : Z)
| ActClearPage (page : Z)
| ActInsert (k : Z) (res : _SvgCacheEntryInternal)
| ActRender (mode : Dispatch) (scale : F32.float) (page : Z) (offset : Vec2).

Definition set_cachedSvgs (c : SvgCache) (s : LRUCache.t) : SvgCache :=
  {| framebuffer := framebuffer c; cachedSvgs := s;
     cacheCurrentPos := cacheCurrentPos c;
     cacheLineHeight := cacheLineHeight c;
     cacheCurrentColorAttachment := cacheCurrentColorAttachment c |}.

Definition existsInternal (c : SvgCache) (h : Z) : bool :=
  LRUCache.exists_ (cachedSvgs c) h.

Definition getInternal (c : SvgCache) (h : Z)
    : option _SvgCacheEntryInternal * SvgCache :=
  let '(res, s) := LRUCache.get (cachedSvgs c) h in (res, set_cachedSvgs c s).

(** [incrementCacheCurrentY]: open a new shelf. *)
Definition incrementCacheCurrentY (c : SvgCache) : SvgCache * Vec2 :=
  let pos := {| x := F32.zero;
                y := F32.add (y (cacheCurrentPos c))
                       (F32.add (cacheLineHeight c) (y cachePadding)) |} in
  ({| framebuffer := framebuffer c; cachedSvgs := cachedSvgs c;
      cacheCurrentPos := pos;
      cacheLineHeight := F32.zero;
      cacheCurrentColorAttachment := cacheCurrentColorAttachment c |}, pos).

Definition incrementCacheCurrentX (distance : F32.float) (c : SvgCache)
    : SvgCache :=
  {| framebuffer := framebuffer c; cachedSvgs := cachedSvgs c;
     cacheCurrentPos := {| x := F32.add (x (cacheCurrentPos c)) distance;
                           y := y (cacheCurrentPos c) |};
     cacheLineHeight := cacheLineHeight c;
     cacheCurrentColorAttachment := cacheCurrentColorAttachment c |}.

Definition checkLineHeight (newLineHeight : F32.float) (c : SvgCache)
    : SvgCache :=
  {| framebuffer := framebuffer c; cachedSvgs := cachedSvgs c;
     cacheCurrentPos := cacheCurrentPos c;
     cacheLineHeight := F32.max (cacheLineHeight c) newLineHeight;
     cacheCurrentColorAttachment := cacheCurrentColorAttachment c |}.

(** The loop of [growCache]: walk the nodes from the oldest ([next] is read
    before the node is evicted) and evict those bound to [page]. *)
Fixpoint growCacheLoop (page : Z) (oldest : list LRUCacheEntry)
    (s : LRUCache.t) : LRUCache.t * list Action :=
  match oldest with
  | [] => (s, [])
  | e :: next =>
      if colorAttachment (LRUCache.data e) =? page then
        let '(ok, s') := LRUCache.evict s (LRUCache.key e) in
        let '(s'', tr) := growCacheLoop page next s' in
        (s'', ActEvict (LRUCache.key e) ok ::
              (if ok then []
               else [ActLogError msgGrowEvictFailed (LRUCache.key e)])
              ++ tr)
      else growCacheLoop page next s
  end.

(** The statements of [growCache] that follow the first one, [page] being
    the new current colour attachment: the eviction of the records bound to
    it, the clear of the page and the reset of the cursor. *)
Definition growCacheTo (page : Z) (c : SvgCache) : SvgCache * list Action :=
  let '(s, tr) :=
    growCacheLoop page (LRUCache.entries (cachedSvgs c)) (cachedSvgs c) in
  ({| framebuffer := framebuffer c; cachedSvgs := s;
      cacheCurrentPos := {| x := F32.zero; y := F32.zero |};
      cacheLineHeight := cacheLineHeight c;
      cacheCurrentColorAttachment := page |},
   tr ++ [ActClearPage page]).

(** [(cacheCurrentColorAttachment + 1) % framebuffer.colorAttachments.size()]:
    the sum is taken in [size_t] before the remainder. *)
Definition nextColorAttachment (c : SvgCache) : Z :=
  ((cacheCurrentColorAttachment c + 1) mod 2 ^ 64)
    mod colorAttachments_size (framebuffer c).

(** [growCache]: rotate to the next colour attachment.  Without a colour
    attachment the remainder is a division by zero ([None]). *)
Definition growCache (c : SvgCache) : option (SvgCache * list Action) :=
  if colorAttachments_size (framebuffer c) =? 0 then None
  else Some (growCacheTo (nextColorAttachment c) c).

(* ================================================================ *)
(** ** Placement: [SvgCache::put] *)
(* ================================================================ *)

(** The locals of [put] that the placement decides. *)
Record Placement := {
  svgTextureOffset : Vec2;
  colorAttachmentToRenderTo : Z;
  allotted : Vec2;
  incrementX : bool
}.

(** The test of the scan: the slot of [e] can hold the rectangle. *)
Definition fits (svgTotalWidth svgTotalHeight : F32.float)
    (e : LRUCacheEntry) : bool :=
  F32.geb (x (allottedSize (LRUCache.data e))) svgTotalWidth
  && F32.geb (y (allottedSize (LRUCache.data e))) svgTotalHeight.

(** The three assignments made when a slot is taken over. *)
Definition reuseSlot (e : LRUCacheEntry) (pl : Placement) : Placement :=
  {| svgTextureOffset := textureOffset (LRUCache.data e);
     colorAttachmentToRenderTo := colorAttachment (LRUCache.data e);
     allotted := allottedSize (LRUCache.data e);
     incrementX := incrementX pl |}.

Definition probe (e : LRUCacheEntry) : Action := ActProbe (LRUCache.key e).

(** The [while] loop of the eviction scan.  [chain] is [oldest] followed
    along [next] ([[]] is [nullptr]).  Returns [oldest] and [counter] as the
    loop leaves them, the locals, the store and the actions taken. *)
Fixpoint evictionScan (svgTotalWidth svgTotalHeight : F32.float)
    (maxNumEntriesToTry : Z) (chain : list LRUCacheEntry) (counter : Z)
    (pl : Placement) (s : LRUCache.t)
    : option LRUCacheEntry * Z * Placement * LRUCache.t * list Action :=
  match chain with
  | [] => (None, counter, pl, s, [])
  | oldest :: next =>
      if counter <? maxNumEntriesToTry then
        if fits svgTotalWidth svgTotalHeight oldest then
          let k := LRUCache.key oldest in
          let '(ok, s') := LRUCache.evict s k in
          if ok then
            (Some oldest, counter, reuseSlot oldest pl, s',
             [probe oldest; ActEvict k true])
          else
            (None, counter, reuseSlot oldest pl, s',
             [probe oldest; ActEvict k false;
              ActLogError msgScanEvictFailed k])
        else
          let '(o, c, p, s', tr) :=
            evictionScan svgTotalWidth svgTotalHeight maxNumEntriesToTry
              next (counter + 1) pl s in
          (o, c, p, s', probe oldest :: tr)
      else (Some oldest, counter, pl, s, [])
  end.

Definition is_nullptr {A} (p : option A) : bool :=
  match p with None => true | Some _ => false end.

Definition maxNumEntriesToTry (size : Z) : option Z :=
  F32.to_size_t (F32.mul evictionThreshold (F32.of_Z size)).

(** After [growCache]: the rectangle goes to the cursor of the new page. *)
Definition rotated (pl : Placement) (c2 : SvgCache) : Placement :=
  {| svgTextureOffset := cacheCurrentPos c2;
     colorAttachmentToRenderTo := cacheCurrentColorAttachment c2;
     allotted := allotted pl;
     incrementX := incrementX pl |}.

(** After the scissored clear of a slot taken over: [incrementX = false]. *)
Definition scissored (pl : Placement) : Placement :=
  {| svgTextureOffset := svgTextureOffset pl;
     colorAttachmentToRenderTo := colorAttachmentToRenderTo pl;
     allotted := allotted pl;
     incrementX := false |}.

(** The arguments of [GL::scissor], each cast to an integer. *)
Definition scissorBox (fb : Framebuffer) (pl : Placement)
    : option (Z * Z * Z * Z) :=
  sx ← F32.to_int (x (svgTextureOffset pl));
  sy ← F32.to_int (F32.sub (F32.sub (F32.of_Z (height fb))
                               (y (svgTextureOffset pl)))
                      (y (allotted pl)));
  sw ← F32.to_int (x (allotted pl));
  sh ← F32.to_int (y (allotted pl));
  Some (sx, sy, sw, sh).

(** The branch of [put] taken when [newBottomY >= framebuffer.height]. *)
Definition placeOnOverflow (svgTotalWidth svgTotalHeight : F32.float)
    (c : SvgCache) (pl : Placement)
    : option (SvgCache * Placement * list Action) :=
  maxN ← maxNumEntriesToTry (LRUCache.size (cachedSvgs c));
  let '(oldest, counter, pl1, s1, tr) :=
    evictionScan svgTotalWidth svgTotalHeight maxN
      (LRUCache.entries (cachedSvgs c)) 0 pl (cachedSvgs c) in
  let c1 := set_cachedSvgs c s1 in
  if is_nullptr oldest || (maxN <=? counter) then
    '(c2, tr2) ← growCache c1;
    Some (c2, rotated pl1 c2, tr ++ tr2)
  else
    '(sx, sy, sw, sh) ← scissorBox (framebuffer c) pl1;
    Some (c1, scissored pl1,
          tr ++ [ActScissorClear (colorAttachmentToRenderTo pl1) sx sy sw sh]).

Definition svgTotalSize (parent : AnimObject) (svg : SvgObject) : Vec2 :=
  {| x := F32.mul (F32.sub (x (bboxMax (bbox svg))) (x (bboxMin (bbox svg))))
            (svgScale parent);
     y := F32.mul (F32.sub (y (bboxMax (bbox svg))) (y (bboxMin (bbox svg))))
            (svgScale parent) |}.

(** The locals as [put] initialises them. *)
Definition initialPlacement (svgTotalWidth svgTotalHeight : F32.float)
    (c : SvgCache) : Placement :=
  {| svgTextureOffset := cacheCurrentPos c;
     colorAttachmentToRenderTo := cacheCurrentColorAttachment c;
     allotted := {| x := svgTotalWidth; y := svgTotalHeight |};
     incrementX := true |}.

(** [(int)(svgTextureOffset.x + svgTotalWidth + cachePadding.x)]. *)
Definition newRightX (svgTotalWidth : F32.float) (c : SvgCache) : option Z :=
  F32.to_int (F32.add (F32.add (x (cacheCurrentPos c)) svgTotalWidth)
                (x cachePadding)).

(** The shelf wrap: [if (newRightX >= framebuffer.width)]. *)
Definition shelfStep (rightX : Z) (c : SvgCache) (pl : Placement)
    : SvgCache * Placement :=
  if width (framebuffer c) <=? rightX then
    let '(c', pos) := incrementCacheCurrentY c in
    (c', {| svgTextureOffset := pos;
            colorAttachmentToRenderTo := colorAttachmentToRenderTo pl;
            allotted := allotted pl;
            incrementX := incrementX pl |})
  else (c, pl).

(** [svgTextureOffset.y + svgTotalHeight + cachePadding.y]. *)
Definition newBottomY (svgTotalHeight : F32.float) (pl : Placement)
    : F32.float :=
  F32.add (F32.add (y (svgTextureOffset pl)) svgTotalHeight) (y cachePadding).

(** The shelf step and, on vertical overflow, the eviction policy: the block
    of [put] that fixes [svgTextureOffset], [colorAttachmentToRenderTo],
    [allottedSize] and [incrementX]. *)
Definition place (svgTotalWidth svgTotalHeight : F32.float) (c : SvgCache)
    : option (SvgCache * Placement * list Action) :=
  rightX ← newRightX svgTotalWidth c;
  let '(c1, pl1) :=
    shelfStep rightX c (initialPlacement svgTotalWidth svgTotalHeight c) in
  if F32.geb (newBottomY svgTotalHeight pl1)
       (F32.of_Z (height (framebuffer c1)))
  then placeOnOverflow svgTotalWidth svgTotalHeight c1 pl1
  else Some (c1, pl1, []).

Definition dispatchMode (w : World) : Dispatch :=
  if ExportPanel_isExportingVideo w then Sync else Async.

(** The record [put] stores: UV rectangle, sizes, offset and page. *)
Definition cacheEntryFor (fb : Framebuffer)
    (svgTotalWidth svgTotalHeight : F32.float) (pl : Placement)
    : _SvgCacheEntryInternal :=
  let fbw := F32.of_Z (width fb) in
  let fbh := F32.of_Z (height fb) in
  let cacheUvMin :=
    {| x := F32.div (x (svgTextureOffset pl)) fbw;
       y := F32.sub (F32.sub (F32.of_Z 1)
                       (F32.div (y (svgTextureOffset pl)) fbw))
              (F32.div svgTotalHeight fbh) |} in
  let cacheUvMax :=
    Vec2_add cacheUvMin
      {| x := F32.div svgTotalWidth fbw;
         y := F32.div svgTotalHeight fbh |} in
  {| texCoordsMin := cacheUvMin;
     texCoordsMax := cacheUvMax;
     svgSize := {| x := svgTotalWidth; y := svgTotalHeight |};
     allottedSize := allotted pl;
     textureOffset := svgTextureOffset pl;
     colorAttachment := colorAttachmentToRenderTo pl |}.

(** [if (incrementX) { incrementCacheCurrentX(..); checkLineHeight(..); }] *)
Definition advanceCursor (svgTotalWidth svgTotalHeight : F32.float)
    (pl : Placement) (c : SvgCache) : SvgCache :=
  if incrementX pl then
    checkLineHeight svgTotalHeight
      (incrementCacheCurrentX (F32.add svgTotalWidth (x cachePadding)) c)
  else c.

(** The early return on a degenerate rectangle. *)
Definition degenerate (size : Vec2) : bool :=
  F32.leb (x size) F32.zero || F32.leb (y size) F32.zero.

(** The string that [hash] builds from [svg->md5] and [svg->md5Length]:
    [put] hands [svg->md5] to [hash] without a null test, and a null
    fingerprint, whose length is 0, gives the empty string. *)
Definition md5Bytes (svg : SvgObject) : list Byte.byte :=
  default [] (md5 svg).

(** [SvgCache::put(parent, svg)]. *)
Definition put (parent : AnimObject) (svg : SvgObject) (w : World)
    : option (World * list Action) :=
  hashValue ← hash (md5Bytes svg) (svgScale parent)
                (percentReplacementTransformed parent);
  let c := svgCache w in
  if existsInternal c hashValue then Some (w, [])
  else
    let svgTotalWidth := x (svgTotalSize parent svg) in
    let svgTotalHeight := y (svgTotalSize parent svg) in
    if degenerate (svgTotalSize parent svg) then Some (w, [])
    else
      '(c2, pl, tr) ← place svgTotalWidth svgTotalHeight c;
      let res :=
        cacheEntryFor (framebuffer c2) svgTotalWidth svgTotalHeight pl in
      let c3 := advanceCursor svgTotalWidth svgTotalHeight pl c2 in
      let c4 :=
        set_cachedSvgs c3 (LRUCache.insert (cachedSvgs c3) hashValue res) in
      Some ({| svgCache := c4;
               ExportPanel_isExportingVideo :=
                 ExportPanel_isExportingVideo w |},
            tr ++ [ActInsert hashValue res;
                   ActRender (dispatchMode w) (svgScale parent)
                     (colorAttachmentToRenderTo pl) (svgTextureOffset pl)]).

(* ================================================================ *)
(** ** Lookup entry points *)
(* ================================================================ *)

Definition dummyEntry : SvgCacheEntry :=
  {| entryTexCoordsMin := {| x := F32.of_Z 0; y := F32.of_Z 0 |};
     entryTexCoordsMax := {| x := F32.of_Z 1; y := F32.of_Z 1 |};
     textureRef := DummyTexture |}.

(** The key of the object's own svg, when it has one with a fingerprint
    (the guard [animObj->svgObject && animObj->svgObject->md5]). *)
Definition ownMd5 (animObj : AnimObject) : option (list Byte.byte) :=
  match svgObject animObj with
  | Some so => md5 so
  | None => None
  end.

(** The lookup shared by [get] and [getOrCreateIfNotExist]: the entry for
    the object's own key, if the store has one. *)
Definition lookupOwn (animObj : AnimObject) (c : SvgCache)
    : option (option SvgCacheEntry * SvgCache) :=
  match ownMd5 animObj with
  | Some m =>
      h ← hash m (svgScale animObj) (percentReplacementTransformed animObj);
      let '(entry, c') := getInternal c h in
      Some (match entry with
            | Some e =>
                Some {| entryTexCoordsMin := texCoordsMin e;
                        entryTexCoordsMax := texCoordsMax e;
                        textureRef := ColorAttachmentRef (colorAttachment e) |}
            | None => None
            end, c')
  | None => Some (None, c)
  end.

(** [SvgCache::exists]. *)
Definition exists_ (animObj : AnimObject) (c : SvgCache) : option bool :=
  match ownMd5 animObj with
  | Some m =>
      h ← hash m (svgScale animObj) (percentReplacementTransformed animObj);
      Some (existsInternal c h)
  | None => Some false
  end.

(** [SvgCache::get]. *)
Definition get (animObj : AnimObject) (c : SvgCache)
    : option (SvgCacheEntry * SvgCache) :=
  '(entry, c') ← lookupOwn animObj c;
  Some (default dummyEntry entry, c').

Definition set_svgCache (w : World) (c : SvgCache) : World :=
  {| svgCache := c;
     ExportPanel_isExportingVideo := ExportPanel_isExportingVideo w |}.

(** [SvgCache::getOrCreateIfNotExist]; [animObj] is the object that
    [AnimationManager::getObject(am, obj)] returns. *)
Definition getOrCreateIfNotExist (animObj : AnimObject) (svg : SvgObject)
    (w : World) : option (SvgCacheEntry * World * list Action) :=
  '(entry, c') ← lookupOwn animObj (svgCache w);
  match entry with
  | Some e => Some (e, set_svgCache w c', [])
  | None =>
      '(w1, tr) ← put animObj svg (set_svgCache w c');
      '(e, c2) ← get animObj (svgCache w1);
      Some (e, set_svgCache w1 c2, tr)
  end.

End Cache.

(* ================================================================== *)
(** ** Reading a trace *)
(* ================================================================== *)

(** The keys of the nodes a call inspected, in order. *)
Fixpoint probes (tr : list Action) : list Z :=
  match tr with
  | [] => []
  | ActProbe k :: tr' => k :: probes tr'
  | _ :: tr' => probes tr'
  end.

Definition is_render (a : Action) : bool :=
  match a with ActRender _ _ _ _ => true | _ => false end.

Definition is_insert (a : Action) : bool :=
  match a with ActInsert _ _ => true | _ => false end.

(** The dispatch modes of the rasterizations a call started. *)
Fixpoint renderModes (tr : list Action) : list Dispatch :=
  match tr with
  | [] => []
  | ActRender m _ _ _ :: tr' => m :: renderModes tr'
  | _ :: tr' => renderModes tr'
  end.

(** The four ways the eviction scan can end, with what it returns:
    it ran off the list, it used up its budget, it took over a slot, or the
    eviction of the chosen slot failed. *)
Inductive scan_outcome (w h : F32.float) (maxN : Z)
    (chain : list LRUCacheEntry) (counter : Z) (pl : Placement)
    (s : LRUCache.t)
    : option LRUCacheEntry * Z * Placement * LRUCache.t * list Action -> Prop :=
| scan_end c :
    Forall (fun e => fits w h e = false) chain ->
    c = counter + Z.of_nat (length chain) ->
    (chain = [] \/ c <= maxN) ->
    scan_outcome w h maxN chain counter pl s
      (None, c, pl, s, probe <$> chain)
| scan_budget probed e rest c :
    chain = probed ++ e :: rest ->
    Forall (fun e => fits w h e = false) probed ->
    c = counter + Z.of_nat (length probed) ->
    maxN <= c ->
    (probed = [] \/ c <= maxN) ->
    scan_outcome w h maxN chain counter pl s
      (Some e, c, pl, s, probe <$> probed)
| scan_reuse probed e rest s' c :
    chain = probed ++ e :: rest ->
    Forall (fun e => fits w h e = false) probed ->
    c = counter + Z.of_nat (length probed) ->
    c < maxN ->
    fits w h e = true ->
    LRUCache.evict s (LRUCache.key e) = (true, s') ->
    scan_outcome w h maxN chain counter pl s
      (Some e, c, reuseSlot e pl, s',
       (probe <$> probed) ++ [probe e; ActEvict (LRUCache.key e) true])
| scan_evict_failed probed e rest c :
    chain = probed ++ e :: rest ->
    Forall (fun e => fits w h e = false) probed ->
    c = counter + Z.of_nat (length probed) ->
    c < maxN ->
    fits w h e = true ->
    LRUCache.evict s (LRUCache.key e) = (false, s) ->
    scan_outcome w h maxN chain counter pl s
      (None, c, reuseSlot e pl, s,
       (probe <$> probed) ++
       [probe e; ActEvict (LRUCache.key e) false;
        ActLogError msgScanEvictFailed (LRUCache.key e)]).

(** The actions of the placement block: everything but the insertion
    into the store and the rasterization. *)
Definition is_place_action (a : Action) : bool :=
  match a with
  | ActInsert _ _ | ActRender _ _ _ _ => false
  | _ => true
  end.

(** The actions of [growCache]. *)
Definition is_grow_action (a : Action) : bool :=
  match a with
  | ActEvict _ _ | ActClearPage _ => true
  | ActLogError msg _ => bool_decide (msg = msgGrowEvictFailed)
  | _ => false
  end.

(** The three ways the overflow branch can end, with what it returns: a page
    rotation after a scan that took no slot, a page rotation after the
    eviction of the chosen slot failed, or the reuse of a slot. *)
Inductive overflow_outcome (w h : F32.float) (c : SvgCache) (pl : Placement)
    : SvgCache * Placement * list Action -> Prop :=
| overflow_rotate maxN probed rest c2 tr2 :
    maxNumEntriesToTry (LRUCache.size (cachedSvgs c)) = Some maxN ->
    LRUCache.entries (cachedSvgs c) = probed ++ rest ->
    Forall (fun e => fits w h e = false) probed ->
    Z.of_nat (length probed) <= maxN ->
    growCache c = Some (c2, tr2) ->
    overflow_outcome w h c pl
      (c2, rotated pl c2, (probe <$> probed) ++ tr2)
| overflow_evict_failed maxN probed e rest c2 tr2 :
    maxNumEntriesToTry (LRUCache.size (cachedSvgs c)) = Some maxN ->
    LRUCache.entries (cachedSvgs c) = probed ++ e :: rest ->
    Forall (fun e => fits w h e = false) probed ->
    Z.of_nat (length probed) < maxN ->
    fits w h e = true ->
    LRUCache.exists_ (cachedSvgs c) (LRUCache.key e) = false ->
    growCache c = Some (c2, tr2) ->
    overflow_outcome w h c pl
      (c2, rotated (reuseSlot e pl) c2,
       (probe <$> probed) ++
       [probe e; ActEvict (LRUCache.key e) false;
        ActLogError msgScanEvictFailed (LRUCache.key e)] ++ tr2)
| overflow_reuse maxN probed e rest s' sx sy sw sh :
    maxNumEntriesToTry (LRUCache.size (cachedSvgs c)) = Some maxN ->
    LRUCache.entries (cachedSvgs c) = probed ++ e :: rest ->
    Forall (fun e => fits w h e = false) probed ->
    Z.of_nat (length probed) < maxN ->
    fits w h e = true ->
    LRUCache.evict (cachedSvgs c) (LRUCache.key e) = (true, s') ->
    scissorBox (framebuffer c) (reuseSlot e pl) = Some (sx, sy, sw, sh) ->
    overflow_outcome w h c pl
      (set_cachedSvgs c s', scissored (reuseSlot e pl),
       (probe <$> probed) ++
       [probe e; ActEvict (LRUCache.key e) true;
        ActScissorClear (colorAttachment (LRUCache.data e)) sx sy sw sh]).

(** The keys [growCache] asks the store to evict: those of the nodes of
    [chain] bound to [page]. *)
Definition boundTo (page : Z) (chain : list LRUCacheEntry) : gset Z :=
  list_to_set
    (LRUCache.key <$>
       filter (fun e => colorAttachment (LRUCache.data e) = page) chain).

(** The page test of [put], applied to a rectangle of [size] at [offset]:
    [(int)(offset.x + size.x + padding.x) < width] and not
    [offset.y + size.y + padding.y >= height]. *)
Definition inPage (fb : Framebuffer) (offset size : Vec2) : bool :=
  match F32.to_int (F32.add (F32.add (x offset) (x size)) (x cachePadding)) with
  | Some r => r <? width fb
  | None => false
  end
  && negb (F32.geb (F32.add (F32.add (y offset) (y size)) (y cachePadding))
             (F32.of_Z (height fb))).

(** A stored record whose slot holds its content and lies in the page. *)
Definition slotOk (fb : Framebuffer) (d : _SvgCacheEntryInternal) : bool :=
  F32.geb (x (allottedSize d)) (x (svgSize d))
  && F32.geb (y (allottedSize d)) (y (svgSize d))
  && inPage fb (textureOffset d) (allottedSize d).

(** A rectangle that passes the page test at the origin of a page. *)
Definition fitsEmptyPage (fb : Framebuffer) (size : Vec2) : bool :=
  inPage fb {| x := F32.zero; y := F32.zero |} size.

(** The smallest store size at which the scan budget is not
    [floor (n / 10)]: below it the binary32 product [0.1f * (float)n]
    truncates to the tenth of [n]. *)
Definition sizeBound : Z := 16777219.

(* ================================================================== *)
(** ** A concrete hasher and concrete states, to run the model *)
(* ================================================================== *)

(** Modelled from the spec: [CMath::combineHash] and [std::hash] are not
    among the sources.  Section 4.1 asks for an order-sensitive mixing
    function (FNV-style or multiplicative hash chaining); this instance
    chains a 64-bit FNV-1a over the fingerprint bytes with a shift-and-add
    mix.  It only serves to evaluate the model on concrete inputs. *)
Definition mix64 (v h : Z) : Z :=
  Z.lxor h ((v mod 2 ^ 64 + 2654435769 + Z.shiftl h 6 + Z.shiftr h 2)
              mod 2 ^ 64) mod 2 ^ 64.

Definition fnv1a (bs : list Byte.byte) : Z :=
  fold_left
    (fun h b => (Z.lxor h (Z.of_N (Byte.to_N b)) * 1099511628211) mod 2 ^ 64)
    bs 14695981039346656037.

#[export] Instance refHasher : Hasher :=
  {| combineHash_int := mix64;
     combineHash_uint64 := mix64;
     std_hash_string := fnv1a |}.

Definition v2 (a b : Z) : Vec2 := {| x := F32.of_Z a; y := F32.of_Z b |}.

(** The framebuffer that [init] builds: 4096 x 4096, four attachments. *)
Definition defaultFramebuffer : Framebuffer :=
  {| width := 4096; height := 4096; colorAttachments_size := 4 |}.

(** The cache right after [init] / [clearAll]. *)
Definition emptyCache : SvgCache :=
  {| framebuffer := defaultFramebuffer;
     cachedSvgs := LRUCache.empty;
     cacheCurrentPos := v2 0 0;
     cacheLineHeight := F32.of_Z 0;
     cacheCurrentColorAttachment := 0 |}.

(** An svg with fingerprint [fp] and bounding box [0,0]-[w,h]. *)
Definition mkSvg (fp : list Byte.byte) (w h : Z) : SvgObject :=
  {| md5 := Some fp; bbox := {| bboxMin := v2 0 0; bboxMax := v2 w h |} |}.

(** An object drawn at scale 1 that owns [svg]. *)
Definition mkObj (svg : SvgObject) : AnimObject :=
  {| svgObject := Some svg;
     svgScale := F32.of_Z 1;
     percentReplacementTransformed := F32.of_Z 0 |}.

Definition mkWorld (c : SvgCache) (exporting : bool) : World :=
  {| svgCache := c; ExportPanel_isExportingVideo := exporting |}.

(** The scales of the rounding example, as the compiler reads the literals. *)
Definition scale_1_0001 : F32.float := F32.of_decimal 10001 10000.
Definition scale_1_0004 : F32.float := F32.of_decimal 10004 10000.
Definition scale_1_0006 : F32.float := F32.of_decimal 10006 10000.

(** A node of the store with key [k], a slot of [w] x [h] pixels at pixel
    [(ox, oy)] of page [page]. *)
Definition mkNode (k page ox oy w h : Z) : LRUCacheEntry :=
  {| LRUCache.key := k;
     LRUCache.data :=
       {| texCoordsMin := v2 0 0; texCoordsMax := v2 1 1;
          svgSize := v2 w h; allottedSize := v2 w h;
          textureOffset := v2 ox oy; colorAttachment := page |} |}.

Definition withStore (entries : list LRUCacheEntry) (index : list Z)
    (pos : Vec2) (lineHeight : Z) (page : Z) : SvgCache :=
  {| framebuffer := defaultFramebuffer;
     cachedSvgs := {| LRUCache.entries := entries;
                      LRUCache.index := list_to_set index |};
     cacheCurrentPos := pos;
     cacheLineHeight := F32.of_Z lineHeight;
     cacheCurrentColorAttachment := page |}.

(** Three cached shapes, on pages 0, 1 and 0, with the cursor on page 0. *)
Definition threeOnTwoPages : SvgCache :=
  withStore
    [ mkNode 11 0 0 0 100 100; mkNode 12 1 0 0 100 100;
      mkNode 13 0 110 0 100 100 ]
    [11; 12; 13] (v2 220 0) 100 0.

(** A 100 x 100 shape, the object that owns it, and the world right after
    start-up, in the editor and while exporting. *)
Definition svgSquare : SvgObject := mkSvg [Byte.x01] 100 100.
Definition objSquare : AnimObject := mkObj svgSquare.
Definition editingWorld : World := mkWorld emptyCache false.
Definition exportingWorld : World := mkWorld emptyCache true.

(** The world after the square has been cached once. *)
Definition worldWithSquare : World :=
  match put objSquare svgSquare editingWorld with
  | Some (w, _) => w
  | None => editingWorld
  end.

(** What the renderer receives for a stored record. *)
Definition viewOf (d : _SvgCacheEntryInternal) : SvgCacheEntry :=
  {| entryTexCoordsMin := texCoordsMin d;
     entryTexCoordsMax := texCoordsMax d;
     textureRef := ColorAttachmentRef (colorAttachment d) |}.

(** Three cached 100 x 100 shapes and the cursor near the bottom of page 0:
    the next 100 x 100 rectangle overflows the page vertically. *)
Definition fewAndFull : SvgCache :=
  withStore
    [ mkNode 11 0 0 0 100 100; mkNode 12 1 0 0 100 100;
      mkNode 13 0 110 0 100 100 ]
    [11; 12; 13] (v2 0 4000) 100 0.

(** Twenty-one nodes with keys 0..20, each a 200 x 200 slot on page 0. *)
Definition nodes21 : list LRUCacheEntry :=
  (fun k => mkNode k 0 0 0 200 200) <$> (Z.of_nat <$> seq 0 21).

(** A full page 0 with the twenty-one nodes all known to the hash map. *)
Definition manyAndFull : SvgCache :=
  withStore nodes21 (Z.of_nat <$> seq 0 21) (v2 0 4000) 100 0.

(** [n] nodes with keys [0 .. n-1], each a 1 x 1 slot on page 0, all
    known to the hash map, and a cursor near the bottom of page 0. *)
Definition tinyNodes (n : Z) : list LRUCacheEntry :=
  (fun k => mkNode k 0 0 0 1 1) <$> seqZ 0 n.

Definition crowded (n : Z) : SvgCache :=
  withStore (tinyNodes n) (seqZ 0 n) (v2 0 4000) 100 0.

(** A cursor close to the right edge of an otherwise empty page. *)
Definition nearRightEdge : SvgCache :=
  withStore [] [] (v2 4000 0) 100 0.

(** A 100 x 100 shape without a fingerprint ([md5] is null) and an object
    that owns it. *)
Definition svgAnonymous : SvgObject :=
  {| md5 := None; bbox := bbox (mkSvg [] 100 100) |}.
Definition objAnonymous : AnimObject := mkObj svgAnonymous.

(** A shape whose bounding box has a NaN height. *)
Definition svgNaNHeight : SvgObject :=
  {| md5 := Some [Byte.x03];
     bbox := {| bboxMin := v2 0 0;
                bboxMax := {| x := F32.of_Z 100; y := S754_nan |} |} |}.
Definition objNaNHeight : AnimObject := mkObj svgNaNHeight.

(** A shape wider than the page: 5000 x 10 pixels. *)
Definition svgWide : SvgObject := mkSvg [Byte.x02] 5000 10.
Definition objWide : AnimObject := mkObj svgWide.


(* ================================================================== *)
(** ** Lifecycle and drawing: the rest of [SvgCache.cpp] *)
(* ================================================================== *)

(** The calls [SvgCache] makes on the GL layer, the framebuffer and the
    logger outside of [put]. *)
Inductive GlCall :=
| GlLogError (msg : string)
| GlGenerateFramebuffer (w h attachments : Z)
| GlDestroyFramebuffer
| GlPushDebugGroup (name : string)
| GlPopDebugGroup
| GlBindFramebuffer
| GlViewport (vx vy vw vh : Z)
| GlClearColorAttachment (i : Z)
| GlClearDepthStencil.

Definition msgCacheTooBig : string :=
  "SVG cache cannot be bigger than 4096x4096 pixels. The SVG will be truncated.".

(** [generateDefaultFramebuffer(width, height)], both [uint32]: a size
    above 4096 in either dimension replaces both by 4096; four colour
    attachments are added and the store is reset. *)
Definition generateDefaultFramebuffer (w h : Z) (c : SvgCache)
    : SvgCache * list GlCall :=
  let tooBig := (4096 <? w) || (4096 <? h) in
  let w' := if tooBig then 4096 else w in
  let h' := if tooBig then 4096 else h in
  ({| framebuffer :=
        {| width := w'; height := h'; colorAttachments_size := 4 |};
      cachedSvgs := LRUCache.empty;
      cacheCurrentPos := cacheCurrentPos c;
      cacheLineHeight := cacheLineHeight c;
      cacheCurrentColorAttachment := cacheCurrentColorAttachment c |},
   (if tooBig then [GlLogError msgCacheTooBig] else [])
   ++ [GlGenerateFramebuffer w' h' 4]).

(** [SvgCache::init]. *)
Definition init (c : SvgCache) : SvgCache * list GlCall :=
  generateDefaultFramebuffer 4096 4096 c.

(** [SvgCache::free]. *)
Definition free (c : SvgCache) : SvgCache * list GlCall :=
  (set_cachedSvgs c LRUCache.empty, [GlDestroyFramebuffer]).

(** [SvgCache::clearAll]: the loop clears attachment [0], [1], ... up to the
    number of attachments. *)
Definition clearAll (c : SvgCache) : SvgCache * list GlCall :=
  ({| framebuffer := framebuffer c;
      cachedSvgs := LRUCache.empty;
      cacheCurrentPos := {| x := F32.of_Z 0; y := F32.of_Z 0 |};
      cacheLineHeight := F32.of_Z 0;
      cacheCurrentColorAttachment := 0 |},
   [GlPushDebugGroup "SVG_Cache_Reset"; GlBindFramebuffer;
    GlViewport 0 0 (width (framebuffer c)) (height (framebuffer c))]
   ++ (GlClearColorAttachment <$>
         seqZ 0 (colorAttachments_size (framebuffer c)))
   ++ [GlClearDepthStencil; GlPopDebugGroup]).

(** The fields of the object that [render] reads besides those the cache
    key needs: [is3D], [isTransparent], [fillColor] (four bytes), [id] and
    [globalTransform] (a 4 x 4 matrix, kept as its sixteen floats). *)
Record DrawProps := {
  is3D : bool;
  isTransparent : bool;
  fillColor : Z * Z * Z * Z;
  objId : Z;
  globalTransform : list F32.float
}.

(** What [render] hands to the renderer. *)
Inductive DrawCall :=
| DrawTexturedQuad3D (tex : TextureRef) (size uvMin uvMax : Vec2)
    (transform : list F32.float) (transparent : bool)
| DrawTexturedQuad (tex : TextureRef) (size uvMin uvMax : Vec2)
    (color : F32.float * F32.float * F32.float * F32.float) (id : Z)
    (transform : list F32.float).

(** [(float)c / 255.0f] for a colour byte. *)
Definition colorChannel (b : Z) : F32.float :=
  F32.div (F32.of_Z b) (F32.of_Z 255).

Section Render.

Context `{Hasher}.

(** [SvgCache::render(am, svg, obj)]; [parent] is what
    [AnimationManager::getObject(am, obj)] returns, [None] for [nullptr]. *)
Definition render (parent : option (AnimObject * DrawProps))
    (svg : SvgObject) (w : World)
    : option (World * list Action * list DrawCall) :=
  match parent with
  | None => Some (w, [], [])
  | Some (obj, props) =>
      '(metadata, w', tr) ← getOrCreateIfNotExist obj svg w;
      let size :=
        {| x := F32.div (x (svgTotalSize obj svg)) (svgScale obj);
           y := F32.div (y (svgTotalSize obj svg)) (svgScale obj) |} in
      let draw :=
        if is3D props then
          DrawTexturedQuad3D (textureRef metadata) size
            (entryTexCoordsMin metadata) (entryTexCoordsMax metadata)
            (globalTransform props) (isTransparent props)
        else
          let '(r, g, b, a) := fillColor props in
          DrawTexturedQuad (textureRef metadata) size
            (entryTexCoordsMin metadata) (entryTexCoordsMax metadata)
            (colorChannel r, colorChannel g, colorChannel b, colorChannel a)
            (objId props) (globalTransform props) in
      Some (w', tr, [draw])
  end.

End Render.

(** Every page index in the cache names an existing colour attachment: the
    current page and the page of every stored record. *)
Definition pagesValid (c : SvgCache) : Prop :=
  let n := colorAttachments_size (framebuffer c) in
  0 <= cacheCurrentColorAttachment c < n /\
  Forall (fun e => 0 <= colorAttachment (LRUCache.data e) < n)
    (LRUCache.entries (cachedSvgs c)).

(** The texture a lookup hands out is the dummy or an existing attachment. *)
Definition textureValid (fb : Framebuffer) (t : TextureRef) : Prop :=
  match t with
  | DummyTexture => True
  | ColorAttachmentRef i => 0 <= i < colorAttachments_size fb
  end.

(** An object with the drawing fields of a flat white 2D shape. *)
Definition flatWhite : DrawProps :=
  {| is3D := false; isTransparent := false;
     fillColor := (255, 255, 255, 255); objId := 7;
     globalTransform := [] |}.

(** A shape with an empty bounding box. *)
Definition svgEmpty : SvgObject := mkSvg [Byte.x03] 0 0.
Definition objEmpty : AnimObject := mkObj svgEmpty.

(** The texture and the UV rectangle of a draw call. *)
Definition drawTexture (d : DrawCall) : TextureRef :=
  match d with
  | DrawTexturedQuad3D t _ _ _ _ _ | DrawTexturedQuad t _ _ _ _ _ _ => t
  end.

Definition drawUv (d : DrawCall) : Vec2 * Vec2 :=
  match d with
  | DrawTexturedQuad3D _ _ a b _ _ | DrawTexturedQuad _ _ a b _ _ _ => (a, b)
  end.

(* ================================================================== *)
(** * TextureCache: reference-counted image textures *)
(* ================================================================== *)

(** What [renderer/TextureCache.cpp] takes from the rest of the program and
    from the platform: the texture type with its GPU id read as a handle
    ([(TextureHandle)texture.graphicsId]), the load options, the null test
    on handles, [std::filesystem::absolute(path).make_preferred()] behind
    [stringToAbsPath], and the value-initialised [static Texture dummy]. *)
Class TexturePlatform := {
  Texture : Type;
  TextureLoadOptions : Type;
  graphicsId : Texture -> Z;
  isNull : Z -> bool;
  stringToAbsPath : string -> string;
  dummy : Texture
}.

Module TextureCache.

Section Model.

Context `{TP : TexturePlatform}.

(** [struct CachedTexture]; [refCount] is a [uint32]. *)
Record CachedTexture := {
  texture : Texture;
  refCount : Z;
  absPath : string
}.

(** The three file-level maps. *)
Record t := {
  cachedTexturePaths : gmap string Z;
  cachedTextures : gmap Z CachedTexture;
  deadTextures : gmap Z string
}.

(** What the functions do besides updating the maps: the log lines and the
    calls that reach the GPU. *)
Inductive Event :=
| LogCaching (path : string)
| Generate (imageFilepath : string) (options : TextureLoadOptions)
    (result : Texture)
| LogAlreadyUnloaded (path : string)
| LogUnloading (path : string)
| Destroy (tex : Texture)
| LogDeadTexture (path : string)
| LogUnknownHandle (handle : Z)
| LogNotCached (handle : Z).

Definition set_refCount (ct : CachedTexture) (n : Z) : CachedTexture :=
  {| texture := texture ct; refCount := n; absPath := absPath ct |}.

(** [TextureCache::init]: [deadTextures] is not reset. *)
Definition init (st : t) : t :=
  {| cachedTexturePaths := ∅; cachedTextures := ∅;
     deadTextures := deadTextures st |}.

(** [TextureCache::loadTexture].  [generated] is the texture that
    [TextureBuilder::generate] returns when the file has to be loaded;
    [None] is the failed [g_logger_assert]. *)
Definition loadTexture (imageFilepath : string) (options : TextureLoadOptions)
    (generated : Texture) (st : t) : option (Z * t * list Event) :=
  let absolutePath := stringToAbsPath imageFilepath in
  match cachedTexturePaths st !! absolutePath with
  | Some handle =>
      match cachedTextures st !! handle with
      | Some ct =>
          Some (handle,
                {| cachedTexturePaths := cachedTexturePaths st;
                   cachedTextures :=
                     <[handle := set_refCount ct ((refCount ct + 1) mod 2 ^ 32)]>
                       (cachedTextures st);
                   deadTextures := deadTextures st |},
                [])
      | None => None
      end
  | None =>
      let handle := graphicsId generated in
      let newEntry :=
        {| texture := generated; refCount := 1; absPath := absolutePath |} in
      Some (handle,
            {| cachedTexturePaths :=
                 <[absolutePath := handle]> (cachedTexturePaths st);
               cachedTextures := <[handle := newEntry]> (cachedTextures st);
               deadTextures := deadTextures st |},
            [LogCaching absolutePath;
             Generate imageFilepath options generated])
  end.

(** [TextureCache::unloadTexture]. *)
Definition unloadTexture (handle : Z) (st : t) : t * list Event :=
  if isNull handle then (st, [])
  else
    match cachedTextures st !! handle with
    | Some ct =>
        if refCount ct =? 0 then (st, [LogAlreadyUnloaded (absPath ct)])
        else
          let ct' := set_refCount ct (refCount ct - 1) in
          if refCount ct' =? 0 then
            ({| cachedTexturePaths :=
                  delete (absPath ct') (cachedTexturePaths st);
                cachedTextures := delete handle (cachedTextures st);
                deadTextures := <[handle := absPath ct']> (deadTextures st) |},
             [LogUnloading (absPath ct'); Destroy (texture ct')])
          else
            ({| cachedTexturePaths := cachedTexturePaths st;
                cachedTextures := <[handle := ct']> (cachedTextures st);
                deadTextures := deadTextures st |}, [])
    | None =>
        match deadTextures st !! handle with
        | Some path => (st, [LogDeadTexture path])
        | None => (st, [LogUnknownHandle handle])
        end
    end.

(** [TextureCache::getTexture]. *)
Definition getTexture (textureHandle : Z) (st : t) : Texture * list Event :=
  match cachedTextures st !! textureHandle with
  | Some ct => (texture ct, [])
  | None =>
      (dummy, if isNull textureHandle then []
              else [LogNotCached textureHandle])
  end.

(** [TextureCache::free]; the order in which the textures are destroyed is
    that of the iteration over the map. *)
Definition free (st : t) : t * list Event :=
  ({| cachedTexturePaths := ∅; cachedTextures := ∅; deadTextures := ∅ |},
   (fun kv => Destroy (texture kv.2)) <$> map_to_list (cachedTextures st)).

(** [unloadTexture] called [n] times on the same handle. *)
Fixpoint unloadTimes (n : nat) (handle : Z) (st : t) : t * list Event :=
  match n with
  | O => (st, [])
  | S n' =>
      let '(st1, tr1) := unloadTexture handle st in
      let '(st2, tr2) := unloadTimes n' handle st1 in
      (st2, tr1 ++ tr2)
  end.

(** The two maps describe the same textures: a cached path leads to a
    record that carries this path, a record is reachable from its path, and
    a record that is present is referenced at least once. *)
Definition consistent (st : t) : Prop :=
  (forall p h, cachedTexturePaths st !! p = Some h ->
     exists ct, cachedTextures st !! h = Some ct /\ absPath ct = p) /\
  (forall h ct, cachedTextures st !! h = Some ct ->
     cachedTexturePaths st !! absPath ct = Some h /\
     0 < refCount ct < 2 ^ 32).

End Model.

End TextureCache.

(** A platform to evaluate the functions on: a texture is its GPU id, paths
    are taken as absolute already, the all-ones handle is the null handle
    and the dummy texture has id 0. *)
#[export] Instance refPlatform : TexturePlatform :=
  {| Texture := Z; TextureLoadOptions := unit; graphicsId := fun i => i;
     isNull := fun h => h =? 2 ^ 64 - 1;
     stringToAbsPath := fun p => p; dummy := 0 |}.

(** The state before anything is loaded. *)
Definition noTextures : TextureCache.t :=
  {| TextureCache.cachedTexturePaths := ∅;
     TextureCache.cachedTextures := ∅;
     TextureCache.deadTextures := ∅ |}.

(** ["a.png"] loaded twice as texture 7. *)
Definition sevenTwice : TextureCache.CachedTexture :=
  {| TextureCache.texture := 7; TextureCache.refCount := 2;
     TextureCache.absPath := "a.png" |}.

Definition oneTexture : TextureCache.t :=
  {| TextureCache.cachedTexturePaths := {[ "a.png" := 7 ]};
     TextureCache.cachedTextures := {[ 7 := sevenTwice ]};
     TextureCache.deadTextures := ∅ |}.

(* ================================================================== *)
(** * Application: choosing and deleting scenes *)
(* ================================================================== *)

Module Application.

(** The file-level variables of [core/Application.cpp] that the scene
    functions read and write; [sceneToChangeTo] and [currentScene] are
    [int]s, the list is taken to be shorter than [2 ^ 31]. *)
Record SceneState := {
  sceneNames : list string;
  currentScene : Z;
  sceneToChangeTo : Z;
  reloadCurrentScene : bool;
  saveCurrentSceneOnReload : bool
}.

(** The calls that leave the file: the warning, the file removal (relative
    to [currentProjectSceneDir]) and the steps of a reload. *)
Inductive Event :=
| LogUnknownScene (sceneName : string)
| RemoveFile (filename : string)
| WriteSceneFile (filename : string)
| FreeEditorGui
| FreeSceneSystems
| InitializeSceneSystems
| LoadScene (sceneName : string)
| InitEditorGui.

Definition sceneToFilename (stringName ext : string) : string :=
  "Scene_" +:+ stringName +:+ ext.

(** The loop of [deleteScene], at index [i] with [rest] still to compare. *)
Fixpoint deleteSceneLoop (i : Z) (rest : list string) (sceneName : string)
    (st : SceneState) : SceneState :=
  match rest with
  | [] => st
  | name :: rest' =>
      if String.eqb name sceneName then
        if i <=? sceneToChangeTo st then
          {| sceneNames := sceneNames st;
             currentScene := currentScene st;
             sceneToChangeTo := sceneToChangeTo st - 1;
             reloadCurrentScene := reloadCurrentScene st;
             saveCurrentSceneOnReload := saveCurrentSceneOnReload st |}
        else st
      else deleteSceneLoop (i + 1) rest' sceneName st
  end.

(** [Application::deleteScene]. *)
Definition deleteScene (sceneName : string) (st : SceneState)
    : SceneState * list Event :=
  (deleteSceneLoop 0 (sceneNames st) sceneName st,
   [RemoveFile (sceneToFilename sceneName ".json")]).

(** The loop of [changeSceneTo], at index [i] with [rest] still to
    compare; running off the list reaches the warning. *)
Fixpoint changeSceneToLoop (i : Z) (rest : list string) (sceneName : string)
    (saveCurrentScene : bool) (st : SceneState) : SceneState * list Event :=
  match rest with
  | [] => (st, [LogUnknownScene sceneName])
  | name :: rest' =>
      if String.eqb name sceneName then
        ({| sceneNames := sceneNames st;
            currentScene := currentScene st;
            sceneToChangeTo := i;
            reloadCurrentScene := true;
            saveCurrentSceneOnReload := saveCurrentScene |}, [])
      else changeSceneToLoop (i + 1) rest' sceneName saveCurrentScene st
  end.

(** [Application::changeSceneTo]. *)
Definition changeSceneTo (sceneName : string) (saveCurrentScene : bool)
    (st : SceneState) : SceneState * list Event :=
  changeSceneToLoop 0 (sceneNames st) sceneName saveCurrentScene st.

(** [sceneData.sceneNames[index]] with an [int] index: outside the vector
    the read is undefined. *)
Definition sceneNameAt (st : SceneState) (index : Z) : option string :=
  if index <? 0 then None else sceneNames st !! Z.to_nat index.

(** [Application::saveCurrentScene]: the scene is serialized to the file
    of the current scene. *)
Definition saveCurrentScene (st : SceneState) : option (list Event) :=
  name ← sceneNameAt st (currentScene st);
  Some [WriteSceneFile (sceneToFilename name ".json")].

(** [Application::reloadCurrentSceneInternal]. *)
Definition reloadCurrentSceneInternal (st : SceneState)
    : option (SceneState * list Event) :=
  saved ← (if saveCurrentSceneOnReload st then saveCurrentScene st
           else Some []);
  let st1 :=
    {| sceneNames := sceneNames st;
       currentScene := sceneToChangeTo st;
       sceneToChangeTo := sceneToChangeTo st;
       reloadCurrentScene := reloadCurrentScene st;
       saveCurrentSceneOnReload := saveCurrentSceneOnReload st |} in
  name ← sceneNameAt st1 (currentScene st1);
  Some (st1, saved ++ [FreeEditorGui; FreeSceneSystems;
                       InitializeSceneSystems; LoadScene name;
                       InitEditorGui]).

(** The end of a frame in [Application::run]: the pending reload. *)
Definition endOfFrame (st : SceneState) : option (SceneState * list Event) :=
  if reloadCurrentScene st then
    '(st1, tr) ← reloadCurrentSceneInternal st;
    Some ({| sceneNames := sceneNames st1;
             currentScene := currentScene st1;
             sceneToChangeTo := sceneToChangeTo st1;
             reloadCurrentScene := false;
             saveCurrentSceneOnReload := saveCurrentSceneOnReload st1 |}, tr)
  else Some (st, []).

End Application.

(** A project with three scenes, the first one open. *)
Definition threeScenes : Application.SceneState :=
  {| Application.sceneNames := ["intro"; "proof"; "outro"];
     Application.currentScene := 0;
     Application.sceneToChangeTo := 0;
     Application.reloadCurrentScene := false;
     Application.saveCurrentSceneOnReload := true |}.

(* ================================================================== *)
(** * GizmoManager: the registry of gizmos *)
(* ================================================================== *)

Module GizmoManager.

Inductive FollowMouseMoveMode := None_ | HzOnly | VtOnly | FreeMove.

Record Vec3 := { x : F32.float; y : F32.float; z : F32.float }.

Section Registry.

(** The two enumerations of [editor/Gizmos.h]. *)
Context {GizmoType GizmoVariant : Type}.

(** [struct GizmoState]. *)
Record GizmoState := {
  gizmoType : GizmoType;
  variant : GizmoVariant;
  idHash : Z;
  position : Vec3;
  positionMoveStart : Vec3;
  mouseDelta : Vec3;
  moveMode : FollowMouseMoveMode;
  shouldDraw : bool
}.

(** The registry part of [struct GlobalContext]: [gizmoById] maps an id to
    an index into [gizmos]; a [GizmoState*] is the position of the state in
    [gizmos]. *)
Record GlobalContext := {
  gizmoById : gmap Z Z;
  gizmos : list GizmoState
}.

(** [name[i]] converted for the xor with a [uint64]: [char] is signed. *)
Definition charToUint64 (c : Ascii.ascii) : Z :=
  let b := Z.of_N (Ascii.N_of_ascii c) in
  if b <? 128 then b else (b - 256) mod 2 ^ 64.

(** The loop of [hashName]; it ends at the terminating zero. *)
Fixpoint hashNameLoop (hash : Z) (name : string) : Z :=
  match name with
  | EmptyString => hash
  | String c rest =>
      if (Ascii.N_of_ascii c =? 0)%N then hash
      else
        hashNameLoop
          (Z.lxor ((hash * 0x00000100000001B3) mod 2 ^ 64) (charToUint64 c)) rest
  end.

(** [hashName]: [FNVOffsetBasis = 0xcbf29ce48422232],
    [FNVPrime = 0x00000100000001B3]. *)
Definition hashName (name : string) : Z :=
  hashNameLoop 0xcbf29ce48422232 name.

(** [getGizmoById]: [Some None] is [nullptr], [None] the read of
    [g->gizmos] past its end. *)
Definition getGizmoById (id : Z) (g : GlobalContext) : option (option nat) :=
  match gizmoById g !! id with
  | None => Some None
  | Some index =>
      if index <? Z.of_nat (length (gizmos g)) then Some (Some (Z.to_nat index))
      else None
  end.

Definition getGizmoByName (name : string) (g : GlobalContext)
    : option (option nat) :=
  getGizmoById (hashName name) g.

(** [createDefaultGizmoState]; [allocated] is what [g_memory_allocate]
    returned, whose other fields are left as they are. *)
Definition createDefaultGizmoState (name : string) (type : GizmoType)
    (allocated : GizmoState) (g : GlobalContext) : nat * GlobalContext :=
  let hash := hashName name in
  let gizmoState :=
    {| gizmoType := type;
       variant := variant allocated;
       idHash := hash;
       position := position allocated;
       positionMoveStart := positionMoveStart allocated;
       mouseDelta := {| x := F32.zero; y := F32.zero; z := F32.zero |};
       moveMode := None_;
       shouldDraw := false |} in
  let gizmos' := gizmos g ++ [gizmoState] in
  (length (gizmos g),
   {| gizmoById :=
        <[hash := (Z.of_nat (length gizmos') mod 2 ^ 32 - 1) mod 2 ^ 32]>
          (gizmoById g);
      gizmos := gizmos' |}).

(** Every id of the map leads to a state of the vector that carries it. *)
Definition registryValid (g : GlobalContext) : Prop :=
  forall id index,
    gizmoById g !! id = Some index ->
    0 <= index /\
    exists s, gizmos g !! Z.to_nat index = Some s /\ idHash s = id.

End Registry.

End GizmoManager.

(** A freshly allocated gizmo state, and a registry that holds the gizmo
    named ["camera"]. *)
Definition rawGizmo : GizmoManager.GizmoState (GizmoType := unit)
                        (GizmoVariant := unit) :=
  {| GizmoManager.gizmoType := tt; GizmoManager.variant := tt;
     GizmoManager.idHash := 0;
     GizmoManager.position :=
       {| GizmoManager.x := F32.zero; GizmoManager.y := F32.zero;
          GizmoManager.z := F32.zero |};
     GizmoManager.positionMoveStart :=
       {| GizmoManager.x := F32.zero; GizmoManager.y := F32.zero;
          GizmoManager.z := F32.zero |};
     GizmoManager.mouseDelta :=
       {| GizmoManager.x := F32.zero; GizmoManager.y := F32.zero;
          GizmoManager.z := F32.zero |};
     GizmoManager.moveMode := GizmoManager.FreeMove;
     GizmoManager.shouldDraw := true |}.

Definition noGizmos : GizmoManager.GlobalContext (GizmoType := unit)
                        (GizmoVariant := unit) :=
  {| GizmoManager.gizmoById := ∅; GizmoManager.gizmos := [] |}.


Arguments svgTotalSize : simpl never.
Arguments cachePadding : simpl never.

(** Closing steps for goals about concrete states. *)
Ltac by_computation := vm_compute; reflexivity.
Ltac wf_by_decision := apply (bool_decide_unpack _); vm_compute; exact I.

(* ================================================================== *)
(** ** Facts about binary32 used below *)
(* ================================================================== *)

Lemma SFcompare_refl (f : spec_float) :
  F32.is_nan f = false -> SFcompare f f = Some Eq.
Proof.
  destruct f as [s|s| |s m e]; simpl; try discriminate; intros _.
  - reflexivity.
  - destruct s; reflexivity.
  - rewrite Z.compare_refl, Pos.compare_cont_refl. destruct s; reflexivity.
Qed.

Lemma geb_refl (f : F32.float) : F32.is_nan f = false -> F32.geb f f = true.
Proof.
  intros Hn. unfold F32.geb, SFleb. rewrite (SFcompare_refl f Hn). reflexivity.
Qed.

Lemma roundedSvgScale_1_0001 :
  F32.to_int (F32.mul scale_1_0001 (F32.of_Z 1000)) = Some 1000.
Proof. by_computation. Qed.

Lemma roundedSvgScale_1_0004 :
  F32.to_int (F32.mul scale_1_0004 (F32.of_Z 1000)) = Some 1000.
Proof. by_computation. Qed.

Lemma roundedSvgScale_1_0006 :
  F32.to_int (F32.mul scale_1_0006 (F32.of_Z 1000)) = Some 1000.
Proof. by_computation. Qed.

(* ================================================================== *)
(** ** The cache key: truncation of the scale *)
(* ================================================================== *)

(** C5 (as amended). The key of scale 1.0001 equals the key of scale 1.0004,
    and the key of scale 1.0004 equals the key of scale 1.0006 as well: the
    scale is truncated, not rounded, to thousandths, and all three scales
    truncate to 1000. *)
Theorem hash_scale_truncation `{Hasher} (f : list Byte.byte) (t : F32.float) :
  hash f scale_1_0001 t = hash f scale_1_0004 t /\
  hash f scale_1_0004 t = hash f scale_1_0006 t.
Proof.
  unfold hash.
  rewrite roundedSvgScale_1_0001, roundedSvgScale_1_0004,
    roundedSvgScale_1_0006.
  split; reflexivity.
Qed.

(** C5 as stated fails: no choice of hasher tells 1.0004 from 1.0006. *)
Lemma hash_rounding_collapse_fails :
  ~ (forall (H : Hasher) (f : list Byte.byte) (t : F32.float),
       @hash H f scale_1_0001 t = @hash H f scale_1_0004 t /\
       @hash H f scale_1_0004 t <> @hash H f scale_1_0006 t).
Proof.
  intros Hc.
  destruct (Hc refHasher [] (F32.of_Z 0)) as [_ Hne].
  apply Hne. vm_compute. reflexivity.
Qed.

(* ================================================================== *)
(** ** The LRU store *)
(* ================================================================== *)

Section LRUFacts.

Import LRUCache.

Implicit Types (l : list LRUCacheEntry) (k : Z) (e : LRUCacheEntry).

Lemma unlink_other l k e : e ∈ l -> key e ≠ k -> e ∈ unlink k l.
Proof.
  induction l as [|a l IH]; simpl; intros Hin Hne; [inversion Hin|].
  destruct (Z.eqb_spec (key a) k) as [Heq|Hd].
  - apply elem_of_cons in Hin as [->|Hin]; [congruence|exact Hin].
  - apply elem_of_cons in Hin as [->|Hin]; [left|right; auto].
Qed.

Lemma unlink_sub l k e : e ∈ unlink k l -> e ∈ l.
Proof.
  induction l as [|a l IH]; simpl; [auto|].
  destruct (key a =? k); intros Hin; [by right|].
  apply elem_of_cons in Hin as [->|Hin]; [left|right; auto].
Qed.

Lemma unlink_absent l k : k ∉ (key <$> l) -> unlink k l = l.
Proof.
  induction l as [|a l IH]; simpl; [auto|]. intros Hn.
  apply not_elem_of_cons in Hn as [Hne Hn].
  destruct (Z.eqb_spec (key a) k); [congruence|]. by rewrite IH.
Qed.

Lemma keys_unlink l k :
  NoDup ((key <$> l)) -> ∀ j, j ∈ (key <$> unlink k l) ↔ j ∈ (key <$> l) ∧ j ≠ k.
Proof.
  induction l as [|a l IH]; simpl; intros Hnd j.
  - split; [inversion 1|intros [Hin _]; inversion Hin].
  - apply NoDup_cons in Hnd as [Hna Hnd].
    destruct (Z.eqb_spec (key a) k) as [Heq|Hd].
    + subst k. rewrite elem_of_cons. split.
      * intros Hj. split; [by right|]. intros ->. contradiction.
      * intros [[->|Hj] Hne]; [congruence|exact Hj].
    + simpl. rewrite !elem_of_cons, (IH Hnd j). split.
      * intros [->|[Hj Hne]]; [split; [by left|congruence]|split; [by right|done]].
      * intros [[->|Hj] Hne]; [by left|right; done].
Qed.

Lemma NoDup_unlink l k : NoDup ((key <$> l)) -> NoDup ((key <$> unlink k l)).
Proof.
  induction l as [|a l IH]; simpl; intros Hnd; [constructor|].
  apply NoDup_cons in Hnd as [Hna Hnd].
  destruct (key a =? k); [exact Hnd|].
  simpl. apply NoDup_cons. split; [|auto].
  intros Hin. apply (keys_unlink l k Hnd) in Hin as [Hin _]. contradiction.
Qed.

Lemma node_present l k :
  k ∈ (key <$> l) -> ∃ e, node k l = Some e ∧ key e = k ∧ e ∈ l.
Proof.
  unfold node. induction l as [|a l IH]; simpl; intros Hin; [inversion Hin|].
  destruct (Z.eqb_spec (key a) k) as [Heq|Hd].
  - exists a. split; [done|]. split; [done|left].
  - apply elem_of_cons in Hin as [->|Hin]; [congruence|].
    destruct (IH Hin) as (e & He & Hk & Hl). exists e. split; [done|].
    split; [done|by right].
Qed.

Lemma node_unique l k e :
  NoDup ((key <$> l)) -> e ∈ l -> key e = k -> node k l = Some e.
Proof.
  unfold node. induction l as [|a l IH]; simpl; intros Hnd Hin Hk;
    [inversion Hin|].
  apply NoDup_cons in Hnd as [Hna Hnd].
  apply elem_of_cons in Hin as [->|Hin].
  - subst k. by rewrite Z.eqb_refl.
  - destruct (Z.eqb_spec (key a) k) as [Heq|Hd]; [|auto].
    exfalso. apply Hna. rewrite Heq, <- Hk. by apply list_elem_of_fmap_2.
Qed.

Lemma node_moved_to_back l k e :
  key e = k -> k ∉ (key <$> l) -> node k (l ++ [e]) = Some e.
Proof.
  unfold node. induction l as [|a l IH]; simpl; intros Hk Hn.
  - subst k. by rewrite Z.eqb_refl.
  - apply not_elem_of_cons in Hn as [Hne Hn].
    destruct (Z.eqb_spec (key a) k); [congruence|auto].
Qed.

Lemma exists_true c k : exists_ c k = true ↔ k ∈ index c.
Proof. unfold exists_. apply bool_decide_eq_true. Qed.

Lemma exists_false c k : exists_ c k = false ↔ k ∉ index c.
Proof. unfold exists_. apply bool_decide_eq_false. Qed.

Lemma wf_index c k : wf c -> k ∈ index c ↔ k ∈ keys c.
Proof. intros [_ Hi]. rewrite Hi. apply elem_of_list_to_set. Qed.

Lemma evict_index c k : index (evict c k).2 = index c ∖ {[ k ]}.
Proof.
  unfold evict. destruct (exists_ c k) eqn:Hex; simpl; [done|].
  apply exists_false in Hex. apply set_eq. intros j.
  rewrite elem_of_difference, elem_of_singleton. split; [|tauto].
  intros Hj. split; [done|]. intros ->. contradiction.
Qed.

Lemma evict_keeps c k e :
  e ∈ entries c -> key e ≠ k -> e ∈ entries (evict c k).2.
Proof.
  unfold evict. destruct (exists_ c k); simpl; [|done].
  apply unlink_other.
Qed.

Lemma evict_sub c k e : e ∈ entries (evict c k).2 -> e ∈ entries c.
Proof.
  unfold evict. destruct (exists_ c k); simpl; [|done]. apply unlink_sub.
Qed.

Lemma evict_false_id c k s : evict c k = (false, s) -> s = c.
Proof. unfold evict. destruct (exists_ c k); congruence. Qed.

Lemma insert_exists c k v : exists_ (insert c k v) k = true.
Proof. apply exists_true. simpl. set_solver. Qed.

End LRUFacts.

(* ================================================================== *)
(** ** The eviction scan *)
(* ================================================================== *)

Lemma evictionScan_outcome (w h : F32.float) (maxN : Z) (pl : Placement)
    (s : LRUCache.t) (chain : list LRUCacheEntry) :
  forall counter,
    scan_outcome w h maxN chain counter pl s
      (evictionScan w h maxN chain counter pl s).
Proof.
  induction chain as [|e next IH]; intros counter; simpl.
  - apply (scan_end _ _ _ []); [constructor|simpl; lia|by left].
  - destruct (Z.ltb_spec counter maxN) as [Hlt|Hge].
    + destruct (fits w h e) eqn:Hfit.
      * destruct (LRUCache.evict s (LRUCache.key e)) as [ok s'] eqn:Hev.
        destruct ok.
        -- apply (scan_reuse _ _ _ _ _ _ _ [] e next s');
             simpl; auto; lia.
        -- pose proof (evict_false_id _ _ _ Hev) as ->.
           apply (scan_evict_failed _ _ _ _ _ _ _ [] e next);
             simpl; auto; lia.
      * specialize (IH (counter + 1)).
        destruct (evictionScan w h maxN next (counter + 1) pl s)
          as [[[[o c] p] s'] tr].
        inversion IH as [c' Hall Hc Hb|probed e' rest c' Hch Hall Hc Hb1 Hb2
                        |probed e' rest s'' c' Hch Hall Hc Hb Hf Hev
                        |probed e' rest c' Hch Hall Hc Hb Hf Hev]; subst.
        -- apply (scan_end _ _ _ (e :: next)).
           ++ constructor; auto.
           ++ simpl length. lia.
           ++ right. destruct Hb as [->|Hb]; simpl in *; lia.
        -- apply (scan_budget _ _ _ _ _ _ _ (e :: probed) e' rest);
             simpl length; auto; try lia.
           right. destruct Hb2 as [->|Hb2]; simpl in *; lia.
        -- apply (scan_reuse _ _ _ _ _ _ _ (e :: probed) e' rest);
             simpl length; auto; lia.
        -- apply (scan_evict_failed _ _ _ _ _ _ _ (e :: probed) e' rest);
             simpl length; auto; lia.
    + apply (scan_budget _ _ _ _ _ _ _ [] e next); simpl; auto; lia.
Qed.

(* ================================================================== *)
(** ** The scan budget *)
(* ================================================================== *)

(** The budget is computed in binary32.  What follows characterises the
    rounding of [SFmul] far enough to compare the truncated product with
    the integer quotient: a right shift by [n] bits keeps the quotient by
    [2 ^ n] and sets the round bit only when the remainder is at least half
    of [2 ^ n], so the rounded mantissa is within half a unit of the exact
    product. *)

Lemma iter_pos_nat {A} (f : A -> A) (p : positive) :
  forall x, SpecFloat.iter_pos f p x = Nat.iter (Pos.to_nat p) f x.
Proof.
  induction p as [p IH|p IH|]; intros x; cbn [SpecFloat.iter_pos].
  - rewrite !IH, Pos2Nat.inj_xI.
    rewrite <- Nat.iter_succ_r, <- Nat.iter_add. f_equal. lia.
  - rewrite !IH, Pos2Nat.inj_xO, <- Nat.iter_add. f_equal. lia.
  - reflexivity.
Qed.

Lemma shr_1_spec (mrs : shr_record) :
  0 <= shr_m mrs ->
  shr_m (shr_1 mrs) = shr_m mrs / 2 /\
  shr_r (shr_1 mrs) = Z.odd (shr_m mrs).
Proof.
  destruct mrs as [m r s]. simpl. intros Hm.
  destruct m as [|[p|p|]|p]; simpl; try lia; split; try reflexivity.
  - rewrite Pos2Z.inj_xI. apply (Z.div_unique _ _ _ 1); lia.
  - rewrite Pos2Z.inj_xO. apply (Z.div_unique _ _ _ 0); lia.
Qed.

Lemma shr_iter_spec (n : nat) (mrs : shr_record) :
  0 <= shr_m mrs ->
  let res := Nat.iter (S n) shr_1 mrs in
  shr_m res = shr_m mrs / 2 ^ Z.of_nat (S n) /\
  (shr_r res = true ->
   2 ^ Z.of_nat n <= shr_m mrs mod 2 ^ Z.of_nat (S n)).
Proof.
  intros Hm. induction n as [|n IH].
  - simpl. destruct (shr_1_spec mrs Hm) as [Hq Hr]. split.
    + rewrite Hq. reflexivity.
    + rewrite Hr. intros Hodd. change (2 ^ Z.of_nat 1) with 2.
      rewrite Zodd_mod in Hodd. apply Z.eqb_eq in Hodd. simpl. lia.
  - destruct IH as [Hq _]. cbv zeta.
    change (Nat.iter (S (S n)) shr_1 mrs)
      with (shr_1 (Nat.iter (S n) shr_1 mrs)).
    set (res := Nat.iter (S n) shr_1 mrs) in *.
    assert (Hres : 0 <= shr_m res)
      by (rewrite Hq; apply Z.div_pos; lia).
    destruct (shr_1_spec res Hres) as [Hq' Hr'].
    assert (Hpow : 2 ^ Z.of_nat (S (S n)) = 2 ^ Z.of_nat (S n) * 2)
      by (rewrite (Nat2Z.inj_succ (S n)), Z.pow_succ_r; lia).
    split.
    + rewrite Hq', Hq, Hpow, Z.div_div; lia.
    + rewrite Hr'. intros Hodd. rewrite Zodd_mod in Hodd.
      apply Z.eqb_eq in Hodd. rewrite Hq in Hodd.
      rewrite Hpow.
      pose proof (Z.pow_pos_nonneg 2 (Z.of_nat (S n)) ltac:(lia) ltac:(lia)) as Hp.
      rewrite Z.rem_mul_r by lia. rewrite Hodd.
      pose proof (Z.mod_pos_bound (shr_m mrs) (2 ^ Z.of_nat (S n)) Hp). lia.
Qed.

Lemma digits2_pos_bounds (p : positive) :
  2 ^ (Zpos (digits2_pos p) - 1) <= Zpos p < 2 ^ Zpos (digits2_pos p).
Proof.
  induction p as [p IH|p IH|]; simpl digits2_pos.
  - rewrite Pos2Z.inj_succ. replace (Z.succ (Zpos (digits2_pos p)) - 1)
      with (Z.succ (Zpos (digits2_pos p) - 1)) by lia.
    rewrite !Z.pow_succ_r by lia. lia.
  - rewrite Pos2Z.inj_succ. replace (Z.succ (Zpos (digits2_pos p)) - 1)
      with (Z.succ (Zpos (digits2_pos p) - 1)) by lia.
    rewrite !Z.pow_succ_r by lia. lia.
  - simpl. lia.
Qed.

Lemma digits2_pos_unique (p : positive) (k : Z) :
  2 ^ (k - 1) <= Zpos p < 2 ^ k -> Zpos (digits2_pos p) = k.
Proof.
  intros [Hlo Hhi]. pose proof (digits2_pos_bounds p) as [Hlo' Hhi'].
  assert (Hk : 0 < k).
  { destruct (Z.ltb_spec 0 k); [done|].
    destruct (Z.eq_dec k 0) as [->|]; [simpl in Hhi; lia|].
    rewrite Z.pow_neg_r in Hhi by lia. lia. }
  assert (k - 1 < Zpos (digits2_pos p))
    by (apply (Z.pow_lt_mono_r_iff 2); lia).
  assert (Zpos (digits2_pos p) - 1 < k)
    by (apply (Z.pow_lt_mono_r_iff 2); lia).
  lia.
Qed.

Lemma shr_fexp_shift (m : positive) (e n : Z) (l : location) :
  0 < n -> Zpos (digits2_pos m) = 24 + n -> -149 <= e + n ->
  shr_fexp 24 128 (Zpos m) e l =
    (Nat.iter (S (Z.to_nat (n - 1))) shr_1 (shr_record_of_loc (Zpos m) l),
     e + n).
Proof.
  intros Hn Hd He. unfold shr_fexp, Zdigits2. rewrite Hd.
  replace (fexp 24 128 (24 + n + e) - e) with n
    by (unfold fexp, emin; lia).
  unfold shr. destruct n as [|pn|pn]; try lia.
  rewrite iter_pos_nat. do 2 f_equal. lia.
Qed.

Lemma shr_fexp_fixed (m : positive) (e : Z) :
  Zpos (digits2_pos m) = 24 -> -149 <= e ->
  shr_fexp 24 128 (Zpos m) e loc_Exact =
    ({| shr_m := Zpos m; shr_r := false; shr_s := false |}, e).
Proof.
  intros Hd He. unfold shr_fexp, Zdigits2. rewrite Hd.
  replace (fexp 24 128 (24 + e) - e) with 0 by (unfold fexp, emin; lia).
  reflexivity.
Qed.

Lemma shr_fexp_carry (e : Z) :
  -149 <= e ->
  shr_fexp 24 128 (2 ^ 24) e loc_Exact =
    ({| shr_m := 2 ^ 23; shr_r := false; shr_s := false |}, e + 1).
Proof.
  intros He. unfold shr_fexp. change (Zdigits2 (2 ^ 24)) with 25.
  replace (fexp 24 128 (25 + e) - e) with 1 by (unfold fexp, emin; lia).
  reflexivity.
Qed.

Lemma round_nearest_even_bounds (mrs : shr_record) :
  let M := round_nearest_even (shr_m mrs) (loc_of_shr_record mrs) in
  M = shr_m mrs \/ (M = shr_m mrs + 1 /\ shr_r mrs = true).
Proof.
  destruct mrs as [q [|] [|]]; simpl; auto.
  destruct (Z.even q); auto.
Qed.

Lemma round_aux_shift (P : positive) (e n : Z) :
  0 < n -> Zpos (digits2_pos P) = 24 + n -> -149 <= e + n -> e + n + 1 <= 104 ->
  exists (Mf : positive) (Ef M : Z),
    binary_round_aux 24 128 false (Zpos P) e loc_Exact
      = S754_finite false Mf Ef /\
    Zpos P / 2 ^ n <= M /\
    M * 2 ^ n <= Zpos P + 2 ^ (n - 1) /\
    ((Zpos Mf = M /\ Ef = e + n) \/ (2 * Zpos Mf = M /\ Ef = e + n + 1)).
Proof.
  intros Hn Hd He Hmax.
  pose proof (digits2_pos_bounds P) as [Hlo Hhi]. rewrite Hd in Hlo, Hhi.
  unfold binary_round_aux. rewrite (shr_fexp_shift P e n _ Hn Hd He).
  cbn [shr_record_of_loc].
  destruct (shr_iter_spec (Z.to_nat (n - 1))
              {| shr_m := Zpos P; shr_r := false; shr_s := false |})
    as [Hq Hr]; [simpl; lia|].
  cbn [shr_m] in Hq, Hr.
  replace (Z.of_nat (S (Z.to_nat (n - 1)))) with n in Hq, Hr by lia.
  replace (Z.of_nat (Z.to_nat (n - 1))) with (n - 1) in Hr by lia.
  set (res := Nat.iter (S (Z.to_nat (n - 1))) shr_1
                {| shr_m := Zpos P; shr_r := false; shr_s := false |}) in *.
  pose proof (round_nearest_even_bounds res) as HM. cbv zeta in HM.
  set (M := round_nearest_even (shr_m res) (loc_of_shr_record res)) in *.
  assert (Hpn : 0 < 2 ^ n) by (apply Z.pow_pos_nonneg; lia).
  assert (Hpn1 : 0 < 2 ^ (n - 1)) by (apply Z.pow_pos_nonneg; lia).
  assert (Hsplit : 2 ^ (24 + n) = 2 ^ 24 * 2 ^ n)
    by (rewrite Z.pow_add_r; lia).
  assert (Hsplit' : 2 ^ (24 + n - 1) = 2 ^ 23 * 2 ^ n)
    by (replace (24 + n - 1) with (23 + n) by lia; rewrite Z.pow_add_r; lia).
  pose proof (Z.div_mod (Zpos P) (2 ^ n) ltac:(lia)) as Hdm.
  pose proof (Z.mod_pos_bound (Zpos P) (2 ^ n) Hpn) as Hmod.
  assert (Hqlo : 2 ^ 23 <= shr_m res).
  { rewrite Hq. apply Z.div_le_lower_bound; lia. }
  assert (Hqhi : shr_m res < 2 ^ 24).
  { rewrite Hq. apply Z.div_lt_upper_bound; lia. }
  assert (HMle : M * 2 ^ n <= Zpos P + 2 ^ (n - 1)).
  { destruct HM as [->|[-> Htrue]].
    - rewrite Hq. nia.
    - specialize (Hr Htrue). rewrite Hq.
      assert (2 ^ n = 2 * 2 ^ (n - 1)).
      { replace n with (Z.succ (n - 1)) at 1 by lia.
        rewrite Z.pow_succ_r; lia. }
      nia. }
  assert (HMge : Zpos P / 2 ^ n <= M) by (rewrite <- Hq; lia).
  assert (HMrange : 2 ^ 23 <= M <= 2 ^ 24) by lia.
  destruct (Z.eq_dec M (2 ^ 24)) as [HM24|HM24].
  - rewrite HM24.
    exists (2 ^ 23)%positive, (e + n + 1), M.
    split.
    + rewrite (shr_fexp_carry (e + n) He). cbn [shr_m].
      change (2 ^ 23) with (Zpos (2 ^ 23)).
      destruct (Z.leb_spec (e + n + 1) (128 - 24)); [reflexivity|lia].
    + split; [exact HMge|]. split; [exact HMle|]. right. split; [|reflexivity].
      rewrite HM24. reflexivity.
  - destruct M as [|pm|pm] eqn:HMeq; try lia.
    assert (Hdm' : Zpos (digits2_pos pm) = 24)
      by (apply digits2_pos_unique; lia).
    rewrite (shr_fexp_fixed pm (e + n) Hdm' He). cbn [shr_m].
    exists pm, (e + n), (Zpos pm).
    split.
    + destruct (Z.leb_spec (e + n) (128 - 24)); [reflexivity|lia].
    + split; [exact HMge|]. split; [exact HMle|]. left. by split.
Qed.

Lemma iter_xO_mul (k p : positive) :
  Zpos (Pos.iter xO p k) = Zpos p * 2 ^ Zpos k.
Proof.
  induction k as [|k IH] using Pos.peano_ind.
  - simpl. lia.
  - rewrite Pos.iter_succ, Pos2Z.inj_xO, IH, Pos2Z.inj_succ, Z.pow_succ_r; lia.
Qed.

Lemma of_Z_normal (N : Z) :
  0 < N < 2 ^ 24 ->
  exists (mx : positive) (t : Z),
    0 <= t <= 23 /\
    F32.of_Z N = S754_finite false mx (- t) /\
    Zpos mx = N * 2 ^ t /\
    Zpos (digits2_pos mx) = 24.
Proof.
  intros [Hpos Hlt]. destruct N as [|pN|pN]; try lia.
  pose proof (digits2_pos_bounds pN) as [Hlo Hhi].
  set (d := Zpos (digits2_pos pN)) in *.
  assert (Hd1 : 1 <= d) by (subst d; lia).
  assert (Hd24 : d <= 24).
  { destruct (Z.leb_spec d 24); [done|exfalso].
    assert (2 ^ 24 <= 2 ^ (d - 1)) by (apply Z.pow_le_mono_r; lia). lia. }
  unfold F32.of_Z, binary_normalize, binary_round. fold d.
  replace (fexp F32.prec F32.emax (d + 0)) with (d - 24)
    by (unfold fexp, emin, F32.prec, F32.emax; lia).
  unfold shl_align.
  assert (Hround : forall mz ez, Zpos (digits2_pos mz) = 24 -> -149 <= ez <= 104 ->
            binary_round_aux F32.prec F32.emax false (Zpos mz) ez loc_Exact
            = S754_finite false mz ez).
  { intros mz ez Hmz Hez. unfold binary_round_aux, F32.prec, F32.emax.
    rewrite (shr_fexp_fixed mz ez Hmz) by lia. cbn [shr_m loc_of_shr_record round_nearest_even].
    rewrite (shr_fexp_fixed mz ez Hmz) by lia. cbn [shr_m].
    destruct (Z.leb_spec ez (128 - 24)); [reflexivity|lia]. }
  destruct (d - 24 - 0) as [|dd|dd] eqn:Hdd; try lia.
  - exists pN, 0. split; [lia|]. split; [|split].
    + rewrite Hround; [reflexivity| subst d; lia | lia].
    + simpl. lia.
    + subst d. lia.
  - assert (Hmz : Zpos (Pos.iter xO pN dd) = Zpos pN * 2 ^ (24 - d)).
    { rewrite iter_xO_mul. f_equal. f_equal. lia. }
    assert (Hdig : Zpos (digits2_pos (Pos.iter xO pN dd)) = 24).
    { apply digits2_pos_unique. rewrite Hmz.
      assert (Hp : 0 < 2 ^ (24 - d)) by (apply Z.pow_pos_nonneg; lia).
      replace (2 ^ (24 - 1)) with (2 ^ (d - 1) * 2 ^ (24 - d))
        by (rewrite <- Z.pow_add_r by lia; f_equal; lia).
      replace (2 ^ 24) with (2 ^ d * 2 ^ (24 - d))
        by (rewrite <- Z.pow_add_r by lia; f_equal; lia).
      nia. }
    exists (Pos.iter xO pN dd), (24 - d).
    split; [lia|]. split; [|split; [exact Hmz|exact Hdig]].
    rewrite Hround; [f_equal; lia|exact Hdig|lia].
Qed.

Lemma trunc_finite_neg (Mf : positive) (Ef : Z) :
  Ef < 0 ->
  F32.trunc (S754_finite false Mf Ef) = Some (Zpos Mf / 2 ^ (- Ef)).
Proof.
  intros He. destruct Ef as [|p|p]; try lia. unfold F32.trunc.
  rewrite Z.shiftr_div_pow2 by lia. reflexivity.
Qed.

Lemma evictionThreshold_value :
  evictionThreshold = S754_finite false 13421773 (-27).
Proof. reflexivity. Qed.

Lemma maxNumEntriesToTry_exact (N : Z) :
  0 < N < 2 ^ 24 -> maxNumEntriesToTry N = Some (N / 10).
Proof.
  intros HN.
  destruct (of_Z_normal N HN) as (mx & t & Ht & Hof & Hmx & Hdig).
  unfold maxNumEntriesToTry. rewrite Hof, evictionThreshold_value.
  unfold F32.mul, SFmul, F32.prec, F32.emax. cbn [xorb].
  pose proof (digits2_pos_bounds mx) as [Hmlo Hmhi]. rewrite Hdig in Hmlo, Hmhi.
  change (2 ^ (24 - 1)) with 8388608 in Hmlo. change (2 ^ 24) with 16777216 in Hmhi.
  set (P := (13421773 * mx)%positive).
  assert (HP : Zpos P = 13421773 * Zpos mx) by (subst P; lia).
  assert (HT : 0 < 2 ^ t) by (apply Z.pow_pos_nonneg; lia).
  set (T := 2 ^ t) in *.
  set (m := N / 10).
  assert (Hm : 10 * m <= N <= 10 * m + 9).
  { subst m. pose proof (Z.div_mod N 10 ltac:(lia)).
    pose proof (Z.mod_pos_bound N 10 ltac:(lia)). lia. }
  assert (Hm0 : 0 <= m) by (subst m; apply Z.div_pos; lia).
  set (A := N * T) in *. set (B := m * T).
  assert (HAB : 10 * B <= A <= 10 * B + 9 * T) by (subst A B; nia).
  assert (HB0 : 0 <= B) by (subst B; nia).
  assert (Hfinish : forall n (Mf : positive) (Ef M : Z),
            (n = 23 \/ n = 24) ->
            Zpos P / 2 ^ n <= M ->
            M * 2 ^ n <= Zpos P + 2 ^ (n - 1) ->
            (Zpos Mf = M /\ Ef = -27 + - t + n \/
             2 * Zpos Mf = M /\ Ef = -27 + - t + n + 1) ->
            F32.to_size_t (S754_finite false Mf Ef) = Some m).
  { intros n Mf Ef M Hn Hge Hle Hcase.
    assert (Hu : 2 ^ (27 + t - n) * 2 ^ n = 134217728 * T).
    { rewrite <- Z.pow_add_r by lia. replace (27 + t - n + n) with (27 + t) by lia.
      rewrite Z.pow_add_r by lia. reflexivity. }
    assert (HU : 0 < 2 ^ (27 + t - n)) by (apply Z.pow_pos_nonneg; lia).
    set (U := 2 ^ (27 + t - n)) in *.
    assert (Hn1 : 2 * 2 ^ (n - 1) = 2 ^ n).
    { replace n with (Z.succ (n - 1)) at 2 by lia. rewrite Z.pow_succ_r; lia. }
    assert (Hpn : 0 < 2 ^ n) by (apply Z.pow_pos_nonneg; lia).
    assert (Hge' : Zpos P < (M + 1) * 2 ^ n).
    { pose proof (Z.div_mod (Zpos P) (2 ^ n) ltac:(lia)).
      pose proof (Z.mod_pos_bound (Zpos P) (2 ^ n) Hpn).
      assert (Zpos P / 2 ^ n * 2 ^ n <= M * 2 ^ n)
        by (apply Z.mul_le_mono_nonneg_r; lia).
      lia. }
    assert (HUT : U = 16 * T \/ U = 8 * T).
    { destruct Hn as [->| ->]; [left|right].
      - change (2 ^ 23) with 8388608 in Hu. lia.
      - change (2 ^ 24) with 16777216 in Hu. lia. }
    assert (Hval : M / U = m).
    { symmetry. apply (Z.div_unique _ _ _ (M - U * m)); [|lia].
      left. 
      assert (HUm : U * m = 16 * B \/ U * m = 8 * B)
        by (subst B; destruct HUT as [->| ->]; [left|right]; lia).
      destruct Hn as [->| ->].
      + change (2 ^ 23) with 8388608 in *. change (2 ^ (23 - 1)) with 4194304 in *.
        assert (U = 16 * T) by lia. assert (U * m = 16 * B) by (subst B; nia).
        lia.
      + change (2 ^ 24) with 16777216 in *. change (2 ^ (24 - 1)) with 8388608 in *.
        assert (U = 8 * T) by lia. assert (U * m = 8 * B) by (subst B; nia).
        lia. }
    assert (Htr : F32.trunc (S754_finite false Mf Ef) = Some m).
    { rewrite trunc_finite_neg by lia. f_equal.
      destruct Hcase as [[HMf ->]|[HMf ->]].
      - rewrite HMf. replace (- (-27 + - t + n)) with (27 + t - n) by lia.
        exact Hval.
      - rewrite <- Hval, <- HMf.
        replace (- (-27 + - t + n + 1)) with (27 + t - n - 1) by lia.
        subst U. replace (27 + t - n) with (Z.succ (27 + t - n - 1)) at 2 by lia.
        rewrite Z.pow_succ_r by lia.
        rewrite Z.div_mul_cancel_l; lia. }
    unfold F32.to_size_t. rewrite Htr.
    destruct (Z.leb_spec 0 m); [|lia].
    destruct (Z.ltb_spec m (2 ^ 64)); [reflexivity|].
    assert (m < 2 ^ 24) by lia.
    assert (2 ^ 24 < 2 ^ 64) by (apply Z.pow_lt_mono_r; lia). lia. }
  assert (Hdigits : Zpos (digits2_pos P) = 47 \/ Zpos (digits2_pos P) = 48).
  { destruct (Z.ltb_spec (Zpos P) (2 ^ 47)).
    - left. apply digits2_pos_unique. split; [|done].
      change (2 ^ (47 - 1)) with 70368744177664. lia.
    - right. apply digits2_pos_unique. split; [done|].
      change (2 ^ 48) with 281474976710656. lia. }
  destruct Hdigits as [Hd|Hd].
  - destruct (round_aux_shift P (-27 + - t) 23) as (Mf & Ef & M & -> & Hge & Hle & Hcase);
      [lia|rewrite Hd; lia|lia|lia|].
    apply (Hfinish 23 Mf Ef M); auto.
  - destruct (round_aux_shift P (-27 + - t) 24) as (Mf & Ef & M & -> & Hge & Hle & Hcase);
      [lia|rewrite Hd; lia|lia|lia|].
    apply (Hfinish 24 Mf Ef M); auto.
Qed.

Lemma maxNumEntriesToTry_floor (n : Z) :
  0 <= n < sizeBound -> maxNumEntriesToTry n = Some (n / 10).
Proof.
  unfold sizeBound. intros Hn.
  destruct (Z.ltb_spec n (2 ^ 24)) as [Hlt|Hge].
  - destruct (Z.eq_dec n 0) as [->|]; [reflexivity|].
    apply maxNumEntriesToTry_exact. lia.
  - change (2 ^ 24) with 16777216 in Hge.
    assert (n = 16777216 \/ n = 16777217 \/ n = 16777218) as [->|[->| ->]]
      by lia; vm_compute; reflexivity.
Qed.

Lemma maxNumEntriesToTry_small (n : Z) :
  0 <= n < 10 -> maxNumEntriesToTry n = Some 0.
Proof.
  intros Hn. rewrite maxNumEntriesToTry_floor.
  - f_equal. apply Z.div_small. lia.
  - unfold sizeBound. lia.
Qed.

Lemma size_nonneg (s : LRUCache.t) : 0 <= LRUCache.size s.
Proof. unfold LRUCache.size. lia. Qed.

(* ================================================================== *)
(** ** The overflow branch *)
(* ================================================================== *)

Lemma to_size_t_nonneg (f : F32.float) (z : Z) :
  F32.to_size_t f = Some z -> 0 <= z.
Proof.
  unfold F32.to_size_t. destruct (F32.trunc f) as [t|]; [|discriminate].
  destruct (Z.leb_spec 0 t); simpl; [|discriminate].
  destruct (t <? 2 ^ 64); [|discriminate]. intros [= <-]. assumption.
Qed.

Lemma set_cachedSvgs_id (c : SvgCache) : set_cachedSvgs c (cachedSvgs c) = c.
Proof. destruct c; reflexivity. Qed.

Lemma placeOnOverflow_outcome (w h : F32.float) (c : SvgCache) (pl : Placement)
    (r : SvgCache * Placement * list Action) :
  placeOnOverflow w h c pl = Some r -> overflow_outcome w h c pl r.
Proof.
  unfold placeOnOverflow.
  destruct (maxNumEntriesToTry (LRUCache.size (cachedSvgs c)))
    as [maxN|] eqn:Hmax; [simpl|discriminate].
  pose proof (to_size_t_nonneg _ _ Hmax) as Hpos.
  pose proof (evictionScan_outcome w h maxN pl (cachedSvgs c)
                (LRUCache.entries (cachedSvgs c)) 0) as Hscan.
  destruct (evictionScan w h maxN (LRUCache.entries (cachedSvgs c)) 0 pl
              (cachedSvgs c)) as [[[[o cnt] p] s'] tr].
  inversion Hscan as [c' Hall Hc Hb|probed e rest c' Hch Hall Hc Hb1 Hb2
                     |probed e rest s'' c' Hch Hall Hc Hb Hf Hev
                     |probed e rest c' Hch Hall Hc Hb Hf Hev]; subst; simpl.
  - rewrite set_cachedSvgs_id.
    destruct (growCache c) as [[c2 tr2]|] eqn:Hg; [|discriminate].
    cbn [mbind option_bind]. intros [= <-].
    apply (overflow_rotate _ _ _ _ maxN (LRUCache.entries (cachedSvgs c)) []);
      auto.
    + by rewrite app_nil_r.
    + destruct Hb as [->|Hb]; simpl in *; lia.
  - rewrite set_cachedSvgs_id.
    destruct (Z.leb_spec maxN (0 + Z.of_nat (length probed))); [|lia].
    destruct (growCache c) as [[c2 tr2]|] eqn:Hg; [|discriminate].
    cbn [mbind option_bind]. intros [= <-].
    apply (overflow_rotate _ _ _ _ maxN probed (e :: rest)); auto.
    destruct Hb2 as [->|Hb2]; simpl in *; lia.
  - destruct (Z.leb_spec maxN (0 + Z.of_nat (length probed))); [lia|].
    destruct (scissorBox (framebuffer c) (reuseSlot e pl))
      as [[[[sx sy] sw] sh]|] eqn:Hbox; simpl; [|discriminate].
    intros [= <-]. rewrite <- app_assoc.
    apply (overflow_reuse _ _ _ _ maxN probed e rest s'); auto.
  - rewrite set_cachedSvgs_id.
    destruct (growCache c) as [[c2 tr2]|] eqn:Hg; [|discriminate].
    cbn [mbind option_bind]. intros [= <-].
    rewrite <- app_assoc.
    apply (overflow_evict_failed _ _ _ _ maxN probed e rest); auto; try lia.
    unfold LRUCache.evict in Hev.
    destruct (LRUCache.exists_ (cachedSvgs c) (LRUCache.key e));
      [discriminate|reflexivity].
Qed.

(* ================================================================== *)
(** ** Page rotation *)
(* ================================================================== *)

Lemma growCacheLoop_spec (page : Z) (chain : list LRUCacheEntry) :
  forall s,
    let r := growCacheLoop page chain s in
    LRUCache.index r.1 = LRUCache.index s ∖ boundTo page chain /\
    (forall e, e ∈ LRUCache.entries s -> LRUCache.key e ∉ boundTo page chain ->
               e ∈ LRUCache.entries r.1) /\
    (forall e, e ∈ LRUCache.entries r.1 -> e ∈ LRUCache.entries s) /\
    Forall (fun a => is_grow_action a = true) r.2.
Proof.
  unfold boundTo.
  induction chain as [|e next IH]; intros s; simpl.
  - repeat split; auto. set_solver.
  - destruct (Z.eqb_spec (colorAttachment (LRUCache.data e)) page) as [Hp|Hp].
    + rewrite filter_cons_True by exact Hp.
      pose proof (evict_index s (LRUCache.key e)) as Hidx.
      pose proof (evict_keeps s (LRUCache.key e)) as Hkeep.
      pose proof (evict_sub s (LRUCache.key e)) as Hsub.
      destruct (LRUCache.evict s (LRUCache.key e)) as [ok s1]. simpl in *.
      specialize (IH s1).
      destruct (growCacheLoop page next s1) as [s2 tr]. simpl in *.
      destruct IH as (Hi & Hk & Hs & Htr).
      split; [rewrite Hi, Hidx; set_solver|].
      split; [|split].
      * intros e0 Hin Hn. apply Hk; [apply Hkeep; [done|]|]; set_solver.
      * intros e0 Hin. apply Hsub, Hs, Hin.
      * constructor; [reflexivity|]. apply Forall_app. split; [|exact Htr].
        destruct ok; repeat constructor.
    + rewrite filter_cons_False by exact Hp. apply IH.
Qed.

Lemma growCache_Some (c c' : SvgCache) (tr : list Action) :
  growCache c = Some (c', tr) ->
  colorAttachments_size (framebuffer c) <> 0 /\
  (c', tr) = growCacheTo (nextColorAttachment c) c.
Proof.
  unfold growCache.
  destruct (Z.eqb_spec (colorAttachments_size (framebuffer c)) 0);
    [discriminate|].
  by intros [= <-].
Qed.

Lemma growCache_defined (c : SvgCache) :
  colorAttachments_size (framebuffer c) <> 0 ->
  growCache c = Some (growCacheTo (nextColorAttachment c) c).
Proof.
  intros Hn. unfold growCache.
  by destruct (Z.eqb_spec (colorAttachments_size (framebuffer c)) 0).
Qed.

Lemma growCache_store (c c' : SvgCache) (tr : list Action) :
  growCache c = Some (c', tr) ->
  cachedSvgs c' =
    (growCacheLoop (cacheCurrentColorAttachment c')
       (LRUCache.entries (cachedSvgs c)) (cachedSvgs c)).1.
Proof.
  intros Hg. apply growCache_Some in Hg as [_ Hg]. unfold growCacheTo in Hg.
  destruct (growCacheLoop (nextColorAttachment c)
              (LRUCache.entries (cachedSvgs c)) (cachedSvgs c)) as [s' tr']
    eqn:Hloop.
  injection Hg as -> _. simpl. by rewrite Hloop.
Qed.

Lemma growCache_trace (c c' : SvgCache) (tr : list Action) :
  growCache c = Some (c', tr) ->
  Forall (fun a => is_grow_action a = true) tr.
Proof.
  intros Hg. apply growCache_Some in Hg as [_ Hg]. unfold growCacheTo in Hg.
  match type of Hg with context [growCacheLoop ?p ?l ?s] =>
    pose proof (growCacheLoop_spec p l s) as (_ & _ & _ & Htr);
    destruct (growCacheLoop p l s) as [s' tr'] end.
  injection Hg as _ ->. simpl in *.
  apply Forall_app. split; [exact Htr|]. repeat constructor.
Qed.

Lemma growCache_fields (c c' : SvgCache) (tr : list Action) :
  growCache c = Some (c', tr) ->
  framebuffer c' = framebuffer c /\
  cacheCurrentPos c' = {| x := F32.zero; y := F32.zero |} /\
  cacheLineHeight c' = cacheLineHeight c /\
  cacheCurrentColorAttachment c' =
    ((cacheCurrentColorAttachment c + 1) mod 2 ^ 64)
      mod colorAttachments_size (framebuffer c).
Proof.
  intros Hg. apply growCache_Some in Hg as [_ Hg]. unfold growCacheTo in Hg.
  match type of Hg with context [growCacheLoop ?p ?l ?s] =>
    destruct (growCacheLoop p l s) as [s' tr'] end.
  injection Hg as -> _. simpl. auto.
Qed.

(** C7. After [growCache] has rotated to page [P], the next colour
    attachment modulo the number of attachments, [exists] is false for the
    key of every entry that was bound to page [P], and the entries bound to
    the other pages are still in the store. *)
Theorem growCache_invalidates_page (c : SvgCache) :
  LRUCache.wf (cachedSvgs c) ->
  0 < colorAttachments_size (framebuffer c) ->
  0 <= cacheCurrentColorAttachment c < 2 ^ 31 ->
  exists c' tr,
    growCache c = Some (c', tr) /\
    let P := cacheCurrentColorAttachment c' in
    P = (cacheCurrentColorAttachment c + 1)
          mod colorAttachments_size (framebuffer c) /\
    (forall e, e ∈ LRUCache.entries (cachedSvgs c) ->
       colorAttachment (LRUCache.data e) = P ->
       existsInternal c' (LRUCache.key e) = false) /\
    (forall e, e ∈ LRUCache.entries (cachedSvgs c) ->
       colorAttachment (LRUCache.data e) <> P ->
       existsInternal c' (LRUCache.key e) = true /\
       e ∈ LRUCache.entries (cachedSvgs c')).
Proof.
  intros Hwf Hn Hcur.
  assert (Hg : growCache c = Some (growCacheTo (nextColorAttachment c) c))
    by (apply growCache_defined; lia).
  destruct (growCacheTo (nextColorAttachment c) c) as [c' tr].
  exists c', tr. split; [exact Hg|]. intros P.
  assert (HP : P = (cacheCurrentColorAttachment c + 1)
                     mod colorAttachments_size (framebuffer c)).
  { subst P. destruct (growCache_fields _ _ _ Hg) as (_ & _ & _ & ->).
    rewrite (Z.mod_small (_ + 1)) by lia. reflexivity. }
  pose proof (growCache_store _ _ _ Hg) as Hloop. fold P in Hloop.
  destruct (growCacheLoop_spec P (LRUCache.entries (cachedSvgs c))
              (cachedSvgs c)) as (Hi & Hk & _ & _).
  rewrite <- Hloop in Hi, Hk.
  assert (Hbound : forall e, e ∈ LRUCache.entries (cachedSvgs c) ->
            (LRUCache.key e ∈ boundTo P (LRUCache.entries (cachedSvgs c)) <->
             colorAttachment (LRUCache.data e) = P)).
  { intros e He. unfold boundTo. rewrite elem_of_list_to_set, list_elem_of_fmap.
    split.
    - intros (e' & Hkey & Hin). apply list_elem_of_filter in Hin as [Hp Hin].
      destruct Hwf as [Hnd _].
      assert (e' = e) as ->; [|exact Hp].
      pose proof (node_unique _ _ _ Hnd He eq_refl) as H1.
      pose proof (node_unique _ _ _ Hnd Hin (eq_sym Hkey)) as H2.
      congruence.
    - intros Hp. exists e. split; [done|]. by apply list_elem_of_filter. }
  split; [exact HP|]. split.
  - intros e He Hp. unfold existsInternal. apply exists_false. rewrite Hi.
    apply (Hbound e He) in Hp. set_solver.
  - intros e He Hp. split.
    + unfold existsInternal. apply exists_true. rewrite Hi.
      apply elem_of_difference. split.
      * apply (wf_index _ _ Hwf). by apply list_elem_of_fmap_2.
      * intros Hb. apply Hp. by apply (Hbound e He).
    + apply Hk; [exact He|]. intros Hb. apply Hp. by apply (Hbound e He).
Qed.

Lemma growCache_invalidates_page_witness :
  exists c' tr,
    growCache threeOnTwoPages = Some (c', tr) /\
    cacheCurrentColorAttachment c' = 1 /\
    existsInternal c' 12 = false /\
    existsInternal c' 11 = true /\
    existsInternal c' 13 = true.
Proof.
  assert (Hwf : LRUCache.wf (cachedSvgs threeOnTwoPages))
    by wf_by_decision.
  assert (Hn : 0 < colorAttachments_size (framebuffer threeOnTwoPages))
    by (vm_compute; reflexivity).
  assert (Hcur : 0 <= cacheCurrentColorAttachment threeOnTwoPages < 2 ^ 31)
    by (change (0 <= 0 < 2 ^ 31); lia).
  destruct (growCache_invalidates_page threeOnTwoPages Hwf Hn Hcur)
    as (c' & tr & Hg & HP & Hgone & Hkept).
  exists c', tr. split; [exact Hg|].
  split; [exact HP|]. split.
  - apply (Hgone (mkNode 12 1 0 0 100 100)); [|exact (eq_sym HP)].
    right; left.
  - split.
    + apply (Hkept (mkNode 11 0 0 0 100 100)); [left|].
      rewrite HP. vm_compute. discriminate.
    + apply (Hkept (mkNode 13 0 110 0 100 100)); [right; right; left|].
      rewrite HP. vm_compute. discriminate.
Defined.

(* ================================================================== *)
(** ** Reading the traces of [place] and [put] *)
(* ================================================================== *)

Lemma probes_app (t1 t2 : list Action) :
  probes (t1 ++ t2) = probes t1 ++ probes t2.
Proof.
  induction t1 as [|a t1 IH]; simpl; [reflexivity|].
  destruct a; simpl; rewrite ?IH; reflexivity.
Qed.

Lemma probes_probe (l : list LRUCacheEntry) :
  probes (probe <$> l) = LRUCache.key <$> l.
Proof.
  induction l as [|e l IH]; [reflexivity|].
  rewrite !fmap_cons. simpl. f_equal. exact IH.
Qed.

Lemma probes_grow (tr : list Action) :
  Forall (fun a => is_grow_action a = true) tr -> probes tr = [].
Proof.
  induction 1 as [|a tr Ha _ IH]; simpl; [reflexivity|].
  destruct a; simpl in *; try discriminate; exact IH.
Qed.

Lemma renderModes_app (t1 t2 : list Action) :
  renderModes (t1 ++ t2) = renderModes t1 ++ renderModes t2.
Proof.
  induction t1 as [|a t1 IH]; simpl; [reflexivity|].
  destruct a; simpl; rewrite ?IH; reflexivity.
Qed.

Lemma renderModes_place (tr : list Action) :
  Forall (fun a => is_place_action a = true) tr -> renderModes tr = [].
Proof.
  induction 1 as [|a tr Ha _ IH]; simpl; [reflexivity|].
  destruct a; simpl in *; try discriminate; exact IH.
Qed.

Lemma grow_is_place (tr : list Action) :
  Forall (fun a => is_grow_action a = true) tr ->
  Forall (fun a => is_place_action a = true) tr.
Proof.
  intros Hg. eapply Forall_impl; [exact Hg|].
  intros a Ha. destruct a; simpl in *; auto; discriminate.
Qed.

Lemma probe_is_place (l : list LRUCacheEntry) :
  Forall (fun a => is_place_action a = true) (probe <$> l).
Proof. induction l; simpl; constructor; auto. Qed.

Lemma overflow_outcome_actions (w h : F32.float) (c : SvgCache)
    (pl : Placement) (r : SvgCache * Placement * list Action) :
  overflow_outcome w h c pl r ->
  Forall (fun a => is_place_action a = true) r.2.
Proof.
  intros Ho. destruct Ho; simpl; rewrite ?Forall_app, ?Forall_cons;
    repeat split; try apply probe_is_place;
    try (eapply grow_is_place, growCache_trace; eassumption); constructor.
Qed.

Lemma shelfStep_fields (r : Z) (c : SvgCache) (pl : Placement) :
  cachedSvgs (shelfStep r c pl).1 = cachedSvgs c /\
  framebuffer (shelfStep r c pl).1 = framebuffer c /\
  cacheCurrentColorAttachment (shelfStep r c pl).1 =
    cacheCurrentColorAttachment c /\
  allotted (shelfStep r c pl).2 = allotted pl /\
  incrementX (shelfStep r c pl).2 = incrementX pl.
Proof.
  unfold shelfStep. destruct (width (framebuffer c) <=? r); simpl; auto.
Qed.

Lemma place_inv (W H : F32.float) (c c2 : SvgCache) (pl : Placement)
    (ptr : list Action) :
  place W H c = Some (c2, pl, ptr) ->
  exists r,
    newRightX W c = Some r /\
    let c1 := (shelfStep r c (initialPlacement W H c)).1 in
    let pl1 := (shelfStep r c (initialPlacement W H c)).2 in
    (F32.geb (newBottomY H pl1) (F32.of_Z (height (framebuffer c1))) = false /\
     c2 = c1 /\ pl = pl1 /\ ptr = []) \/
    (F32.geb (newBottomY H pl1) (F32.of_Z (height (framebuffer c1))) = true /\
     overflow_outcome W H c1 pl1 (c2, pl, ptr)).
Proof.
  unfold place. destruct (newRightX W c) as [r|]; [simpl|discriminate].
  intros Hp. exists r. split; [reflexivity|].
  destruct (shelfStep r c (initialPlacement W H c)) as [c1 pl1]. simpl.
  destruct (F32.geb (newBottomY H pl1) (F32.of_Z (height (framebuffer c1)))).
  - right. split; [reflexivity|]. by apply placeOnOverflow_outcome.
  - left. injection Hp as <- <- <-. auto.
Qed.

Lemma place_actions (W H : F32.float) (c c2 : SvgCache) (pl : Placement)
    (ptr : list Action) :
  place W H c = Some (c2, pl, ptr) ->
  Forall (fun a => is_place_action a = true) ptr.
Proof.
  intros Hp. apply place_inv in Hp as (r & _ & [(_ & _ & _ & ->)|[_ Ho]]).
  - constructor.
  - apply (overflow_outcome_actions _ _ _ _ _ Ho).
Qed.

Section PutFacts.

Context `{Hasher}.

Lemma put_inv (parent : AnimObject) (svg : SvgObject) (w w' : World)
    (tr : list Action) :
  put parent svg w = Some (w', tr) ->
  exists k,
    hash (md5Bytes svg) (svgScale parent)
      (percentReplacementTransformed parent) = Some k /\
    ((w' = w /\ tr = [] /\
      (existsInternal (svgCache w) k = true \/
       degenerate (svgTotalSize parent svg) = true)) \/
     (existsInternal (svgCache w) k = false /\
      degenerate (svgTotalSize parent svg) = false /\
      exists c2 pl ptr,
        let W := x (svgTotalSize parent svg) in
        let H := y (svgTotalSize parent svg) in
        let res := cacheEntryFor (framebuffer c2) W H pl in
        place W H (svgCache w) = Some (c2, pl, ptr) /\
        tr = ptr ++ [ActInsert k res;
                     ActRender (dispatchMode w) (svgScale parent)
                       (colorAttachmentToRenderTo pl) (svgTextureOffset pl)] /\
        svgCache w' =
          set_cachedSvgs (advanceCursor W H pl c2)
            (LRUCache.insert (cachedSvgs (advanceCursor W H pl c2)) k res) /\
        ExportPanel_isExportingVideo w' = ExportPanel_isExportingVideo w)).
Proof.
  unfold put.
  destruct (hash (md5Bytes svg) (svgScale parent)
              (percentReplacementTransformed parent))
    as [k|] eqn:Hk; [cbn [mbind option_bind]|discriminate].
  intros Hp. exists k. split; [reflexivity|].
  destruct (existsInternal (svgCache w) k).
  { left. injection Hp as <- <-. auto. }
  destruct (degenerate (svgTotalSize parent svg)).
  { left. injection Hp as <- <-. auto. }
  right. split; [reflexivity|]. split; [reflexivity|].
  match type of Hp with context [place ?a ?b ?c] =>
    destruct (place a b c) as [[[c2 pl] ptr]|] eqn:Hpl end;
    [simpl in Hp|simpl in Hp; discriminate Hp].
  injection Hp as <- <-. exists c2, pl, ptr. simpl. auto.
Qed.

Lemma put_places (parent : AnimObject) (svg : SvgObject) (w : World)
    (k : Z) (c2 : SvgCache) (pl : Placement) (ptr : list Action) :
  let Wd := x (svgTotalSize parent svg) in
  let Ht := y (svgTotalSize parent svg) in
  let res := cacheEntryFor (framebuffer c2) Wd Ht pl in
  hash (md5Bytes svg) (svgScale parent)
    (percentReplacementTransformed parent) = Some k ->
  existsInternal (svgCache w) k = false ->
  degenerate (svgTotalSize parent svg) = false ->
  place Wd Ht (svgCache w) = Some (c2, pl, ptr) ->
  put parent svg w =
    Some ({| svgCache :=
               set_cachedSvgs (advanceCursor Wd Ht pl c2)
                 (LRUCache.insert (cachedSvgs (advanceCursor Wd Ht pl c2))
                    k res);
             ExportPanel_isExportingVideo :=
               ExportPanel_isExportingVideo w |},
          ptr ++ [ActInsert k res;
                  ActRender (dispatchMode w) (svgScale parent)
                    (colorAttachment res) (textureOffset res)]).
Proof.
  intros Wd Ht res Hk Hmiss Hdeg Hplace.
  unfold put. rewrite Hk.
  cbn [mbind option_bind]. rewrite Hmiss, Hdeg.
  fold Wd Ht. rewrite Hplace. reflexivity.
Qed.

End PutFacts.

(* ================================================================== *)
(** ** Dispatch of the rasterization *)
(* ================================================================== *)

(** C3 (as amended). [put] has no dispatch parameter: every rasterization it
    starts is synchronous exactly when the global export flag
    ([ExportPanel::isExportingVideo()]) is set at the time of the call,
    asynchronous otherwise. *)
Theorem dispatch_follows_export_flag `{Hasher} (parent : AnimObject)
    (svg : SvgObject) (w w' : World) (tr : list Action) :
  put parent svg w = Some (w', tr) ->
  tr = [] \/
  renderModes tr = [if ExportPanel_isExportingVideo w then Sync else Async].
Proof.
  intros Hp. apply put_inv in Hp as (k & _ & [(_ & -> & _)|Hp]);
    [by left|right].
  destruct Hp as (_ & _ & c2 & pl & ptr & Hpl & -> & _).
  rewrite renderModes_app.
  rewrite (renderModes_place _ (place_actions _ _ _ _ _ _ Hpl)).
  reflexivity.
Qed.

Lemma dispatch_follows_export_flag_witness :
  exists w' tr,
    put objSquare svgAnonymous exportingWorld = Some (w', tr) /\
    (tr = [] \/ renderModes tr = [Sync]).
Proof.
  assert (Hput : exists w' tr,
             put objSquare svgAnonymous exportingWorld = Some (w', tr))
    by (vm_compute; do 2 eexists; reflexivity).
  destruct Hput as (w' & tr & Hput). exists w', tr. split; [exact Hput|].
  exact (dispatch_follows_export_flag objSquare svgAnonymous exportingWorld
           w' tr Hput).
Defined.

(** C3 as stated fails: the same call, with the same arguments on the same
    cache, rasterizes synchronously or asynchronously depending on the
    global flag alone. *)
Lemma dispatch_mode_not_a_parameter :
  ~ (forall (H : Hasher) (parent : AnimObject) (svg : SvgObject)
            (c : SvgCache) (flag1 flag2 : bool) (w1 w2 : World)
            (tr1 tr2 : list Action),
       @put H parent svg (mkWorld c flag1) = Some (w1, tr1) ->
       @put H parent svg (mkWorld c flag2) = Some (w2, tr2) ->
       renderModes tr1 = renderModes tr2).
Proof.
  intros Hc.
  assert (H1 : exists w1 tr1,
             put objSquare svgSquare (mkWorld emptyCache true) = Some (w1, tr1)
             /\ renderModes tr1 = [Sync])
    by (vm_compute; do 2 eexists; split; reflexivity).
  assert (H2 : exists w2 tr2,
             put objSquare svgSquare (mkWorld emptyCache false) = Some (w2, tr2)
             /\ renderModes tr2 = [Async])
    by (vm_compute; do 2 eexists; split; reflexivity).
  destruct H1 as (w1 & tr1 & Hp1 & Hm1), H2 as (w2 & tr2 & Hp2 & Hm2).
  specialize (Hc refHasher objSquare svgSquare emptyCache true false
                w1 w2 tr1 tr2 Hp1 Hp2).
  rewrite Hm1, Hm2 in Hc. discriminate Hc.
Qed.


(* ================================================================== *)
(** ** Insertion comes before rasterization *)
(* ================================================================== *)

Lemma growCache_entries_sub (c c' : SvgCache) (tr : list Action)
    (e : LRUCacheEntry) :
  growCache c = Some (c', tr) ->
  e ∈ LRUCache.entries (cachedSvgs c') ->
  e ∈ LRUCache.entries (cachedSvgs c).
Proof.
  intros Hg. rewrite (growCache_store _ _ _ Hg).
  apply (growCacheLoop_spec (cacheCurrentColorAttachment c')
           (LRUCache.entries (cachedSvgs c)) (cachedSvgs c)).
Qed.

Lemma overflow_entries_sub (W H : F32.float) (c : SvgCache) (pl : Placement)
    (r : SvgCache * Placement * list Action) (e : LRUCacheEntry) :
  overflow_outcome W H c pl r ->
  e ∈ LRUCache.entries (cachedSvgs r.1.1) ->
  e ∈ LRUCache.entries (cachedSvgs c).
Proof.
  intros Ho. destruct Ho as [| |maxN probed e0 rest s' sx sy sw sh _ _ _ _ _ Hev _];
    simpl; try (eapply growCache_entries_sub; eassumption).
  intros Hin. apply (evict_sub _ (LRUCache.key e0)). by rewrite Hev.
Qed.

Lemma place_entries_sub (W H : F32.float) (c c2 : SvgCache) (pl : Placement)
    (ptr : list Action) (e : LRUCacheEntry) :
  place W H c = Some (c2, pl, ptr) ->
  e ∈ LRUCache.entries (cachedSvgs c2) -> e ∈ LRUCache.entries (cachedSvgs c).
Proof.
  intros Hp. apply place_inv in Hp as (r & _ & Hcases).
  destruct (shelfStep_fields r c (initialPlacement W H c)) as (Hs & _).
  destruct Hcases as [(_ & -> & _ & _)|[_ Ho]].
  - by rewrite Hs.
  - intros Hin. apply (overflow_entries_sub _ _ _ _ _ e Ho) in Hin.
    by rewrite Hs in Hin.
Qed.

Lemma advanceCursor_store (W H : F32.float) (pl : Placement) (c : SvgCache) :
  cachedSvgs (advanceCursor W H pl c) = cachedSvgs c.
Proof. unfold advanceCursor. destruct (incrementX pl); reflexivity. Qed.

(** C2. On a cache miss that places the rectangle, the record is inserted
    into the store under the request's key and only then is the rasterizer
    invoked: the insertion is the action right before the one rasterization,
    nothing is rasterized earlier, and in the state the rasterizer starts
    from a lookup of the key is a hit that returns the inserted record. *)
Theorem insert_before_rasterize `{Hasher} (parent : AnimObject)
    (svg : SvgObject) (w w' : World) (tr : list Action) (k : Z) :
  hash (md5Bytes svg) (svgScale parent)
    (percentReplacementTransformed parent) = Some k ->
  LRUCache.wf (cachedSvgs (svgCache w)) ->
  existsInternal (svgCache w) k = false ->
  degenerate (svgTotalSize parent svg) = false ->
  put parent svg w = Some (w', tr) ->
  exists pre res,
    tr = pre ++ [ActInsert k res;
                 ActRender (if ExportPanel_isExportingVideo w
                            then Sync else Async)
                   (svgScale parent) (colorAttachment res) (textureOffset res)]
    /\ Forall (fun a => is_insert a = false /\ is_render a = false) pre
    /\ existsInternal (svgCache w') k = true
    /\ (getInternal (svgCache w') k).1 = Some res.
Proof.
  intros Hk Hwf Hmiss Hdeg Hp.
  apply put_inv in Hp as (k' & Hk' & Hcases).
  assert (k' = k) as -> by congruence.
  destruct Hcases as [(_ & _ & [Hex|Hd])|Hcases]; [congruence|congruence|].
  destruct Hcases as (_ & _ & c2 & pl & ptr & Hpl & -> & Hw' & _).
  exists ptr, (cacheEntryFor (framebuffer c2) (x (svgTotalSize parent svg))
                 (y (svgTotalSize parent svg)) pl).
  split; [reflexivity|]. split; [|split].
  - eapply Forall_impl; [exact (place_actions _ _ _ _ _ _ Hpl)|].
    intros a Ha. destruct a; simpl in *; auto; discriminate.
  - rewrite Hw'. unfold existsInternal. simpl. apply insert_exists.
  - rewrite Hw'. unfold getInternal, LRUCache.get. simpl.
    rewrite insert_exists. rewrite advanceCursor_store.
    assert (Hk2 : k ∉ LRUCache.key <$> LRUCache.entries (cachedSvgs c2)).
    { intros Hin. apply list_elem_of_fmap in Hin as (e & -> & Hin).
      apply (place_entries_sub _ _ _ _ _ _ e Hpl) in Hin.
      apply exists_false in Hmiss. apply Hmiss.
      apply (wf_index _ _ Hwf). by apply list_elem_of_fmap_2. }
    rewrite (unlink_absent _ _ Hk2).
    rewrite (node_moved_to_back _ k {| LRUCache.key := k |} eq_refl Hk2).
    reflexivity.
Qed.

Lemma insert_before_rasterize_witness :
  exists w' tr pre res,
    put objSquare svgSquare editingWorld = Some (w', tr) /\
    tr = pre ++ [ActInsert 12638163380316599253 res;
                 ActRender Async (svgScale objSquare) (colorAttachment res)
                   (textureOffset res)] /\
    existsInternal (svgCache w') 12638163380316599253 = true.
Proof.
  assert (Hput : exists w' tr,
             put objSquare svgSquare editingWorld = Some (w', tr))
    by (vm_compute; do 2 eexists; reflexivity).
  destruct Hput as (w' & tr & Hput).
  destruct (insert_before_rasterize objSquare svgSquare editingWorld w' tr
              12638163380316599253)
    as (pre & res & Htr & _ & Hex & _).
  - by_computation.
  - wf_by_decision.
  - by_computation.
  - by_computation.
  - exact Hput.
  - exists w', tr, pre, res. auto.
Defined.

(* ================================================================== *)
(** ** Cache hits *)
(* ================================================================== *)

Lemma node_unlink_other (l : list LRUCacheEntry) (j k : Z) :
  j <> k -> LRUCache.node j (LRUCache.unlink k l) = LRUCache.node j l.
Proof.
  unfold LRUCache.node. intros Hne.
  induction l as [|a l IH]; simpl; [reflexivity|].
  destruct (Z.eqb_spec (LRUCache.key a) k) as [Hk|Hk].
  - destruct (Z.eqb_spec (LRUCache.key a) j); [congruence|reflexivity].
  - simpl. destruct (LRUCache.key a =? j); [reflexivity|exact IH].
Qed.

Lemma node_app_other (l : list LRUCacheEntry) (e : LRUCacheEntry) (j : Z) :
  LRUCache.key e <> j -> LRUCache.node j (l ++ [e]) = LRUCache.node j l.
Proof.
  unfold LRUCache.node. intros Hne.
  induction l as [|a l IH]; simpl.
  - destruct (Z.eqb_spec (LRUCache.key e) j); [congruence|reflexivity].
  - destruct (LRUCache.key a =? j); [reflexivity|exact IH].
Qed.

Lemma get_hit (s : LRUCache.t) (k : Z) :
  LRUCache.wf s -> LRUCache.exists_ s k = true ->
  exists e,
    LRUCache.node k (LRUCache.entries s) = Some e /\ LRUCache.key e = k /\
    (LRUCache.get s k).1 = Some (LRUCache.data e) /\
    LRUCache.index (LRUCache.get s k).2 = LRUCache.index s /\
    forall j, LRUCache.node j (LRUCache.entries (LRUCache.get s k).2) =
              LRUCache.node j (LRUCache.entries s).
Proof.
  intros Hwf Hex. pose proof Hex as Hin. apply exists_true in Hin.
  apply (wf_index _ _ Hwf) in Hin.
  destruct (node_present _ _ Hin) as (e & Hnode & Hkey & Hel).
  exists e. unfold LRUCache.get. rewrite Hex, Hnode. simpl.
  repeat split; auto.
  intros j. destruct (Z.eq_dec j k) as [->|Hne].
  - rewrite Hnode. apply node_moved_to_back; [exact Hkey|].
    destruct Hwf as [Hnd _]. intros Hk.
    apply (keys_unlink _ k Hnd) in Hk as [_ Hk]. congruence.
  - rewrite node_app_other by congruence. by apply node_unlink_other.
Qed.

Lemma set_svgCache_id (w : World) : set_svgCache w (svgCache w) = w.
Proof. destruct w; reflexivity. Qed.


Lemma lookupOwn_miss `{Hasher} (animObj : AnimObject) (c : SvgCache)
    (m : list Byte.byte) (k : Z) :
  ownMd5 animObj = Some m ->
  hash m (svgScale animObj) (percentReplacementTransformed animObj) = Some k ->
  existsInternal c k = false ->
  lookupOwn animObj c = Some (None, c).
Proof.
  intros Hm Hk Hex. unfold lookupOwn. rewrite Hm, Hk.
  cbn [mbind option_bind]. unfold getInternal, LRUCache.get.
  unfold existsInternal in Hex. rewrite Hex. by rewrite set_cachedSvgs_id.
Qed.





(* ================================================================== *)
(** ** The eviction policy *)
(* ================================================================== *)

Lemma evictionScan_skip (W H : F32.float) (maxN : Z) (pl : Placement)
    (s : LRUCache.t) (tail : list LRUCacheEntry)
    (probed : list LRUCacheEntry) :
  forall counter,
    Forall (fun e => fits W H e = false) probed ->
    counter + Z.of_nat (length probed) <= maxN ->
    evictionScan W H maxN (probed ++ tail) counter pl s =
      let '(o, c, p, s', tr) :=
        evictionScan W H maxN tail (counter + Z.of_nat (length probed)) pl s in
      (o, c, p, s', (probe <$> probed) ++ tr).
Proof.
  induction probed as [|e probed IH]; intros counter Hall Hlen.
  - simpl. rewrite Z.add_0_r.
    destruct (evictionScan W H maxN tail counter pl s) as [[[[o c] p] s'] tr].
    reflexivity.
  - apply Forall_cons in Hall as [He Hall]. simpl length in *.
    cbn [app evictionScan].
    destruct (Z.ltb_spec counter maxN); [|lia]. rewrite He.
    rewrite IH by (auto; lia).
    replace (counter + 1 + Z.of_nat (length probed))
      with (counter + Z.of_nat (S (length probed))) by lia.
    destruct (evictionScan W H maxN tail
                (counter + Z.of_nat (S (length probed))) pl s)
      as [[[[o c] p] s'] tr].
    reflexivity.
Qed.

Lemma placeOnOverflow_no_budget (W H : F32.float) (c c2 : SvgCache)
    (pl : Placement) (tr2 : list Action) :
  maxNumEntriesToTry (LRUCache.size (cachedSvgs c)) = Some 0 ->
  growCache c = Some (c2, tr2) ->
  placeOnOverflow W H c pl = Some (c2, rotated pl c2, tr2).
Proof.
  intros Hmax Hg. unfold placeOnOverflow. rewrite Hmax. simpl.
  destruct (LRUCache.entries (cachedSvgs c)) as [|e l]; simpl;
    rewrite set_cachedSvgs_id, Hg; reflexivity.
Qed.

Lemma growCache_clears (c c' : SvgCache) (tr : list Action) :
  growCache c = Some (c', tr) ->
  In (ActClearPage (cacheCurrentColorAttachment c')) tr.
Proof.
  intros Hg. apply growCache_Some in Hg as [_ Hg]. unfold growCacheTo in Hg.
  match type of Hg with context [growCacheLoop ?p ?l ?s] =>
    destruct (growCacheLoop p l s) as [s' tr'] end.
  injection Hg as -> ->. simpl. apply in_or_app. right. left. reflexivity.
Qed.

Lemma growCacheLoop_no_failure (page : Z) (chain : list LRUCacheEntry) :
  forall s,
    NoDup (LRUCache.key <$> chain) ->
    (forall e, e ∈ chain -> LRUCache.key e ∈ LRUCache.index s) ->
    Forall (fun a => (forall k, a <> ActEvict k false) /\
                     (forall msg k, a <> ActLogError msg k))
      (growCacheLoop page chain s).2.
Proof.
  induction chain as [|e next IH]; intros s Hnd Hin; simpl; [constructor|].
  rewrite fmap_cons in Hnd. apply NoDup_cons in Hnd as [Hne Hnd].
  destruct (colorAttachment (LRUCache.data e) =? page).
  - assert (Hex : LRUCache.exists_ s (LRUCache.key e) = true)
      by (apply exists_true, Hin; left).
    unfold LRUCache.evict. rewrite Hex.
    match goal with |- context [growCacheLoop page next ?s1] =>
      specialize (IH s1 Hnd); destruct (growCacheLoop page next s1) as [s2 tr]
    end.
    simpl in *. constructor; [split; intros; discriminate|].
    apply IH. intros e' He'. apply elem_of_difference. split.
    + apply Hin. by right.
    + intros Heq. apply elem_of_singleton in Heq. apply Hne. rewrite <- Heq.
      by apply list_elem_of_fmap_2.
  - apply IH; [exact Hnd|]. intros e' He'. apply Hin. by right.
Qed.

Lemma growCache_no_failure (c c' : SvgCache) (tr : list Action) :
  LRUCache.wf (cachedSvgs c) ->
  growCache c = Some (c', tr) ->
  (forall k, ~ In (ActEvict k false) tr) /\
  (forall msg k, ~ In (ActLogError msg k) tr).
Proof.
  intros Hwf Hg. apply growCache_Some in Hg as [_ Hg]. unfold growCacheTo in Hg.
  pose proof (growCacheLoop_no_failure (nextColorAttachment c)
                (LRUCache.entries (cachedSvgs c)) (cachedSvgs c)) as Hclean.
  destruct (growCacheLoop (nextColorAttachment c)
              (LRUCache.entries (cachedSvgs c)) (cachedSvgs c)) as [s' tr'].
  injection Hg as _ ->. simpl in Hclean.
  assert (Hall : Forall (fun a => (forall k, a <> ActEvict k false) /\
                                  (forall msg k, a <> ActLogError msg k)) tr').
  { apply Hclean; [apply Hwf|]. intros e He. apply (wf_index _ _ Hwf).
    by apply list_elem_of_fmap_2. }
  rewrite Forall_forall in Hall.
  split.
  - intros k Hin. apply in_app_or in Hin as [Hin|[Hin|[]]]; [|discriminate Hin].
    apply list_elem_of_In, Hall in Hin as [Hin _]. by apply (Hin k).
  - intros msg k Hin.
    apply in_app_or in Hin as [Hin|[Hin|[]]]; [|discriminate Hin].
    apply list_elem_of_In, Hall in Hin as [_ Hin]. by apply (Hin msg k).
Qed.

Lemma probe_not_other (l : list LRUCacheEntry) (a : Action) :
  (forall k, a <> ActProbe k) -> ~ In a (probe <$> l).
Proof.
  intros Ha. induction l as [|e l IH]; simpl; [tauto|].
  intros [Hin|Hin]; [|by apply IH]. by apply (Ha (LRUCache.key e)).
Qed.

(** X22. On a well-formed store no eviction fails.  In the overflow branch
    of [put] every [evict] call, in the scan and in [growCache], returns
    true and no error is logged.  Either the scan chose nothing (every entry
    it inspected is too small) and the page is rotated, or the entry it
    chose, the oldest one that fits, is evicted and its key is no longer
    in the cache: the branch of lines 140-147, which logs a failed eviction
    and leaves the scan, is never taken. *)
Theorem scan_eviction_never_fails (Wd Ht : F32.float) (c : SvgCache)
    (pl : Placement) (r : SvgCache * Placement * list Action) :
  LRUCache.wf (cachedSvgs c) ->
  placeOnOverflow Wd Ht c pl = Some r ->
  (forall k, ~ In (ActEvict k false) r.2) /\
  (forall msg k, ~ In (ActLogError msg k) r.2) /\
  ((exists probed rest tr2,
      LRUCache.entries (cachedSvgs c) = probed ++ rest /\
      Forall (fun e => fits Wd Ht e = false) probed /\
      growCache c = Some (r.1.1, tr2) /\
      r.2 = (probe <$> probed) ++ tr2)
   \/
   (exists probed e rest,
      LRUCache.entries (cachedSvgs c) = probed ++ e :: rest /\
      Forall (fun e' => fits Wd Ht e' = false) probed /\
      fits Wd Ht e = true /\
      In (ActEvict (LRUCache.key e) true) r.2 /\
      existsInternal r.1.1 (LRUCache.key e) = false)).
Proof.
  intros Hwf Hp. apply placeOnOverflow_outcome in Hp.
  destruct Hp as [maxN probed rest c2 tr2 _ Hent Hall _ Hg
                 |maxN probed e rest c2 tr2 _ Hent _ _ _ Hex _
                 |maxN probed e rest s' sx sy sw sh _ Hent Hall _ Hfit Hev _];
    simpl.
  - destruct (growCache_no_failure _ _ _ Hwf Hg) as [Hev Hlog].
    split; [|split].
    + intros k Hin. apply in_app_or in Hin as [Hin|Hin]; [|by apply Hev in Hin].
      by apply probe_not_other in Hin.
    + intros msg k Hin.
      apply in_app_or in Hin as [Hin|Hin]; [|by apply Hlog in Hin].
      by apply probe_not_other in Hin.
    + left. exists probed, rest, tr2. auto.
  - exfalso. apply exists_false in Hex. apply Hex.
    apply (wf_index _ _ Hwf). apply list_elem_of_fmap_2.
    rewrite Hent. apply elem_of_app. right. left.
  - split; [|split].
    + intros k Hin. apply in_app_or in Hin as [Hin|Hin];
        [by apply probe_not_other in Hin|].
      destruct Hin as [Hin|[Hin|[Hin|[]]]]; discriminate Hin.
    + intros msg k Hin. apply in_app_or in Hin as [Hin|Hin];
        [by apply probe_not_other in Hin|].
      destruct Hin as [Hin|[Hin|[Hin|[]]]]; discriminate Hin.
    + right. exists probed, e, rest. split; [exact Hent|].
      split; [exact Hall|]. split; [exact Hfit|]. split.
      * apply in_or_app. right. right. left. reflexivity.
      * unfold existsInternal. apply exists_false. simpl.
        pose proof (evict_index (cachedSvgs c) (LRUCache.key e)) as Hi.
        rewrite Hev in Hi. simpl in Hi. rewrite Hi. set_solver.
Qed.

Lemma scan_eviction_never_fails_witness :
  exists r,
    placeOnOverflow (F32.of_Z 100) (F32.of_Z 100) manyAndFull
      (initialPlacement (F32.of_Z 100) (F32.of_Z 100) manyAndFull) = Some r /\
    forall k, ~ In (ActEvict k false) r.2.
Proof.
  assert (Hr : exists r,
             placeOnOverflow (F32.of_Z 100) (F32.of_Z 100) manyAndFull
               (initialPlacement (F32.of_Z 100) (F32.of_Z 100) manyAndFull)
             = Some r)
    by (vm_compute; eexists; reflexivity).
  destruct Hr as (r & Hr). exists r. split; [exact Hr|].
  refine (proj1 (scan_eviction_never_fails _ _ _ _ r _ Hr)).
  wf_by_decision.
Defined.

(** C10. With fewer than ten entries in the store the scan budget is 0, so a
    placement that overflows the page vertically never inspects or reuses a
    slot: [put] rotates to the next page and stores the rectangle at its
    origin, whatever the size of the oldest slot. *)
Theorem small_store_always_rotates `{Hasher} (parent : AnimObject)
    (svg : SvgObject) (w : World) (k r : Z) :
  let Wd := x (svgTotalSize parent svg) in
  let Ht := y (svgTotalSize parent svg) in
  let c1 := (shelfStep r (svgCache w) (initialPlacement Wd Ht (svgCache w))).1 in
  let pl1 := (shelfStep r (svgCache w) (initialPlacement Wd Ht (svgCache w))).2 in
  hash (md5Bytes svg) (svgScale parent)
    (percentReplacementTransformed parent) = Some k ->
  existsInternal (svgCache w) k = false ->
  degenerate (svgTotalSize parent svg) = false ->
  LRUCache.size (cachedSvgs (svgCache w)) < 10 ->
  0 < colorAttachments_size (framebuffer (svgCache w)) ->
  newRightX Wd (svgCache w) = Some r ->
  F32.geb (newBottomY Ht pl1) (F32.of_Z (height (framebuffer c1))) = true ->
  maxNumEntriesToTry (LRUCache.size (cachedSvgs (svgCache w))) = Some 0 /\
  exists w' res c2 tr2,
    growCache c1 = Some (c2, tr2) /\
    put parent svg w =
      Some (w', tr2 ++
                [ActInsert k res;
                 ActRender (dispatchMode w) (svgScale parent)
                   (colorAttachment res) (textureOffset res)]) /\
    probes tr2 = [] /\
    Forall (fun a => is_grow_action a = true) tr2 /\
    In (ActClearPage (colorAttachment res)) tr2 /\
    colorAttachment res = cacheCurrentColorAttachment c2 /\
    textureOffset res = {| x := F32.zero; y := F32.zero |}.
Proof.
  intros Wd Ht c1 pl1 Hk Hmiss Hdeg Hsize Hn Hr Hover.
  assert (Hmax : maxNumEntriesToTry (LRUCache.size (cachedSvgs (svgCache w)))
                 = Some 0)
    by (apply maxNumEntriesToTry_small; split; [apply size_nonneg|exact Hsize]).
  split; [exact Hmax|].
  destruct (shelfStep_fields r (svgCache w) (initialPlacement Wd Ht (svgCache w)))
    as (Hstore & Hfb & _).
  fold c1 in Hstore, Hfb.
  assert (Hg : growCache c1 = Some (growCacheTo (nextColorAttachment c1) c1))
    by (apply growCache_defined; rewrite Hfb; lia).
  destruct (growCacheTo (nextColorAttachment c1) c1) as [c2 tr2].
  assert (Hplace : place Wd Ht (svgCache w) = Some (c2, rotated pl1 c2, tr2)).
  { unfold place. rewrite Hr. cbn [mbind option_bind].
    subst c1 pl1.
    destruct (shelfStep r (svgCache w) (initialPlacement Wd Ht (svgCache w)))
      as [c1 pl1]. cbn [fst snd] in *. rewrite Hover.
    apply placeOnOverflow_no_budget; [by rewrite Hstore|exact Hg]. }
  rewrite (put_places parent svg w k _ _ _ Hk Hmiss Hdeg Hplace).
  eexists _, _, c2, tr2. split; [exact Hg|]. split; [reflexivity|].
  split; [apply probes_grow, (growCache_trace _ _ _ Hg)|].
  split; [apply (growCache_trace _ _ _ Hg)|].
  split; [apply (growCache_clears _ _ _ Hg)|].
  split; [reflexivity|].
  simpl. by destruct (growCache_fields _ _ _ Hg) as (_ & -> & _).
Qed.

Lemma small_store_always_rotates_witness :
  fits (F32.of_Z 100) (F32.of_Z 100) (mkNode 11 0 0 0 100 100) = true /\
  exists w' res tr,
    put objSquare svgAnonymous (mkWorld fewAndFull false) = Some (w', tr) /\
    probes tr = [] /\ In (ActInsert 14695992197455413454 res) tr /\
    colorAttachment res = 1 /\
    textureOffset res = {| x := F32.zero; y := F32.zero |}.
Proof.
  split; [by_computation|].
  destruct (small_store_always_rotates objSquare svgAnonymous
              (mkWorld fewAndFull false) 14695992197455413454 110)
    as (_ & w' & res & c2 & tr2 & Hg & Hput & Hprobes & _ & _ & Hpage & Hoff).
  - by_computation.
  - by_computation.
  - by_computation.
  - by_computation.
  - by_computation.
  - by_computation.
  - by_computation.
  - exists w', res. eexists. split; [exact Hput|].
    split; [|split; [|split]].
    + rewrite probes_app, Hprobes. reflexivity.
    + apply in_or_app. right. left. reflexivity.
    + rewrite Hpage. vm_compute in Hg. injection Hg as <- _. reflexivity.
    + exact Hoff.
Defined.

Lemma take_through (probed : list LRUCacheEntry) (e : LRUCacheEntry)
    (rest : list LRUCacheEntry) :
  take (S (length probed)) (probed ++ e :: rest) = probed ++ [e].
Proof.
  induction probed as [|a probed IH]; simpl; [by rewrite take_0|].
  f_equal. exact IH.
Qed.

(** C6 (as amended). On a store of [N] entries the overflow branch inspects
    at most [maxNumEntriesToTry N] entries, the budget [(size_t)(0.1f * N)]
    that the code computes in binary32, which is [floor (N / 10)] for every
    [N] below [sizeBound], that is below 16777219; the inspected entries are
    the oldest ones, in order.  A slot that is reused is among them;
    otherwise the branch ends in the page rotation. *)
Theorem eviction_scan_bound (Wd Ht : F32.float) (c : SvgCache) (pl : Placement)
    (r : SvgCache * Placement * list Action) :
  placeOnOverflow Wd Ht c pl = Some r ->
  exists (budget : Z) (n : nat),
    maxNumEntriesToTry (LRUCache.size (cachedSvgs c)) = Some budget /\
    (LRUCache.size (cachedSvgs c) < sizeBound ->
     budget = LRUCache.size (cachedSvgs c) / 10) /\
    Z.of_nat n <= budget /\
    probes r.2 = LRUCache.key <$> take n (LRUCache.entries (cachedSvgs c)) /\
    ((exists tr2, growCache c = Some (r.1.1, tr2) /\
      In (ActClearPage (cacheCurrentColorAttachment r.1.1)) r.2) \/
     (exists e, e ∈ take n (LRUCache.entries (cachedSvgs c)) /\
                fits Wd Ht e = true /\
                r.1.2 = scissored (reuseSlot e pl))).
Proof.
  intros Hp. apply placeOnOverflow_outcome in Hp.
  assert (Hfloor : forall maxN,
            maxNumEntriesToTry (LRUCache.size (cachedSvgs c)) = Some maxN ->
            LRUCache.size (cachedSvgs c) < sizeBound ->
            maxN = LRUCache.size (cachedSvgs c) / 10).
  { intros maxN Hm Hsize.
    pose proof (maxNumEntriesToTry_floor (LRUCache.size (cachedSvgs c))
                  (conj (size_nonneg _) Hsize)). congruence. }
  destruct Hp as [maxN probed rest c2 tr2 Hm Hent Hall Hlen Hg
                 |maxN probed e rest c2 tr2 Hm Hent Hall Hlen Hfit Hex Hg
                 |maxN probed e rest s' sx sy sw sh Hm Hent Hall Hlen Hfit Hev Hbox];
    simpl.
  - exists maxN, (length probed). split; [exact Hm|]. split; [auto|].
    split; [exact Hlen|]. split.
    + rewrite probes_app, probes_probe,
        (probes_grow _ (growCache_trace _ _ _ Hg)).
      rewrite Hent, take_app_length, app_nil_r. reflexivity.
    + left. exists tr2. split; [exact Hg|]. apply in_or_app. right.
      apply (growCache_clears _ _ _ Hg).
  - exists maxN, (S (length probed)). split; [exact Hm|]. split; [auto|].
    split; [lia|]. split.
    + rewrite probes_app, probes_probe. simpl.
      rewrite (probes_grow _ (growCache_trace _ _ _ Hg)).
      rewrite Hent, take_through. by rewrite fmap_app.
    + left. exists tr2. split; [exact Hg|]. apply in_or_app. right.
      do 3 right. apply (growCache_clears _ _ _ Hg).
  - exists maxN, (S (length probed)). split; [exact Hm|]. split; [auto|].
    split; [lia|]. split.
    + rewrite probes_app, probes_probe. simpl.
      rewrite Hent, take_through. by rewrite fmap_app.
    + right. exists e. split; [|auto].
      rewrite Hent, take_through. apply elem_of_app. right. left.
Qed.

Lemma eviction_scan_bound_witness :
  exists r (n : nat),
    placeOnOverflow (F32.of_Z 300) (F32.of_Z 300) manyAndFull
      (initialPlacement (F32.of_Z 300) (F32.of_Z 300) manyAndFull) = Some r /\
    Z.of_nat n <= 21 / 10 /\
    probes r.2 = LRUCache.key <$> take n nodes21.
Proof.
  assert (Hr : exists r,
             placeOnOverflow (F32.of_Z 300) (F32.of_Z 300) manyAndFull
               (initialPlacement (F32.of_Z 300) (F32.of_Z 300) manyAndFull)
             = Some r)
    by (vm_compute; eexists; reflexivity).
  destruct Hr as (r & Hr).
  destruct (eviction_scan_bound (F32.of_Z 300) (F32.of_Z 300) manyAndFull
              (initialPlacement (F32.of_Z 300) (F32.of_Z 300) manyAndFull) r Hr)
    as (budget & n & _ & Hb & Hn & Hprobes & _).
  exists r, n. split; [exact Hr|]. split; [|exact Hprobes].
  rewrite Hb in Hn by (vm_compute; reflexivity). exact Hn.
Defined.

Lemma tinyNodes_keys (n : Z) : LRUCache.key <$> tinyNodes n = seqZ 0 n.
Proof.
  unfold tinyNodes. rewrite <- list_fmap_compose.
  rewrite <- (list_fmap_id (seqZ 0 n)) at 2. reflexivity.
Qed.

Lemma wf_crowded (n : Z) : LRUCache.wf (cachedSvgs (crowded n)).
Proof.
  split.
  - unfold LRUCache.keys. cbn [crowded withStore cachedSvgs LRUCache.entries].
    rewrite tinyNodes_keys. apply NoDup_seqZ.
  - unfold LRUCache.keys. cbn [crowded withStore cachedSvgs LRUCache.entries
                               LRUCache.index].
    by rewrite tinyNodes_keys.
Qed.

Lemma size_crowded (n : Z) : 0 <= n -> LRUCache.size (cachedSvgs (crowded n)) = n.
Proof.
  intros Hn. unfold LRUCache.size.
  cbn [crowded withStore cachedSvgs LRUCache.index].
  rewrite size_list_to_set by apply NoDup_seqZ. rewrite length_seqZ. lia.
Qed.

(** On a crowded store whose slots are all too small the scan inspects
    exactly as many entries as its budget allows. *)
Lemma scan_exhausts_budget (n maxN : Z) (Wd Ht : F32.float) (pl : Placement) :
  0 <= maxN < n ->
  maxNumEntriesToTry n = Some maxN ->
  (forall k, fits Wd Ht (mkNode k 0 0 0 1 1) = false) ->
  exists r,
    placeOnOverflow Wd Ht (crowded n) pl = Some r /\
    In (ActClearPage 1) r.2 /\
    probes r.2 = seqZ 0 maxN.
Proof.
  intros Hrange Hmax Hsmall.
  assert (Hg : growCache (crowded n)
               = Some (growCacheTo (nextColorAttachment (crowded n))
                         (crowded n)))
    by (apply growCache_defined; intros Hz; vm_compute in Hz; discriminate Hz).
  destruct (growCacheTo (nextColorAttachment (crowded n)) (crowded n))
    as [c2 tr2].
  exists (c2, rotated pl c2, (probe <$> tinyNodes maxN) ++ tr2).
  split; [|split].
  2:{ cbn [snd]. apply in_or_app. right.
      pose proof (growCache_clears _ _ _ Hg) as Hin.
      destruct (growCache_fields _ _ _ Hg) as (_ & _ & _ & Hpage).
      rewrite Hpage in Hin. exact Hin. }
  - unfold placeOnOverflow. rewrite size_crowded by lia. rewrite Hmax.
    cbn [mbind option_bind].
    assert (Hsplit : LRUCache.entries (cachedSvgs (crowded n)) =
                     tinyNodes maxN ++
                     mkNode maxN 0 0 0 1 1 ::
                     ((fun k => mkNode k 0 0 0 1 1)
                        <$> seqZ (Z.succ maxN) (Z.pred (n - maxN)))).
    { cbn [crowded withStore cachedSvgs LRUCache.entries]. unfold tinyNodes.
      replace n with (maxN + (n - maxN)) at 1 by lia.
      rewrite seqZ_app by lia. rewrite fmap_app. f_equal.
      rewrite Z.add_0_l. rewrite (seqZ_cons maxN) by lia.
      by rewrite fmap_cons. }
    rewrite Hsplit.
    assert (Hlen : Z.of_nat (length (tinyNodes maxN)) = maxN)
      by (unfold tinyNodes; rewrite length_fmap, length_seqZ; lia).
    rewrite evictionScan_skip.
    + rewrite Hlen. cbn [evictionScan].
      destruct (Z.ltb_spec (0 + maxN) maxN); [lia|].
      destruct (Z.leb_spec maxN (0 + maxN)); [|lia].
      cbn [is_nullptr orb]. rewrite set_cachedSvgs_id, Hg.
      cbn [mbind option_bind]. by rewrite app_nil_r.
    + unfold tinyNodes. apply Forall_fmap, Forall_forall.
      intros k _. apply Hsmall.
    + lia.
  - cbn [snd]. rewrite probes_app, probes_probe, tinyNodes_keys.
    rewrite (probes_grow _ (growCache_trace _ _ _ Hg)). by rewrite app_nil_r.
Qed.

(** C6 as stated fails.  With 16777219 entries, none of them large enough,
    the scan inspects 1677722 entries before the page is rotated, one more
    than [floor (16777219 / 10)]: the budget is the binary32 product
    [0.1f * (float)N] truncated, and [(float)16777219] is 16777220. *)
Lemma scan_exceeds_tenth :
  LRUCache.wf (cachedSvgs (crowded 16777219)) /\
  LRUCache.size (cachedSvgs (crowded 16777219)) = 16777219 /\
  16777219 / 10 = 1677721 /\
  exists r,
    placeOnOverflow (F32.of_Z 100) (F32.of_Z 100) (crowded 16777219)
      (initialPlacement (F32.of_Z 100) (F32.of_Z 100) (crowded 16777219))
      = Some r /\
    In (ActClearPage 1) r.2 /\
    Z.of_nat (length (probes r.2)) = 1677722.
Proof.
  split; [apply wf_crowded|]. split; [apply size_crowded; lia|].
  split; [reflexivity|].
  destruct (scan_exhausts_budget 16777219 1677722 (F32.of_Z 100) (F32.of_Z 100)
              (initialPlacement (F32.of_Z 100) (F32.of_Z 100)
                 (crowded 16777219)))
    as (r & Hr & Hclear & Hprobes).
  - lia.
  - by_computation.
  - intros k. by_computation.
  - exists r. split; [exact Hr|]. split; [exact Hclear|].
    rewrite Hprobes, length_seqZ. by rewrite Z2Nat.id by lia.
Qed.

(* ================================================================== *)
(** ** The shelf step *)
(* ================================================================== *)

(** C9. When [cursor.x + width + padding], as [put] computes and truncates
    it, reaches the page width, the packer wraps before it places: the
    cursor moves down by the shelf height plus the padding, its [x] and the
    shelf height are reset to 0, and the placement (the vertical test, then
    the direct placement or the overflow branch) is made at that cursor. *)
Theorem shelf_wrap_step (Wd Ht : F32.float) (c : SvgCache) (r : Z) :
  newRightX Wd c = Some r ->
  width (framebuffer c) <= r ->
  let c1 :=
    {| framebuffer := framebuffer c; cachedSvgs := cachedSvgs c;
       cacheCurrentPos :=
         {| x := F32.zero;
            y := F32.add (y (cacheCurrentPos c))
                   (F32.add (cacheLineHeight c) (y cachePadding)) |};
       cacheLineHeight := F32.zero;
       cacheCurrentColorAttachment := cacheCurrentColorAttachment c |} in
  let pl1 :=
    {| svgTextureOffset := cacheCurrentPos c1;
       colorAttachmentToRenderTo := cacheCurrentColorAttachment c;
       allotted := {| x := Wd; y := Ht |};
       incrementX := true |} in
  place Wd Ht c =
    if F32.geb (F32.add (F32.add (y (cacheCurrentPos c1)) Ht) (y cachePadding))
         (F32.of_Z (height (framebuffer c)))
    then placeOnOverflow Wd Ht c1 pl1
    else Some (c1, pl1, []).
Proof.
  intros Hr Hwrap c1 pl1. unfold place. rewrite Hr. cbn [mbind option_bind].
  unfold shelfStep. destruct (Z.leb_spec (width (framebuffer c)) r); [|lia].
  reflexivity.
Qed.

Lemma shelf_wrap_step_witness :
  exists c1 pl1,
    place (F32.of_Z 100) (F32.of_Z 100) nearRightEdge = Some (c1, pl1, []) /\
    cacheCurrentPos c1 = v2 0 110 /\
    cacheLineHeight c1 = F32.zero /\
    svgTextureOffset pl1 = v2 0 110.
Proof.
  pose proof (shelf_wrap_step (F32.of_Z 100) (F32.of_Z 100) nearRightEdge 4110)
    as Hw.
  assert (H1 : newRightX (F32.of_Z 100) nearRightEdge = Some 4110)
    by (vm_compute; reflexivity).
  assert (H2 : width (framebuffer nearRightEdge) <= 4110)
    by (vm_compute; discriminate).
  specialize (Hw H1 H2). cbv zeta in Hw.
  match type of Hw with
  | _ = (if ?b then _ else _) =>
      assert (Hb : b = false) by (vm_compute; reflexivity);
      rewrite Hb in Hw
  end.
  do 2 eexists. split; [exact Hw|]. repeat split; vm_compute; reflexivity.
Defined.

(* ================================================================== *)
(** ** Bounds of the stored record *)
(* ================================================================== *)

Lemma fits_geb (Wd Ht : F32.float) (e : LRUCacheEntry) :
  fits Wd Ht e = true ->
  F32.geb (x (allottedSize (LRUCache.data e))) Wd = true /\
  F32.geb (y (allottedSize (LRUCache.data e))) Ht = true.
Proof. unfold fits. intros Hf. by apply andb_prop in Hf. Qed.

Lemma overflow_allotted (Wd Ht : F32.float) (c : SvgCache) (pl : Placement)
    (r : SvgCache * Placement * list Action) :
  overflow_outcome Wd Ht c pl r ->
  F32.geb (x (allotted pl)) Wd = true ->
  F32.geb (y (allotted pl)) Ht = true ->
  F32.geb (x (allotted r.1.2)) Wd = true /\
  F32.geb (y (allotted r.1.2)) Ht = true.
Proof.
  intros Ho Hx Hy. destruct Ho; simpl; auto using fits_geb.
Qed.

Lemma overflow_trace_nonempty (Wd Ht : F32.float) (c : SvgCache)
    (pl : Placement) (r : SvgCache * Placement * list Action) :
  overflow_outcome Wd Ht c pl r -> r.2 <> [].
Proof.
  intros Ho Hnil.
  destruct Ho; simpl in Hnil; apply app_eq_nil in Hnil as [_ Hnil];
    try discriminate Hnil.
  match goal with Hg : growCache _ = Some _ |- _ =>
    pose proof (growCache_clears _ _ _ Hg) as Hin end.
  rewrite Hnil in Hin. exact Hin.
Qed.

Lemma place_allotted (Wd Ht : F32.float) (c c2 : SvgCache) (pl : Placement)
    (ptr : list Action) :
  F32.is_nan Wd = false -> F32.is_nan Ht = false ->
  place Wd Ht c = Some (c2, pl, ptr) ->
  F32.geb (x (allotted pl)) Wd = true /\ F32.geb (y (allotted pl)) Ht = true.
Proof.
  intros Hw Hh Hp. apply place_inv in Hp as (r & _ & Hcases).
  destruct (shelfStep_fields r c (initialPlacement Wd Ht c))
    as (_ & _ & _ & Hal & _).
  assert (Hinit :
    F32.geb (x (allotted (shelfStep r c (initialPlacement Wd Ht c)).2)) Wd = true
    /\ F32.geb (y (allotted (shelfStep r c (initialPlacement Wd Ht c)).2)) Ht
       = true).
  { rewrite Hal. simpl. split; by apply geb_refl. }
  destruct Hcases as [(_ & _ & -> & _)|[_ Ho]]; [exact Hinit|].
  destruct Hinit as [Hx Hy].
  apply (overflow_allotted _ _ _ _ _ Ho Hx Hy).
Qed.

Lemma overflow_slot (Wd Ht : F32.float) (c : SvgCache) (pl : Placement)
    (r : SvgCache * Placement * list Action) :
  overflow_outcome Wd Ht c pl r ->
  LRUCache.wf (cachedSvgs c) ->
  Forall (fun e => slotOk (framebuffer c) (LRUCache.data e) = true)
    (LRUCache.entries (cachedSvgs c)) ->
  allotted pl = {| x := Wd; y := Ht |} ->
  fitsEmptyPage (framebuffer c) {| x := Wd; y := Ht |} = true ->
  inPage (framebuffer c) (svgTextureOffset r.1.2) (allotted r.1.2) = true /\
  framebuffer r.1.1 = framebuffer c.
Proof.
  intros Ho Hwf Hall Hal Hfit.
  destruct Ho as [maxN probed rest c2 tr2 _ _ _ _ Hg
                 |maxN probed e rest c2 tr2 _ Hent _ _ _ Hex _
                 |maxN probed e rest s' sx sy sw sh _ Hent _ _ _ _ _]; simpl.
  - destruct (growCache_fields _ _ _ Hg) as (Hfb & Hpos & _).
    rewrite Hpos, Hal. auto.
  - exfalso. apply exists_false in Hex. apply Hex.
    apply (wf_index _ _ Hwf). apply list_elem_of_fmap_2.
    rewrite Hent. apply elem_of_app. right. left.
  - split; [|reflexivity].
    rewrite Forall_forall in Hall.
    assert (He : e ∈ LRUCache.entries (cachedSvgs c))
      by (rewrite Hent; apply elem_of_app; right; left).
    apply Hall in He. unfold slotOk in He.
    by apply andb_prop in He as [_ He].
Qed.

Lemma place_slot (Wd Ht : F32.float) (c c2 : SvgCache) (pl : Placement)
    (ptr : list Action) :
  LRUCache.wf (cachedSvgs c) ->
  Forall (fun e => slotOk (framebuffer c) (LRUCache.data e) = true)
    (LRUCache.entries (cachedSvgs c)) ->
  fitsEmptyPage (framebuffer c) {| x := Wd; y := Ht |} = true ->
  place Wd Ht c = Some (c2, pl, ptr) ->
  inPage (framebuffer c) (svgTextureOffset pl) (allotted pl) = true /\
  framebuffer c2 = framebuffer c.
Proof.
  intros Hwf Hall Hfit Hp. apply place_inv in Hp as (r & Hr & Hcases).
  destruct (shelfStep_fields r c (initialPlacement Wd Ht c))
    as (Hs & Hfb & _ & Hal & _).
  destruct Hcases as [(Hbottom & -> & -> & _)|[_ Ho]].
  - split; [|exact Hfb]. rewrite Hfb in Hbottom.
    unfold inPage. rewrite Hal. simpl allotted. cbn [x y].
    unfold newBottomY in Hbottom. rewrite Hbottom.
    rewrite andb_true_r. unfold shelfStep.
    destruct (Z.leb_spec (width (framebuffer c)) r) as [Hwrap|Hnowrap]; simpl.
    + unfold fitsEmptyPage, inPage in Hfit. cbn [x y] in Hfit.
      by apply andb_prop in Hfit as [Hfit _].
    + unfold newRightX in Hr. simpl in Hr. rewrite Hr. by apply Z.ltb_lt.
  - destruct (overflow_slot _ _ _ _ _ Ho) as [Hin Hfb2].
    + by rewrite Hs.
    + by rewrite Hs, Hfb.
    + exact Hal.
    + by rewrite Hfb.
    + simpl in *. rewrite Hfb in Hin, Hfb2. auto.
Qed.

(** C8 (as amended). For every record that [put] stores for a rectangle
    whose width and height are not NaN, the allotted size is componentwise at
    least the content size.  If, in addition, the store is well formed, every
    record already stored lies within its page, and the rectangle passes the
    page test at the origin of an empty page (its width plus padding is below
    the page width and its height plus padding below the page height), then
    after [put] every stored record, the new one included, has an allotted
    size at least its content size and an allotted region that, with its
    padding, passes the page test of [put] at the record's offset. *)
Theorem stored_record_bounds `{Hasher} (parent : AnimObject)
    (svg : SvgObject) (w w' : World) (tr : list Action) :
  let fb := framebuffer (svgCache w) in
  F32.is_nan (x (svgTotalSize parent svg)) = false ->
  F32.is_nan (y (svgTotalSize parent svg)) = false ->
  put parent svg w = Some (w', tr) ->
  (forall k res, In (ActInsert k res) tr ->
     F32.geb (x (allottedSize res)) (x (svgSize res)) = true /\
     F32.geb (y (allottedSize res)) (y (svgSize res)) = true) /\
  (LRUCache.wf (cachedSvgs (svgCache w)) ->
   Forall (fun e => slotOk fb (LRUCache.data e) = true)
     (LRUCache.entries (cachedSvgs (svgCache w))) ->
   fitsEmptyPage fb (svgTotalSize parent svg) = true ->
   framebuffer (svgCache w') = fb /\
   Forall (fun e => slotOk fb (LRUCache.data e) = true)
     (LRUCache.entries (cachedSvgs (svgCache w')))).
Proof.
  intros fb Hnw Hnh Hp.
  apply put_inv in Hp as (k & _ & [(-> & -> & _)|Hp]).
  { split; [intros ? ? []|]. intros _ Hall _. by split. }
  destruct Hp as (_ & _ & c2 & pl & ptr & Hpl & -> & -> & _).
  destruct (place_allotted _ _ _ _ _ _ Hnw Hnh Hpl) as [Hx Hy].
  split.
  { intros k' res Hin. apply in_app_or in Hin as [Hin|Hin].
    - pose proof (place_actions _ _ _ _ _ _ Hpl) as Hact.
      rewrite Forall_forall in Hact.
      apply list_elem_of_In, Hact in Hin. discriminate Hin.
    - destruct Hin as [Heq|[Heq|[]]]; [|discriminate Heq].
      injection Heq as _ <-.
      unfold cacheEntryFor. cbn [svgSize allottedSize x y]. by split. }
  intros Hwf Hall Hfit.
  assert (Hsize : svgTotalSize parent svg =
                  {| x := x (svgTotalSize parent svg);
                     y := y (svgTotalSize parent svg) |})
    by (destruct (svgTotalSize parent svg); reflexivity).
  rewrite Hsize in Hfit.
  destruct (place_slot _ _ _ _ _ _ Hwf Hall Hfit Hpl) as [Hin Hfb].
  assert (Hfb' : framebuffer (advanceCursor (x (svgTotalSize parent svg))
                                (y (svgTotalSize parent svg)) pl c2) = fb).
  { unfold advanceCursor. destruct (incrementX pl); simpl; exact Hfb. }
  split; [exact Hfb'|].
  cbn [svgCache cachedSvgs set_cachedSvgs LRUCache.insert LRUCache.entries].
  rewrite advanceCursor_store. apply Forall_app. split.
  - rewrite Forall_forall in Hall. apply Forall_forall. intros e He.
    apply Hall. apply (place_entries_sub _ _ _ _ _ _ e Hpl).
    by apply (unlink_sub _ k).
  - constructor; [|constructor].
    unfold slotOk, cacheEntryFor.
    cbn [svgSize allottedSize textureOffset x y LRUCache.data].
    rewrite Hx, Hy. exact Hin.
Qed.

Lemma stored_record_bounds_witness :
  exists w' tr,
    put objSquare svgSquare (mkWorld threeOnTwoPages false) = Some (w', tr) /\
    (forall k res, In (ActInsert k res) tr ->
       F32.geb (x (allottedSize res)) (x (svgSize res)) = true /\
       F32.geb (y (allottedSize res)) (y (svgSize res)) = true) /\
    Forall (fun e => slotOk defaultFramebuffer (LRUCache.data e) = true)
      (LRUCache.entries (cachedSvgs (svgCache w'))).
Proof.
  assert (Hput : exists w' tr,
             put objSquare svgSquare (mkWorld threeOnTwoPages false)
             = Some (w', tr))
    by (vm_compute; do 2 eexists; reflexivity).
  destruct Hput as (w' & tr & Hput). exists w', tr. split; [exact Hput|].
  destruct (stored_record_bounds objSquare svgSquare
              (mkWorld threeOnTwoPages false) w' tr) as [Hins Hinv].
  - by_computation.
  - by_computation.
  - exact Hput.
  - split; [exact Hins|]. apply Hinv.
    + wf_by_decision.
    + repeat constructor.
    + by_computation.
Defined.

(** C8 as stated fails: a 5000 x 10 rectangle put into the empty cache wraps
    to a new shelf and is stored at [x = 0] with an allotted width of 5000 on
    a page 4096 wide. *)
Lemma wide_record_exceeds_page :
  exists w' tr k res,
    put objWide svgWide editingWorld = Some (w', tr) /\
    In (ActInsert k res) tr /\
    textureOffset res = v2 0 10 /\
    allottedSize res = v2 5000 10 /\
    F32.ltb (F32.of_Z (width (framebuffer (svgCache editingWorld))))
      (F32.add (x (textureOffset res)) (x (allottedSize res))) = true.
Proof.
  vm_compute. do 4 eexists. split; [reflexivity|].
  split; [left; reflexivity|]. repeat split; reflexivity.
Qed.

(** The comparison of sizes needs the size to be a number: a shape whose
    bounding box has a NaN height is stored with a NaN allotted height and a
    NaN content height, and no NaN is at least another. *)
Lemma nan_height_record_unordered :
  exists w' tr k res,
    put objNaNHeight svgNaNHeight editingWorld = Some (w', tr) /\
    In (ActInsert k res) tr /\
    F32.is_nan (y (svgTotalSize objNaNHeight svgNaNHeight)) = true /\
    F32.geb (y (allottedSize res)) (y (svgSize res)) = false.
Proof.
  vm_compute. do 4 eexists. split; [reflexivity|].
  split; [left; reflexivity|]. split; reflexivity.
Qed.

(* ================================================================== *)
(** ** Well-formedness of the store is an invariant *)
(* ================================================================== *)

(** The theorems above that assume a well-formed store apply to every state
    the cache can reach: the empty store is well formed and every entry
    point keeps it so. *)

Lemma wf_empty : LRUCache.wf LRUCache.empty.
Proof. split; [constructor|reflexivity]. Qed.

Lemma wf_evict (s : LRUCache.t) (k : Z) :
  LRUCache.wf s -> LRUCache.wf (LRUCache.evict s k).2.
Proof.
  intros [Hnd Hidx]. unfold LRUCache.evict.
  destruct (LRUCache.exists_ s k); simpl; [|by split].
  split; [by apply NoDup_unlink|]. simpl.
  apply set_eq. intros j. rewrite elem_of_difference, elem_of_singleton.
  rewrite Hidx, !elem_of_list_to_set. unfold LRUCache.keys. simpl.
  by rewrite (keys_unlink _ k Hnd j).
Qed.

Lemma wf_moved_to_back (s : LRUCache.t) (k : Z) (e : LRUCacheEntry) :
  LRUCache.wf s -> LRUCache.key e = k ->
  LRUCache.wf {| LRUCache.entries :=
                   LRUCache.unlink k (LRUCache.entries s) ++ [e];
                 LRUCache.index := {[ k ]} ∪ LRUCache.index s |}.
Proof.
  intros [Hnd Hidx] Hk. unfold LRUCache.wf, LRUCache.keys. simpl.
  rewrite fmap_app. simpl. split.
  - apply NoDup_app. split; [by apply NoDup_unlink|]. split.
    + intros j Hj Hin. apply (keys_unlink _ k Hnd) in Hj as [_ Hne].
      apply list_elem_of_singleton in Hin. congruence.
    + apply NoDup_singleton.
  - apply set_eq. intros j.
    rewrite elem_of_union, elem_of_singleton, Hidx, !elem_of_list_to_set.
    rewrite elem_of_app, list_elem_of_singleton, (keys_unlink _ k Hnd j), Hk.
    unfold LRUCache.keys. destruct (Z.eq_dec j k); tauto.
Qed.

Lemma wf_insert (s : LRUCache.t) (k : Z) (v : _SvgCacheEntryInternal) :
  LRUCache.wf s -> LRUCache.wf (LRUCache.insert s k v).
Proof. intros Hwf. by apply wf_moved_to_back. Qed.

Lemma wf_get (s : LRUCache.t) (k : Z) :
  LRUCache.wf s -> LRUCache.wf (LRUCache.get s k).2.
Proof.
  intros Hwf. unfold LRUCache.get.
  destruct (LRUCache.exists_ s k) eqn:Hex; [|exact Hwf].
  destruct (get_hit s k Hwf Hex) as (e & Hnode & Hkey & _).
  rewrite Hnode. simpl.
  replace (LRUCache.index s) with ({[ k ]} ∪ LRUCache.index s).
  - by apply wf_moved_to_back.
  - apply exists_true in Hex. apply set_eq. intros j.
    rewrite elem_of_union, elem_of_singleton. split; [|tauto].
    intros [->|Hj]; auto.
Qed.

Lemma wf_growCacheLoop (page : Z) (chain : list LRUCacheEntry) :
  forall s, LRUCache.wf s -> LRUCache.wf (growCacheLoop page chain s).1.
Proof.
  induction chain as [|e next IH]; intros s Hwf; simpl; [exact Hwf|].
  destruct (colorAttachment (LRUCache.data e) =? page); [|by apply IH].
  pose proof (wf_evict s (LRUCache.key e) Hwf) as Hwf1.
  destruct (LRUCache.evict s (LRUCache.key e)) as [ok s1]. simpl in Hwf1.
  specialize (IH s1 Hwf1). destruct (growCacheLoop page next s1). exact IH.
Qed.

Lemma wf_growCache (c c' : SvgCache) (tr : list Action) :
  growCache c = Some (c', tr) ->
  LRUCache.wf (cachedSvgs c) -> LRUCache.wf (cachedSvgs c').
Proof.
  intros Hg Hwf. rewrite (growCache_store _ _ _ Hg).
  by apply wf_growCacheLoop.
Qed.

Lemma wf_place (Wd Ht : F32.float) (c c2 : SvgCache) (pl : Placement)
    (ptr : list Action) :
  LRUCache.wf (cachedSvgs c) -> place Wd Ht c = Some (c2, pl, ptr) ->
  LRUCache.wf (cachedSvgs c2).
Proof.
  intros Hwf Hp. apply place_inv in Hp as (r & _ & Hcases).
  destruct (shelfStep_fields r c (initialPlacement Wd Ht c)) as (Hs & _).
  rewrite <- Hs in Hwf.
  destruct Hcases as [(_ & -> & _)|[_ Ho]]; [exact Hwf|].
  inversion Ho as [| |maxN probed e rest s' sx sy sw sh _ _ _ _ _ Hev _];
    subst; try by eapply wf_growCache; eauto.
  simpl. pose proof (wf_evict _ (LRUCache.key e) Hwf) as Hwf'.
  by rewrite Hev in Hwf'.
Qed.

Lemma wf_put `{Hasher} (parent : AnimObject) (svg : SvgObject) (w w' : World)
    (tr : list Action) :
  LRUCache.wf (cachedSvgs (svgCache w)) ->
  put parent svg w = Some (w', tr) ->
  LRUCache.wf (cachedSvgs (svgCache w')).
Proof.
  intros Hwf Hp. apply put_inv in Hp as (k & _ & [(-> & _)|Hp]);
    [exact Hwf|].
  destruct Hp as (_ & _ & c2 & pl & ptr & Hpl & _ & -> & _). simpl.
  apply wf_insert. rewrite advanceCursor_store. by apply (wf_place _ _ _ _ _ _ Hwf Hpl).
Qed.

Lemma wf_lookup `{Hasher} (animObj : AnimObject) (c c' : SvgCache)
    (entry : option SvgCacheEntry) :
  LRUCache.wf (cachedSvgs c) -> lookupOwn animObj c = Some (entry, c') ->
  LRUCache.wf (cachedSvgs c').
Proof.
  intros Hwf. unfold lookupOwn. destruct (ownMd5 animObj) as [m|].
  - destruct (hash m (svgScale animObj) (percentReplacementTransformed animObj))
      as [k|]; [|discriminate]. cbn [mbind option_bind].
    unfold getInternal. pose proof (wf_get _ k Hwf) as Hwf'.
    destruct (LRUCache.get (cachedSvgs c) k) as [res s]. intros [= _ <-].
    exact Hwf'.
  - intros [= _ <-]. exact Hwf.
Qed.

Lemma wf_getOrCreateIfNotExist `{Hasher} (animObj : AnimObject)
    (svg : SvgObject) (w w' : World) (e : SvgCacheEntry) (tr : list Action) :
  LRUCache.wf (cachedSvgs (svgCache w)) ->
  getOrCreateIfNotExist animObj svg w = Some (e, w', tr) ->
  LRUCache.wf (cachedSvgs (svgCache w')).
Proof.
  intros Hwf. unfold getOrCreateIfNotExist.
  destruct (lookupOwn animObj (svgCache w)) as [[entry c1]|] eqn:Hl;
    [|discriminate]. cbn [mbind option_bind].
  pose proof (wf_lookup _ _ _ _ Hwf Hl) as Hwf1.
  destruct entry as [e0|]; [intros [= _ <- _]; exact Hwf1|].
  destruct (put animObj svg (set_svgCache w c1)) as [[w1 tr1]|] eqn:Hput;
    [|discriminate]. cbn [mbind option_bind].
  pose proof (wf_put animObj svg (set_svgCache w c1) w1 tr1 Hwf1 Hput) as Hwf2.
  unfold get.
  destruct (lookupOwn animObj (svgCache w1)) as [[entry2 c2]|] eqn:Hl2;
    [|discriminate]. cbn [mbind option_bind].
  intros [= _ <- _]. exact (wf_lookup _ _ _ _ Hwf2 Hl2).
Qed.

(* ================================================================== *)
(** ** Lifecycle of the cache *)
(* ================================================================== *)

Lemma lookupOwn_empty `{Hasher} (animObj : AnimObject) (c c' : SvgCache)
    (entry : option SvgCacheEntry) :
  cachedSvgs c = LRUCache.empty ->
  lookupOwn animObj c = Some (entry, c') -> entry = None /\ c' = c.
Proof.
  intros Hempty. unfold lookupOwn. destruct (ownMd5 animObj) as [m|].
  - destruct (hash m (svgScale animObj) (percentReplacementTransformed animObj))
      as [k|]; [|discriminate]. cbn [mbind option_bind].
    unfold getInternal, LRUCache.get, LRUCache.exists_. rewrite Hempty.
    rewrite bool_decide_eq_false_2 by set_solver.
    rewrite <- Hempty, set_cachedSvgs_id. intros [= <- <-]. auto.
  - intros [= <- <-]. auto.
Qed.

(** X1. After [clearAll] nothing is cached: for every object [exists] is
    false and [get] hands out the dummy 1 x 1 texture without touching the
    cache; the cursor is at the origin of page 0 with an empty shelf, the
    framebuffer is kept, and the GL calls clear every colour attachment
    [0 .. n-1] and no other. *)
Theorem clearAll_forgets `{Hasher} (c : SvgCache) (animObj : AnimObject) :
  let c' := (clearAll c).1 in
  (forall b, exists_ animObj c' = Some b -> b = false) /\
  (forall e c'', get animObj c' = Some (e, c'') -> e = dummyEntry /\ c'' = c') /\
  framebuffer c' = framebuffer c /\
  cacheCurrentPos c' = {| x := F32.zero; y := F32.zero |} /\
  cacheLineHeight c' = F32.zero /\
  cacheCurrentColorAttachment c' = 0 /\
  (forall i, In (GlClearColorAttachment i) (clearAll c).2 <->
             0 <= i < colorAttachments_size (framebuffer c)).
Proof.
  intros c'. split; [|split].
  - intros b. unfold exists_. destruct (ownMd5 animObj) as [m|];
      [|by intros [= <-]].
    destruct (hash m (svgScale animObj) (percentReplacementTransformed animObj))
      as [k|]; [|discriminate]. cbn [mbind option_bind].
    intros [= <-]. unfold existsInternal, LRUCache.exists_. simpl.
    apply bool_decide_eq_false_2. set_solver.
  - intros e c''. unfold get.
    destruct (lookupOwn animObj c') as [[entry c1]|] eqn:Hl; [|discriminate].
    cbn [mbind option_bind]. intros [= <- <-].
    destruct (lookupOwn_empty animObj c' c1 entry eq_refl Hl) as [-> ->]. auto.
  - do 4 (split; [reflexivity|]). intros i. unfold clearAll. cbn [snd].
    rewrite !in_app_iff. split.
    + intros [Hin|[Hin|Hin]].
      * destruct Hin as [Hin|[Hin|[Hin|[]]]]; discriminate Hin.
      * apply list_elem_of_In, list_elem_of_fmap in Hin as (j & [= ->] & Hj).
        apply elem_of_seqZ in Hj. lia.
      * destruct Hin as [Hin|[Hin|[]]]; discriminate Hin.
    + intros Hi. right. left.
      apply list_elem_of_In, list_elem_of_fmap. exists i. split; [done|].
      apply elem_of_seqZ. lia.
Qed.

Lemma clearAll_forgets_witness :
  exists_ objSquare (clearAll (svgCache worldWithSquare)).1 = Some false /\
  exists_ objSquare (svgCache worldWithSquare) = Some true.
Proof.
  split; [|by_computation].
  destruct (clearAll_forgets (svgCache worldWithSquare) objSquare)
    as (Hex & _).
  destruct (exists_ objSquare (clearAll (svgCache worldWithSquare)).1)
    as [b|] eqn:Hb; [|vm_compute in Hb; discriminate Hb].
  by rewrite (Hex b eq_refl).
Defined.

(** X2. [generateDefaultFramebuffer] never builds a page above 4096 pixels
    in either dimension: sizes within the limit are kept; as soon as one
    dimension exceeds it an error is logged and both dimensions become 4096,
    the one that was within the limit included.  It always adds four colour
    attachments and empties the store; [init] builds the 4096 x 4096 cache. *)
Theorem generateDefaultFramebuffer_clamps (w h : Z) (c : SvgCache) :
  let r := generateDefaultFramebuffer w h c in
  let fb := framebuffer r.1 in
  ((w <= 4096 /\ h <= 4096) /\ width fb = w /\ height fb = h /\
   r.2 = [GlGenerateFramebuffer w h 4]
   \/
   (4096 < w \/ 4096 < h) /\ width fb = 4096 /\ height fb = 4096 /\
   r.2 = [GlLogError msgCacheTooBig; GlGenerateFramebuffer 4096 4096 4]) /\
  colorAttachments_size fb = 4 /\
  cachedSvgs r.1 = LRUCache.empty /\
  framebuffer (init c).1 = defaultFramebuffer.
Proof.
  intros r fb. subst r fb. unfold generateDefaultFramebuffer.
  split; [|auto].
  destruct (Z.ltb_spec 4096 w) as [Hw|Hw]; simpl.
  - right. repeat split; auto.
  - destruct (Z.ltb_spec 4096 h) as [Hh|Hh]; simpl.
    + right. repeat split; auto.
    + left. repeat split; auto.
Qed.

(* ================================================================== *)
(** ** [exists] and [get] *)
(* ================================================================== *)

Lemma node_in (l : list LRUCacheEntry) (k : Z) (e : LRUCacheEntry) :
  LRUCache.node k l = Some e -> e ∈ l /\ LRUCache.key e = k.
Proof.
  unfold LRUCache.node. intros Hf. apply find_some in Hf as [Hin Hk].
  split; [by apply list_elem_of_In|by apply Z.eqb_eq].
Qed.

(** X3. [exists] and [get] agree on a well-formed store: when [exists]
    answers true, the object has a shape with a fingerprint, the store holds
    a record under the key [k] hashed from that fingerprint, the object's
    scale and its replacement state, and [get] returns the texture
    coordinates and the colour attachment of that very record, which stays
    cached; when [exists] answers false (also for an object without a shape
    or fingerprint), [get] returns the dummy entry and leaves the cache as
    it is. *)
Theorem exists_get_agree `{Hasher} (animObj : AnimObject) (c : SvgCache)
    (b : bool) :
  LRUCache.wf (cachedSvgs c) ->
  exists_ animObj c = Some b ->
  if b then
    exists m k e c',
      ownMd5 animObj = Some m /\
      hash m (svgScale animObj) (percentReplacementTransformed animObj)
        = Some k /\
      LRUCache.node k (LRUCache.entries (cachedSvgs c)) = Some e /\
      LRUCache.key e = k /\
      get animObj c = Some (viewOf (LRUCache.data e), c') /\
      existsInternal c' k = true
  else get animObj c = Some (dummyEntry, c).
Proof.
  intros Hwf. unfold exists_, get, lookupOwn.
  destruct (ownMd5 animObj) as [m|].
  - destruct (hash m (svgScale animObj) (percentReplacementTransformed animObj))
      as [k|] eqn:Hk; [|discriminate]. cbn [mbind option_bind].
    intros [= <-]. unfold existsInternal, getInternal.
    destruct (LRUCache.exists_ (cachedSvgs c) k) eqn:Hex.
    + destruct (get_hit _ _ Hwf Hex) as (e & Hnode & Hkey & Hget & Hidx & _).
      destruct (LRUCache.get (cachedSvgs c) k) as [res s'] eqn:Hg.
      simpl in Hget, Hidx. subst res. cbn [mbind option_bind default].
      exists m, k, e, (set_cachedSvgs c s').
      do 4 (split; [done|]). split; [reflexivity|].
      apply exists_true. simpl. rewrite Hidx. by apply exists_true.
    + unfold LRUCache.get. rewrite Hex. cbn [mbind option_bind default].
      by rewrite set_cachedSvgs_id.
  - by intros [= <-].
Qed.

Lemma exists_get_agree_witness :
  (exists e c',
     LRUCache.node 12638163380316599253
       (LRUCache.entries (cachedSvgs (svgCache worldWithSquare))) = Some e /\
     get objSquare (svgCache worldWithSquare)
       = Some (viewOf (LRUCache.data e), c')) /\
  get objWide (svgCache worldWithSquare)
    = Some (dummyEntry, svgCache worldWithSquare).
Proof.
  assert (Hwf : LRUCache.wf (cachedSvgs (svgCache worldWithSquare)))
    by wf_by_decision.
  pose proof (exists_get_agree objSquare (svgCache worldWithSquare) true Hwf)
    as Hhit.
  pose proof (exists_get_agree objWide (svgCache worldWithSquare) false Hwf)
    as Hmiss.
  split; [|apply Hmiss; by_computation].
  destruct Hhit as (m & k & e & c' & Hm & Hk & Hnode & _ & Hget & _);
    [by_computation|].
  assert (Hkey : k = 12638163380316599253).
  { injection Hm as <-. vm_compute in Hk. by injection Hk as <-. }
  subst k. exists e, c'. split; [exact Hnode|exact Hget].
Defined.

(* ================================================================== *)
(** ** Page indices stay valid *)
(* ================================================================== *)

Lemma overflow_pages (Wd Ht : F32.float) (c : SvgCache) (pl : Placement)
    (r : SvgCache * Placement * list Action) :
  overflow_outcome Wd Ht c pl r ->
  0 < colorAttachments_size (framebuffer c) ->
  pagesValid c ->
  framebuffer r.1.1 = framebuffer c /\
  pagesValid r.1.1 /\
  0 <= colorAttachmentToRenderTo r.1.2 < colorAttachments_size (framebuffer c).
Proof.
  intros Ho Hn [Hcur Hall].
  assert (Hgrow : forall c2 tr2, growCache c = Some (c2, tr2) ->
            framebuffer c2 = framebuffer c /\
            pagesValid c2 /\
            0 <= cacheCurrentColorAttachment c2
              < colorAttachments_size (framebuffer c)).
  { intros c2 tr2 Hg.
    destruct (growCache_fields _ _ _ Hg) as (Hfb & _ & _ & Hpage).
    assert (Hr : 0 <= cacheCurrentColorAttachment c2
                   < colorAttachments_size (framebuffer c))
      by (rewrite Hpage; by apply Z.mod_pos_bound).
    split; [exact Hfb|]. split; [|exact Hr].
    unfold pagesValid. rewrite Hfb. split; [exact Hr|].
    rewrite Forall_forall in Hall. apply Forall_forall. intros e He.
    apply Hall. by apply (growCache_entries_sub _ _ _ _ Hg). }
  destruct Ho as [maxN probed rest c2 tr2 _ _ _ _ Hg
                 |maxN probed e rest c2 tr2 _ _ _ _ _ _ Hg
                 |maxN probed e rest s' sx sy sw sh _ Hent _ _ _ Hev _]; simpl.
  - by apply (Hgrow _ tr2).
  - by apply (Hgrow _ tr2).
  - rewrite Forall_forall in Hall. split; [reflexivity|]. split.
    + split; [exact Hcur|]. simpl. apply Forall_forall. intros e' He'.
      apply Hall. apply (evict_sub _ (LRUCache.key e)). by rewrite Hev.
    + apply Hall. rewrite Hent. apply elem_of_app. right. left.
Qed.

Lemma place_pages (Wd Ht : F32.float) (c c2 : SvgCache) (pl : Placement)
    (ptr : list Action) :
  0 < colorAttachments_size (framebuffer c) ->
  pagesValid c ->
  place Wd Ht c = Some (c2, pl, ptr) ->
  framebuffer c2 = framebuffer c /\
  pagesValid c2 /\
  0 <= colorAttachmentToRenderTo pl < colorAttachments_size (framebuffer c).
Proof.
  intros Hn Hv Hp. apply place_inv in Hp as (r & _ & Hcases).
  assert (Hstep :
    framebuffer (shelfStep r c (initialPlacement Wd Ht c)).1 = framebuffer c /\
    pagesValid (shelfStep r c (initialPlacement Wd Ht c)).1 /\
    colorAttachmentToRenderTo (shelfStep r c (initialPlacement Wd Ht c)).2 =
      cacheCurrentColorAttachment c).
  { unfold shelfStep. destruct (width (framebuffer c) <=? r); simpl; auto. }
  destruct Hstep as (Hfb & Hv1 & Hpage).
  destruct Hcases as [(_ & -> & -> & _)|[_ Ho]].
  - split; [exact Hfb|]. split; [exact Hv1|]. rewrite Hpage. apply Hv.
  - rewrite <- Hfb in Hn.
    destruct (overflow_pages _ _ _ _ _ Ho Hn Hv1) as (Hfb2 & Hv2 & Hp2).
    simpl in *. rewrite Hfb in Hfb2, Hp2. auto.
Qed.

Lemma lookupOwn_pages `{Hasher} (animObj : AnimObject) (c c' : SvgCache)
    (entry : option SvgCacheEntry) :
  pagesValid c ->
  lookupOwn animObj c = Some (entry, c') ->
  framebuffer c' = framebuffer c /\ pagesValid c' /\
  match entry with
  | Some e => textureValid (framebuffer c) (textureRef e)
  | None => True
  end.
Proof.
  intros Hv. pose proof Hv as [Hcur Hall]. unfold lookupOwn. destruct (ownMd5 animObj) as [m|].
  - destruct (hash m (svgScale animObj) (percentReplacementTransformed animObj))
      as [k|]; [|discriminate]. cbn [mbind option_bind].
    unfold getInternal, LRUCache.get.
    destruct (LRUCache.exists_ (cachedSvgs c) k).
    + destruct (LRUCache.node k (LRUCache.entries (cachedSvgs c)))
        as [e|] eqn:Hnode.
      * apply node_in in Hnode as [Hin _]. intros [= <- <-].
        rewrite Forall_forall in Hall. split; [reflexivity|]. split.
        -- split; [exact Hcur|]. simpl. apply Forall_app. split.
           ++ apply Forall_forall. intros e' He'. apply Hall.
              by apply (unlink_sub _ k).
           ++ constructor; [by apply Hall|constructor].
        -- simpl. by apply Hall.
      * intros [= <- <-]. rewrite set_cachedSvgs_id. by split.
    + intros [= <- <-]. rewrite set_cachedSvgs_id. by split.
  - intros [= <- <-]. by split.
Qed.

Lemma put_pages `{Hasher} (parent : AnimObject) (svg : SvgObject)
    (w w' : World) (tr : list Action) :
  0 < colorAttachments_size (framebuffer (svgCache w)) ->
  pagesValid (svgCache w) ->
  put parent svg w = Some (w', tr) ->
  framebuffer (svgCache w') = framebuffer (svgCache w) /\
  pagesValid (svgCache w') /\
  forall mode scale page offset,
    In (ActRender mode scale page offset) tr ->
    0 <= page < colorAttachments_size (framebuffer (svgCache w)).
Proof.
  intros Hn Hv Hp. apply put_inv in Hp as (k & _ & [(-> & -> & _)|Hp]).
  { split; [reflexivity|]. split; [exact Hv|]. intros ? ? ? ? []. }
  destruct Hp as (_ & _ & c2 & pl & ptr & Hpl & -> & -> & _).
  pose proof (place_actions _ _ _ _ _ _ Hpl) as Hact.
  destruct (place_pages _ _ _ _ _ _ Hn Hv Hpl) as (Hfb & [Hcur Hall] & Hpage).
  assert (Hadv : forall Wd Ht,
            framebuffer (advanceCursor Wd Ht pl c2) = framebuffer c2 /\
            cacheCurrentColorAttachment (advanceCursor Wd Ht pl c2) =
              cacheCurrentColorAttachment c2).
  { intros Wd Ht. unfold advanceCursor. by destruct (incrementX pl). }
  cbn [svgCache framebuffer set_cachedSvgs].
  destruct (Hadv (x (svgTotalSize parent svg)) (y (svgTotalSize parent svg)))
    as [Hfb3 Hcur3].
  split; [by rewrite Hfb3|]. split.
  - unfold pagesValid.
    cbn [framebuffer cachedSvgs cacheCurrentColorAttachment set_cachedSvgs
         LRUCache.insert LRUCache.entries].
    rewrite Hfb3, Hcur3, advanceCursor_store. split; [exact Hcur|].
    apply Forall_app. split.
    + rewrite Forall_forall in Hall. apply Forall_forall. intros e He.
      apply Hall. by apply (unlink_sub _ k).
    + constructor; [|constructor]. simpl. by rewrite Hfb.
  - intros mode scale page offset Hin.
    apply in_app_or in Hin as [Hin|[Hin|[Hin|[]]]]; [|discriminate Hin|].
    + rewrite Forall_forall in Hact. apply list_elem_of_In in Hin.
      apply Hact in Hin. discriminate Hin.
    + injection Hin as _ _ <- _. exact Hpage.
Qed.

(** X4. Page indices stay valid.  When the current page and the page of
    every stored record name one of the framebuffer's colour attachments,
    [getOrCreateIfNotExist] keeps it so through every placement path
    (direct, wrap, slot reuse, page rotation); the texture it returns is the
    dummy or an existing attachment, and every rasterization it starts
    targets an existing attachment.  The framebuffer is never replaced. *)
Theorem attachments_stay_valid `{Hasher} (animObj : AnimObject)
    (svg : SvgObject) (w w' : World) (e : SvgCacheEntry) (tr : list Action) :
  let fb := framebuffer (svgCache w) in
  0 < colorAttachments_size fb ->
  pagesValid (svgCache w) ->
  getOrCreateIfNotExist animObj svg w = Some (e, w', tr) ->
  framebuffer (svgCache w') = fb /\
  pagesValid (svgCache w') /\
  textureValid fb (textureRef e) /\
  forall mode scale page offset,
    In (ActRender mode scale page offset) tr ->
    0 <= page < colorAttachments_size fb.
Proof.
  intros fb Hn Hv. unfold getOrCreateIfNotExist.
  destruct (lookupOwn animObj (svgCache w)) as [[entry c1]|] eqn:Hl;
    [|discriminate]. cbn [mbind option_bind].
  destruct (lookupOwn_pages _ _ _ _ Hv Hl) as (Hfb1 & Hv1 & Htex).
  destruct entry as [e0|].
  { intros [= <- <- <-]. simpl.
    split; [exact Hfb1|]. split; [exact Hv1|]. split; [exact Htex|].
    intros ? ? ? ? []. }
  destruct (put animObj svg (set_svgCache w c1)) as [[w1 tr1]|] eqn:Hput;
    [|discriminate]. cbn [mbind option_bind].
  destruct (put_pages animObj svg (set_svgCache w c1) w1 tr1)
    as (Hfb2 & Hv2 & Hrender); [by simpl; rewrite Hfb1|exact Hv1|exact Hput|].
  simpl in Hfb2. unfold get.
  destruct (lookupOwn animObj (svgCache w1)) as [[entry2 c2]|] eqn:Hl2;
    [|discriminate]. cbn [mbind option_bind].
  destruct (lookupOwn_pages _ _ _ _ Hv2 Hl2) as (Hfb3 & Hv3 & Htex3).
  intros [= <- <- <-]. simpl.
  split; [by rewrite Hfb3, Hfb2, Hfb1|]. split; [exact Hv3|]. split.
  - destruct entry2 as [e2|]; simpl; [|exact I].
    rewrite Hfb2, Hfb1 in Htex3. exact Htex3.
  - intros mode scale page offset Hin. simpl in Hrender. rewrite Hfb1 in Hrender.
    by apply (Hrender mode scale page offset).
Qed.

Lemma attachments_stay_valid_witness :
  exists e w' tr,
    getOrCreateIfNotExist objSquare svgSquare (mkWorld fewAndFull false)
      = Some (e, w', tr) /\
    pagesValid (svgCache w') /\
    textureValid defaultFramebuffer (textureRef e).
Proof.
  assert (Hrun : exists e w' tr,
             getOrCreateIfNotExist objSquare svgSquare
               (mkWorld fewAndFull false) = Some (e, w', tr))
    by (vm_compute; do 3 eexists; reflexivity).
  destruct Hrun as (e & w' & tr & Hrun). exists e, w', tr.
  split; [exact Hrun|].
  destruct (attachments_stay_valid objSquare svgSquare
              (mkWorld fewAndFull false) w' e tr) as (_ & Hv & Ht & _).
  - by_computation.
  - repeat constructor; try (vm_compute; discriminate); by_computation.
  - exact Hrun.
  - split; [exact Hv|exact Ht].
Defined.

(* ================================================================== *)
(** ** What a placement does to the store and to the cursor *)
(* ================================================================== *)

Lemma insert_size_fresh (s : LRUCache.t) (k : Z) (v : _SvgCacheEntryInternal) :
  LRUCache.exists_ s k = false ->
  LRUCache.size (LRUCache.insert s k v) = LRUCache.size s + 1.
Proof.
  intros Hex. apply exists_false in Hex. unfold LRUCache.size. simpl.
  rewrite size_union by set_solver. rewrite size_singleton. lia.
Qed.

Lemma insert_node_other (s : LRUCache.t) (k j : Z)
    (v : _SvgCacheEntryInternal) :
  j <> k ->
  LRUCache.node j (LRUCache.entries (LRUCache.insert s k v)) =
    LRUCache.node j (LRUCache.entries s) /\
  LRUCache.exists_ (LRUCache.insert s k v) j = LRUCache.exists_ s j.
Proof.
  intros Hne. simpl. split.
  - rewrite node_app_other by (simpl; congruence).
    by apply node_unlink_other.
  - unfold LRUCache.exists_. simpl. apply bool_decide_ext. set_solver.
Qed.

Lemma place_direct (Wd Ht : F32.float) (c : SvgCache) (r : Z) :
  newRightX Wd c = Some r ->
  F32.geb (newBottomY Ht (shelfStep r c (initialPlacement Wd Ht c)).2)
    (F32.of_Z (height (framebuffer (shelfStep r c (initialPlacement Wd Ht c)).1)))
    = false ->
  place Wd Ht c =
    Some ((shelfStep r c (initialPlacement Wd Ht c)).1,
          (shelfStep r c (initialPlacement Wd Ht c)).2, []).
Proof.
  intros Hr Hfit. unfold place. rewrite Hr. cbn [mbind option_bind].
  destruct (shelfStep r c (initialPlacement Wd Ht c)) as [c1 pl1].
  simpl in *. by rewrite Hfit.
Qed.

(** X5. A placement that finds room on the page (no vertical overflow after
    the shelf step) evicts nothing and clears nothing: [put] only inserts the
    record and rasterizes it.  Every other key keeps its record, the store
    grows by exactly one entry, the record sits at the cursor the shelf step
    left, and the cursor then moves right by the width plus the padding
    while the shelf height becomes the larger of its old value and the
    rectangle's height. *)
Theorem direct_placement_effects `{Hasher} (parent : AnimObject)
    (svg : SvgObject) (w : World) (k r : Z) :
  let Wd := x (svgTotalSize parent svg) in
  let Ht := y (svgTotalSize parent svg) in
  let c := svgCache w in
  let c1 := (shelfStep r c (initialPlacement Wd Ht c)).1 in
  let pl1 := (shelfStep r c (initialPlacement Wd Ht c)).2 in
  hash (md5Bytes svg) (svgScale parent) (percentReplacementTransformed parent)
    = Some k ->
  existsInternal c k = false ->
  degenerate (svgTotalSize parent svg) = false ->
  newRightX Wd c = Some r ->
  F32.geb (newBottomY Ht pl1) (F32.of_Z (height (framebuffer c1))) = false ->
  exists w' res,
    put parent svg w =
      Some (w', [ActInsert k res;
                 ActRender (dispatchMode w) (svgScale parent)
                   (cacheCurrentColorAttachment c) (cacheCurrentPos c1)]) /\
    textureOffset res = cacheCurrentPos c1 /\
    allottedSize res = {| x := Wd; y := Ht |} /\
    colorAttachment res = cacheCurrentColorAttachment c /\
    LRUCache.size (cachedSvgs (svgCache w')) = LRUCache.size (cachedSvgs c) + 1 /\
    (forall j, j <> k ->
       LRUCache.node j (LRUCache.entries (cachedSvgs (svgCache w'))) =
         LRUCache.node j (LRUCache.entries (cachedSvgs c)) /\
       existsInternal (svgCache w') j = existsInternal c j) /\
    cacheCurrentPos (svgCache w') =
      {| x := F32.add (x (cacheCurrentPos c1)) (F32.add Wd (x cachePadding));
         y := y (cacheCurrentPos c1) |} /\
    cacheLineHeight (svgCache w') = F32.max (cacheLineHeight c1) Ht /\
    cacheCurrentColorAttachment (svgCache w') = cacheCurrentColorAttachment c.
Proof.
  intros Wd Ht c c1 pl1 Hk Hmiss Hdeg Hr Hfit.
  pose proof (place_direct Wd Ht c r Hr Hfit) as Hplace. fold c1 pl1 in Hplace.
  rewrite (put_places parent svg w k _ _ _ Hk Hmiss Hdeg Hplace).
  assert (Hstep : cachedSvgs c1 = cachedSvgs c /\
                  svgTextureOffset pl1 = cacheCurrentPos c1 /\
                  colorAttachmentToRenderTo pl1 = cacheCurrentColorAttachment c /\
                  cacheCurrentColorAttachment c1 = cacheCurrentColorAttachment c /\
                  allotted pl1 = {| x := Wd; y := Ht |} /\
                  incrementX pl1 = true).
  { subst c1 pl1. unfold shelfStep.
    destruct (width (framebuffer c) <=? r); simpl; auto 10. }
  destruct Hstep as (Hs & Hoff & Hpage & Hcur & Hal & Hinc).
  eexists _, _. split.
  { cbn [cacheEntryFor colorAttachment textureOffset]. rewrite Hpage, Hoff.
    reflexivity. }
  fold Wd Ht. unfold advanceCursor. rewrite Hinc.
  cbn [svgCache cachedSvgs set_cachedSvgs cacheCurrentPos cacheLineHeight
       cacheCurrentColorAttachment checkLineHeight incrementCacheCurrentX
       cacheEntryFor textureOffset allottedSize colorAttachment].
  rewrite Hs. repeat split; auto.
  - by apply insert_size_fresh.
  - by apply insert_node_other.
  - unfold existsInternal. cbn [cachedSvgs]. by apply insert_node_other.
Qed.

Lemma direct_placement_effects_witness :
  exists w' res,
    put objSquare svgSquare (mkWorld threeOnTwoPages false) =
      Some (w', [ActInsert 12638163380316599253 res;
                 ActRender Async (svgScale objSquare) 0 (v2 220 0)]) /\
    LRUCache.size (cachedSvgs (svgCache w')) = 4 /\
    cacheCurrentPos (svgCache w') = v2 330 0.
Proof.
  destruct (direct_placement_effects objSquare svgSquare
              (mkWorld threeOnTwoPages false)
              12638163380316599253 330)
    as (w' & res & Hput & _ & _ & _ & Hsize & _ & Hpos & _).
  - by_computation.
  - by_computation.
  - by_computation.
  - by_computation.
  - by_computation.
  - exists w', res. split; [exact Hput|]. split.
    + rewrite Hsize. by_computation.
    + rewrite Hpos. by_computation.
Defined.

Lemma probe_no_scissor (l : list LRUCacheEntry) (page sx sy sw sh : Z) :
  ~ In (ActScissorClear page sx sy sw sh) (probe <$> l).
Proof.
  induction l as [|e l IH]; simpl; [tauto|]. intros [Hin|Hin]; [discriminate|].
  by apply IH.
Qed.

Lemma grow_no_scissor (tr : list Action) (page sx sy sw sh : Z) :
  Forall (fun a => is_grow_action a = true) tr ->
  ~ In (ActScissorClear page sx sy sw sh) tr.
Proof.
  intros Hall Hin. rewrite Forall_forall in Hall.
  apply list_elem_of_In, Hall in Hin. discriminate Hin.
Qed.

(** X6. When [put] takes over a slot (its trace holds the scissored clear),
    the record stored inherits the offset, the allotted size and the page of
    an evicted entry that was large enough; that entry's key is no longer
    in the cache, every other key keeps its record, and the store has as
    many entries as before.  The cursor, the shelf height and the current
    page are left where the shelf step put them: the cursor is not
    advanced by the width. *)
Theorem slot_reuse_effects `{Hasher} (parent : AnimObject) (svg : SvgObject)
    (w w' : World) (tr : list Action) (page sx sy sw sh : Z) :
  let Wd := x (svgTotalSize parent svg) in
  let Ht := y (svgTotalSize parent svg) in
  let c := svgCache w in
  put parent svg w = Some (w', tr) ->
  In (ActScissorClear page sx sy sw sh) tr ->
  exists k res e r,
    In (ActInsert k res) tr /\
    e ∈ LRUCache.entries (cachedSvgs c) /\
    fits Wd Ht e = true /\
    page = colorAttachment (LRUCache.data e) /\
    textureOffset res = textureOffset (LRUCache.data e) /\
    allottedSize res = allottedSize (LRUCache.data e) /\
    colorAttachment res = colorAttachment (LRUCache.data e) /\
    existsInternal (svgCache w') (LRUCache.key e) = false /\
    existsInternal (svgCache w') k = true /\
    (forall j, j <> k -> j <> LRUCache.key e ->
       existsInternal (svgCache w') j = existsInternal c j) /\
    LRUCache.size (cachedSvgs (svgCache w')) = LRUCache.size (cachedSvgs c) /\
    newRightX Wd c = Some r /\
    let c1 := (shelfStep r c (initialPlacement Wd Ht c)).1 in
    cacheCurrentPos (svgCache w') = cacheCurrentPos c1 /\
    cacheLineHeight (svgCache w') = cacheLineHeight c1 /\
    cacheCurrentColorAttachment (svgCache w') = cacheCurrentColorAttachment c.
Proof.
  intros Wd Ht c Hp Hin.
  apply put_inv in Hp as (k & _ & [(_ & -> & _)|Hp]); [destruct Hin|].
  destruct Hp as (Hmiss & _ & c2 & pl & ptr & Hpl & -> & -> & _).
  fold Wd Ht c in Hpl, Hmiss |- *.
  apply in_app_or in Hin as [Hin|[Hin|[Hin|[]]]]; try discriminate Hin.
  apply place_inv in Hpl as (r & Hr & Hcases). fold c in Hcases.
  destruct (shelfStep_fields r c (initialPlacement Wd Ht c))
    as (Hs & _ & Hcur & _ & _).
  destruct Hcases as [(_ & _ & _ & ->)|[_ Ho]]; [destruct Hin|].
  inversion Ho as [maxN probed rest c3 tr3 _ _ _ _ Hg
                  |maxN probed e rest c3 tr3 _ _ _ _ _ _ Hg
                  |maxN probed e rest s' sx' sy' sw' sh' _ Hent _ _ Hfit Hev _];
    subst.
  - exfalso. apply in_app_or in Hin as [Hin|Hin].
    + by apply probe_no_scissor in Hin.
    + by apply (grow_no_scissor _ _ _ _ _ _ (growCache_trace _ _ _ Hg)) in Hin.
  - exfalso. apply in_app_or in Hin as [Hin|Hin];
      [by apply probe_no_scissor in Hin|].
    destruct Hin as [Hin|[Hin|[Hin|Hin]]]; try discriminate Hin.
    by apply (grow_no_scissor _ _ _ _ _ _ (growCache_trace _ _ _ Hg)) in Hin.
  - apply in_app_or in Hin as [Hin|Hin];
      [by apply probe_no_scissor in Hin|].
    destruct Hin as [Hin|[Hin|[Hin|[]]]]; try discriminate Hin.
    injection Hin as <- <- <- <- <-.
    assert (Hex : LRUCache.exists_ (cachedSvgs c) (LRUCache.key e) = true).
    { rewrite <- Hs. unfold LRUCache.evict in Hev.
      destruct (LRUCache.exists_ _ (LRUCache.key e)); [done|discriminate]. }
    assert (Hs' : s' = {| LRUCache.entries :=
                            LRUCache.unlink (LRUCache.key e)
                              (LRUCache.entries (cachedSvgs c));
                          LRUCache.index :=
                            LRUCache.index (cachedSvgs c) ∖ {[LRUCache.key e]} |}).
    { rewrite Hs in Hev. unfold LRUCache.evict in Hev. rewrite Hex in Hev.
      by injection Hev as <-. }
    apply exists_true in Hex. unfold existsInternal in Hmiss.
    apply exists_false in Hmiss.
    assert (Hne : LRUCache.key e <> k) by (intros <-; contradiction).
    assert (Hex' : ({[LRUCache.key e]} : gset Z)
                     ⊆ LRUCache.index (cachedSvgs c)) by set_solver.
    exists k, (cacheEntryFor (framebuffer c) Wd Ht
                 (scissored (reuseSlot e (shelfStep r c
                    (initialPlacement Wd Ht c)).2))), e, r.
    assert (Hfb : framebuffer (shelfStep r c (initialPlacement Wd Ht c)).1
                  = framebuffer c)
      by (unfold shelfStep; by destruct (width (framebuffer c) <=? r)).
    split.
    { apply in_or_app. right. left. cbn [framebuffer set_cachedSvgs].
      by rewrite Hfb. }
    split; [rewrite <- Hs, Hent; apply elem_of_app; right; left|].
    split; [exact Hfit|]. do 4 (split; [reflexivity|]).
    unfold advanceCursor, existsInternal, LRUCache.exists_, LRUCache.size.
    cbn [scissored incrementX svgCache cachedSvgs set_cachedSvgs
         LRUCache.insert LRUCache.index cacheCurrentPos cacheLineHeight
         cacheCurrentColorAttachment].
    rewrite Hs'. cbn [LRUCache.index].
    split; [apply bool_decide_eq_false_2; set_solver|].
    split; [apply bool_decide_eq_true_2; set_solver|].
    split; [intros j Hj1 Hj2; apply bool_decide_ext; set_solver|].
    split.
    { rewrite size_union by set_solver.
      rewrite size_difference by set_solver. rewrite !size_singleton.
      assert (0 < size (LRUCache.index (cachedSvgs c)))%nat; [|lia].
      apply (subseteq_size {[LRUCache.key e]}
               (LRUCache.index (cachedSvgs c))) in Hex' as Hle.
      by rewrite size_singleton in Hle. }
    split; [exact Hr|]. cbv zeta. auto.
Qed.

Lemma slot_reuse_effects_witness :
  exists w' tr e,
    put objSquare svgSquare (mkWorld manyAndFull false) = Some (w', tr) /\
    e ∈ nodes21 /\
    existsInternal (svgCache w') (LRUCache.key e) = false /\
    LRUCache.size (cachedSvgs (svgCache w')) = 21 /\
    cacheCurrentPos (svgCache w') = v2 0 4000.
Proof.
  assert (Hput : exists w' tr,
             put objSquare svgSquare (mkWorld manyAndFull false)
             = Some (w', tr) /\ In (ActScissorClear 0 0 3896 200 200) tr).
  { vm_compute. do 2 eexists. split; [reflexivity|]. simpl. auto. }
  destruct Hput as (w' & tr & Hput & Hin).
  destruct (slot_reuse_effects objSquare svgSquare (mkWorld manyAndFull false)
              w' tr 0 0 3896 200 200 Hput Hin)
    as (k & res & e & r & _ & He & Hfit & _ & _ & _ & _ & Hgone & _ & _
        & Hsize & Hr & Hpos & _).
  assert (r = 110) as -> by (vm_compute in Hr; by injection Hr).
  exists w', tr, e. split; [exact Hput|]. split; [exact He|].
  split; [exact Hgone|].
  split; [rewrite Hsize; by_computation|rewrite Hpos; by_computation].
Defined.

(* ================================================================== *)
(** ** [getOrCreateIfNotExist] on a miss *)
(* ================================================================== *)

Lemma growCache_index_sub (c c' : SvgCache) (tr : list Action) (j : Z) :
  growCache c = Some (c', tr) ->
  j ∈ LRUCache.index (cachedSvgs c') ->
  j ∈ LRUCache.index (cachedSvgs c).
Proof.
  intros Hg. rewrite (growCache_store _ _ _ Hg).
  match goal with |- context [growCacheLoop ?p ?l ?s] =>
    pose proof (growCacheLoop_spec p l s) as (Hi & _);
    destruct (growCacheLoop p l s) as [s' tr'] end.
  simpl in *. rewrite Hi. set_solver.
Qed.

Lemma place_index_sub (Wd Ht : F32.float) (c c2 : SvgCache) (pl : Placement)
    (ptr : list Action) (j : Z) :
  place Wd Ht c = Some (c2, pl, ptr) ->
  j ∈ LRUCache.index (cachedSvgs c2) -> j ∈ LRUCache.index (cachedSvgs c).
Proof.
  intros Hp. apply place_inv in Hp as (r & _ & Hcases).
  destruct (shelfStep_fields r c (initialPlacement Wd Ht c)) as (Hs & _).
  destruct Hcases as [(_ & -> & _ & _)|[_ Ho]]; [by rewrite Hs|].
  rewrite <- Hs.
  inversion Ho as [| |maxN probed e rest s' sx sy sw sh _ _ _ _ _ Hev _]; subst;
    simpl; try (eapply growCache_index_sub; eassumption).
  pose proof (evict_index
                (cachedSvgs (shelfStep r c (initialPlacement Wd Ht c)).1)
                (LRUCache.key e)) as Hi.
  rewrite Hev in Hi. simpl in Hi. rewrite Hi. set_solver.
Qed.

Lemma lookupOwn_inserted `{Hasher} (animObj : AnimObject) (c : SvgCache)
    (m : list Byte.byte) (k : Z) (res : _SvgCacheEntryInternal) :
  ownMd5 animObj = Some m ->
  hash m (svgScale animObj) (percentReplacementTransformed animObj) = Some k ->
  k ∉ LRUCache.key <$> LRUCache.entries (cachedSvgs c) ->
  exists c',
    lookupOwn animObj (set_cachedSvgs c (LRUCache.insert (cachedSvgs c) k res))
      = Some (Some (viewOf res), c') /\
    existsInternal c' k = true.
Proof.
  intros Hm Hk Hfresh. unfold lookupOwn. rewrite Hm, Hk.
  cbn [mbind option_bind]. unfold getInternal, LRUCache.get.
  cbn [cachedSvgs set_cachedSvgs]. rewrite insert_exists.
  cbn [LRUCache.insert LRUCache.entries LRUCache.index].
  rewrite (unlink_absent _ _ Hfresh).
  rewrite (node_moved_to_back _ k {| LRUCache.key := k |} eq_refl Hfresh).
  eexists. split; [reflexivity|].
  unfold existsInternal. apply exists_true. simpl. set_solver.
Qed.

(** X7. Insert / lookup round trip.  When the object has a shape with a
    fingerprint, the shape passed in carries the same fingerprint bytes, and
    that shape is not cached yet and is not degenerate,
    [getOrCreateIfNotExist] places it and returns the coordinates and the
    colour attachment of the very record it has just inserted (not the
    dummy); the key is cached afterwards. *)
Theorem miss_returns_inserted_record `{Hasher} (animObj : AnimObject)
    (svg : SvgObject) (w w' : World) (e : SvgCacheEntry) (tr : list Action)
    (m : list Byte.byte) (k : Z) :
  ownMd5 animObj = Some m ->
  md5Bytes svg = m ->
  hash m (svgScale animObj) (percentReplacementTransformed animObj) = Some k ->
  LRUCache.wf (cachedSvgs (svgCache w)) ->
  existsInternal (svgCache w) k = false ->
  degenerate (svgTotalSize animObj svg) = false ->
  getOrCreateIfNotExist animObj svg w = Some (e, w', tr) ->
  exists pre res,
    tr = pre ++ [ActInsert k res;
                 ActRender (dispatchMode w) (svgScale animObj)
                   (colorAttachment res) (textureOffset res)] /\
    e = viewOf res /\
    textureRef e = ColorAttachmentRef (colorAttachment res) /\
    existsInternal (svgCache w') k = true.
Proof.
  intros Hown Hm Hk Hwf Hmiss Hdeg. unfold getOrCreateIfNotExist.
  rewrite (lookupOwn_miss _ _ _ _ Hown Hk Hmiss). cbn [mbind option_bind].
  rewrite set_svgCache_id.
  destruct (put animObj svg w) as [[w1 tr1]|] eqn:Hput; [|discriminate].
  cbn [mbind option_bind].
  apply put_inv in Hput as (k' & Hk' & Hcases).
  rewrite Hm in Hk'. assert (k' = k) as -> by congruence.
  destruct Hcases as [(_ & _ & [Hex|Hd])|Hcases]; [congruence|congruence|].
  destruct Hcases as (_ & _ & c2 & pl & ptr & Hpl & -> & Hw1 & _).
  assert (Hfresh : k ∉ LRUCache.key <$> LRUCache.entries (cachedSvgs
            (advanceCursor (x (svgTotalSize animObj svg))
               (y (svgTotalSize animObj svg)) pl c2))).
  { rewrite advanceCursor_store. intros Hin.
    apply list_elem_of_fmap in Hin as (e0 & -> & Hin).
    apply (place_entries_sub _ _ _ _ _ _ e0 Hpl) in Hin.
    apply exists_false in Hmiss. apply Hmiss.
    apply (wf_index _ _ Hwf). by apply list_elem_of_fmap_2. }
  unfold get. rewrite Hw1.
  destruct (lookupOwn_inserted animObj _ m k
              (cacheEntryFor (framebuffer c2) (x (svgTotalSize animObj svg))
                 (y (svgTotalSize animObj svg)) pl) Hown Hk Hfresh)
    as (c' & Hl & Hex).
  rewrite Hl. cbn [mbind option_bind default]. intros [= <- <- <-].
  exists ptr, (cacheEntryFor (framebuffer c2) (x (svgTotalSize animObj svg))
                 (y (svgTotalSize animObj svg)) pl).
  split; [reflexivity|]. split; [reflexivity|].
  split; [reflexivity|exact Hex].
Qed.

Lemma miss_returns_inserted_record_witness :
  exists e w' tr res,
    getOrCreateIfNotExist objSquare svgSquare editingWorld = Some (e, w', tr) /\
    e = viewOf res /\ textureRef e = ColorAttachmentRef 0.
Proof.
  assert (Hrun : exists e w' tr,
             getOrCreateIfNotExist objSquare svgSquare editingWorld
             = Some (e, w', tr))
    by (vm_compute; do 3 eexists; reflexivity).
  destruct Hrun as (e & w' & tr & Hrun).
  destruct (miss_returns_inserted_record objSquare svgSquare editingWorld w' e
              tr [Byte.x01] 12638163380316599253)
    as (pre & res & _ & He & Htex & _).
  - reflexivity.
  - reflexivity.
  - by_computation.
  - wf_by_decision.
  - by_computation.
  - by_computation.
  - exact Hrun.
  - exists e, w', tr, res. split; [exact Hrun|]. split; [exact He|].
    vm_compute in Hrun. injection Hrun as <- _ _. reflexivity.
Defined.

(** X8. Degenerate input is skipped.  For a shape whose scaled bounding box
    has a width or height that is not positive, and that is not cached
    under the object's key, [getOrCreateIfNotExist] changes nothing, starts
    no rasterization and returns the dummy entry; [put] is a no-op. *)
Theorem degenerate_shape_is_skipped `{Hasher} (animObj : AnimObject)
    (svg : SvgObject) (w : World) (m : list Byte.byte) (k k' : Z) :
  ownMd5 animObj = Some m ->
  hash m (svgScale animObj) (percentReplacementTransformed animObj) = Some k ->
  hash (md5Bytes svg) (svgScale animObj)
    (percentReplacementTransformed animObj) = Some k' ->
  existsInternal (svgCache w) k = false ->
  degenerate (svgTotalSize animObj svg) = true ->
  put animObj svg w = Some (w, []) /\
  getOrCreateIfNotExist animObj svg w = Some (dummyEntry, w, []).
Proof.
  intros Hown Hk Hk' Hmiss Hdeg.
  assert (Hput : put animObj svg w = Some (w, [])).
  { unfold put. rewrite Hk'.
    cbn [mbind option_bind]. rewrite Hdeg.
    by destruct (existsInternal (svgCache w) k'). }
  split; [exact Hput|]. unfold getOrCreateIfNotExist.
  rewrite (lookupOwn_miss _ _ _ _ Hown Hk Hmiss). cbn [mbind option_bind].
  rewrite set_svgCache_id, Hput. cbn [mbind option_bind]. unfold get.
  rewrite (lookupOwn_miss _ _ _ _ Hown Hk Hmiss). cbn [mbind option_bind].
  by rewrite set_svgCache_id.
Qed.

Lemma degenerate_shape_is_skipped_witness :
  getOrCreateIfNotExist objEmpty svgEmpty worldWithSquare
    = Some (dummyEntry, worldWithSquare, []).
Proof.
  apply (degenerate_shape_is_skipped objEmpty svgEmpty worldWithSquare
           [Byte.x03] 12638165579339853499 12638165579339853499).
  - reflexivity.
  - by_computation.
  - by_computation.
  - by_computation.
  - by_computation.
Defined.

(** X9. The entry returned is looked up under the object's own key, the
    placement is made under the key of the shape passed in.  When the two
    keys differ and the object's key is not cached, [getOrCreateIfNotExist]
    returns the dummy entry whatever it placed, and the object's key is
    still not cached afterwards. *)
Theorem foreign_shape_returns_dummy `{Hasher} (animObj : AnimObject)
    (svg : SvgObject) (w w' : World) (e : SvgCacheEntry) (tr : list Action)
    (m : list Byte.byte) (k k' : Z) :
  ownMd5 animObj = Some m ->
  hash m (svgScale animObj) (percentReplacementTransformed animObj) = Some k ->
  hash (md5Bytes svg) (svgScale animObj)
    (percentReplacementTransformed animObj) = Some k' ->
  k <> k' ->
  existsInternal (svgCache w) k = false ->
  getOrCreateIfNotExist animObj svg w = Some (e, w', tr) ->
  e = dummyEntry /\ existsInternal (svgCache w') k = false.
Proof.
  intros Hown Hk Hk' Hne Hmiss. unfold getOrCreateIfNotExist.
  rewrite (lookupOwn_miss _ _ _ _ Hown Hk Hmiss). cbn [mbind option_bind].
  rewrite set_svgCache_id.
  destruct (put animObj svg w) as [[w1 tr1]|] eqn:Hput; [|discriminate].
  cbn [mbind option_bind].
  assert (Hmiss1 : existsInternal (svgCache w1) k = false).
  { apply put_inv in Hput as (k2 & Hk2 & Hcases).
    assert (k2 = k') as -> by congruence.
    destruct Hcases as [(-> & _)|Hcases]; [exact Hmiss|].
    destruct Hcases as (_ & _ & c2 & pl & ptr & Hpl & _ & -> & _).
    unfold existsInternal. apply exists_false. simpl.
    rewrite advanceCursor_store. intros Hin.
    apply elem_of_union in Hin as [Hin|Hin]; [set_solver|].
    apply (place_index_sub _ _ _ _ _ _ k Hpl) in Hin.
    unfold existsInternal in Hmiss. by apply exists_false in Hmiss. }
  unfold get. rewrite (lookupOwn_miss _ _ _ _ Hown Hk Hmiss1).
  cbn [mbind option_bind default]. intros [= <- <- _].
  by rewrite set_svgCache_id.
Qed.

Lemma foreign_shape_returns_dummy_witness :
  exists w' tr,
    getOrCreateIfNotExist objWide svgSquare editingWorld
      = Some (dummyEntry, w', tr) /\
    renderModes tr = [Async].
Proof.
  assert (Hrun : exists e w' tr,
             getOrCreateIfNotExist objWide svgSquare editingWorld
             = Some (e, w', tr) /\ renderModes tr = [Async])
    by (vm_compute; do 3 eexists; split; reflexivity).
  destruct Hrun as (e & w' & tr & Hrun & Hmodes).
  destruct (foreign_shape_returns_dummy objWide svgSquare editingWorld w' e tr
              [Byte.x02] 12638166678851479790 12638163380316599253)
    as [-> _].
  - reflexivity.
  - by_computation.
  - by_computation.
  - discriminate.
  - by_computation.
  - exact Hrun.
  - exists w', tr. split; [exact Hrun|exact Hmodes].
Defined.

(** X23. An object without a shape, or whose shape has no fingerprint, is
    never handed a cached texture: [getOrCreateIfNotExist] skips the lookup,
    does exactly what [put] does for the shape passed in (which is keyed by
    the fingerprint bytes it carries, none for a shape without fingerprint),
    and returns the dummy entry. *)
Theorem unfingerprinted_object_gets_dummy `{Hasher} (animObj : AnimObject)
    (svg : SvgObject) (w w' : World) (e : SvgCacheEntry) (tr : list Action) :
  ownMd5 animObj = None ->
  getOrCreateIfNotExist animObj svg w = Some (e, w', tr) ->
  e = dummyEntry /\ put animObj svg w = Some (w', tr).
Proof.
  intros Hown. unfold getOrCreateIfNotExist, get, lookupOwn. rewrite Hown.
  cbn [mbind option_bind]. rewrite set_svgCache_id.
  destruct (put animObj svg w) as [[w1 tr1]|]; [|discriminate].
  cbn [mbind option_bind default]. intros [= <- <- <-].
  by rewrite set_svgCache_id.
Qed.

Lemma unfingerprinted_object_gets_dummy_witness :
  exists w' tr res,
    getOrCreateIfNotExist objAnonymous svgAnonymous editingWorld
      = Some (dummyEntry, w', tr) /\
    put objAnonymous svgAnonymous editingWorld = Some (w', tr) /\
    In (ActInsert 14695992197455413454 res) tr.
Proof.
  assert (Hrun : exists e w' tr res,
             getOrCreateIfNotExist objAnonymous svgAnonymous editingWorld
             = Some (e, w', tr) /\
             In (ActInsert 14695992197455413454 res) tr).
  { vm_compute. do 4 eexists. split; [reflexivity|]. left. reflexivity. }
  destruct Hrun as (e & w' & tr & res & Hrun & Hin).
  destruct (unfingerprinted_object_gets_dummy objAnonymous svgAnonymous
              editingWorld w' e tr eq_refl Hrun) as [-> Hput].
  exists w', tr, res. split; [exact Hrun|]. split; [exact Hput|exact Hin].
Defined.

(* ================================================================== *)
(** ** [render] *)
(* ================================================================== *)

(** X10. [render] on an object whose shape is cached issues exactly one
    draw call, textured with the colour attachment and the UV rectangle of
    the cached record, and starts no rasterization; the cache answers
    [exists] for every key as before.  With a null object it does nothing. *)
Theorem render_cached_object `{Hasher} (obj : AnimObject) (props : DrawProps)
    (svg : SvgObject) (w : World) (m : list Byte.byte) (k : Z) :
  ownMd5 obj = Some m ->
  hash m (svgScale obj) (percentReplacementTransformed obj) = Some k ->
  LRUCache.wf (cachedSvgs (svgCache w)) ->
  existsInternal (svgCache w) k = true ->
  exists e w' d,
    LRUCache.node k (LRUCache.entries (cachedSvgs (svgCache w))) = Some e /\
    render (Some (obj, props)) svg w = Some (w', [], [d]) /\
    drawTexture d = ColorAttachmentRef (colorAttachment (LRUCache.data e)) /\
    drawUv d = (texCoordsMin (LRUCache.data e), texCoordsMax (LRUCache.data e)) /\
    (forall j, existsInternal (svgCache w') j = existsInternal (svgCache w) j) /\
    render None svg w = Some (w, [], []).
Proof.
  intros Hm Hk Hwf Hex.
  destruct (get_hit _ _ Hwf Hex) as (e & Hnode & Hkey & Hget & Hidx & _).
  assert (Hrun : getOrCreateIfNotExist obj svg w =
            Some (viewOf (LRUCache.data e),
                  set_svgCache w (set_cachedSvgs (svgCache w)
                    (LRUCache.get (cachedSvgs (svgCache w)) k).2), [])).
  { unfold getOrCreateIfNotExist, lookupOwn. rewrite Hm, Hk.
    cbn [mbind option_bind]. unfold getInternal.
    destruct (LRUCache.get (cachedSvgs (svgCache w)) k) as [res s'].
    simpl in Hget. subst res. reflexivity. }
  unfold render. rewrite Hrun. cbn [mbind option_bind].
  eexists e, _, _. split; [exact Hnode|]. split; [reflexivity|].
  split; [|split; [|split; [|reflexivity]]].
  - destruct (is3D props); [reflexivity|].
    by destruct (fillColor props) as [[[? ?] ?] ?].
  - destruct (is3D props); [reflexivity|].
    by destruct (fillColor props) as [[[? ?] ?] ?].
  - intros j. unfold existsInternal, LRUCache.exists_. simpl. by rewrite Hidx.
Qed.

Lemma render_cached_object_witness :
  exists w' d,
    render (Some (objSquare, flatWhite)) svgSquare worldWithSquare
      = Some (w', [], [d]) /\
    drawTexture d = ColorAttachmentRef 0.
Proof.
  destruct (render_cached_object objSquare flatWhite svgSquare worldWithSquare
              [Byte.x01] 12638163380316599253)
    as (e & w' & d & Hnode & Hrun & Htex & _).
  - reflexivity.
  - by_computation.
  - wf_by_decision.
  - by_computation.
  - exists w', d. split; [exact Hrun|]. rewrite Htex.
    vm_compute in Hnode. injection Hnode as <-. reflexivity.
Defined.

(* ================================================================== *)
(** ** Page rotation seen from [put] *)
(* ================================================================== *)

Lemma growCacheLoop_no_clear (page P : Z) (chain : list LRUCacheEntry) :
  forall s, ~ In (ActClearPage P) (growCacheLoop page chain s).2.
Proof.
  induction chain as [|e next IH]; intros s; simpl; [tauto|].
  destruct (colorAttachment (LRUCache.data e) =? page); [|apply IH].
  destruct (LRUCache.evict s (LRUCache.key e)) as [ok s1].
  specialize (IH s1). destruct (growCacheLoop page next s1) as [s2 tr].
  simpl in *. intros [Hin|Hin]; [discriminate|].
  apply in_app_or in Hin as [Hin|Hin]; [|by apply IH].
  destruct ok; simpl in Hin; [tauto|]. destruct Hin as [Hin|[]]; discriminate.
Qed.

Lemma growCache_clears_only (c c' : SvgCache) (tr : list Action) (P : Z) :
  growCache c = Some (c', tr) ->
  In (ActClearPage P) tr ->
  P = cacheCurrentColorAttachment c'.
Proof.
  intros Hg. apply growCache_Some in Hg as [_ Hg]. unfold growCacheTo in Hg.
  match type of Hg with context [growCacheLoop ?p ?l ?s] =>
    pose proof (growCacheLoop_no_clear p P l s) as Hno;
    destruct (growCacheLoop p l s) as [s' tr'] end.
  injection Hg as -> ->.
  simpl in *. intros Hin. apply in_app_or in Hin as [Hin|[Hin|[]]]; [tauto|].
  by injection Hin.
Qed.

Lemma probe_no_clear (l : list LRUCacheEntry) (P : Z) :
  ~ In (ActClearPage P) (probe <$> l).
Proof.
  induction l as [|e l IH]; simpl; [tauto|]. intros [Hin|Hin]; [discriminate|].
  by apply IH.
Qed.

(** What a rotating overflow branch returns: the placement is the cursor of
    the page just cleared, and no slot was scissored. *)
Lemma overflow_rotation (Wd Ht : F32.float) (c : SvgCache) (pl pl' : Placement)
    (c2 : SvgCache) (ptr : list Action) (P : Z) :
  overflow_outcome Wd Ht c pl (c2, pl', ptr) ->
  In (ActClearPage P) ptr ->
  (exists tr2, growCache c = Some (c2, tr2)) /\
  P = cacheCurrentColorAttachment c2 /\
  svgTextureOffset pl' = cacheCurrentPos c2 /\
  colorAttachmentToRenderTo pl' = cacheCurrentColorAttachment c2 /\
  incrementX pl' = incrementX pl /\
  forall page sx sy sw sh, ~ In (ActScissorClear page sx sy sw sh) ptr.
Proof.
  intros Ho Hin.
  inversion Ho as [maxN probed rest c3 tr3 _ _ _ _ Hg
                  |maxN probed e rest c3 tr3 _ _ _ _ _ _ Hg
                  |maxN probed e rest s' sx' sy' sw' sh' _ _ _ _ _ _ _];
    subst.
  - apply in_app_or in Hin as [Hin|Hin]; [by apply probe_no_clear in Hin|].
    apply (growCache_clears_only _ _ _ _ Hg) in Hin.
    split; [by exists tr3|].
    repeat split; try done. intros page sx sy sw sh Hs.
    apply in_app_or in Hs as [Hs|Hs]; [by apply probe_no_scissor in Hs|].
    by apply (grow_no_scissor _ _ _ _ _ _ (growCache_trace _ _ _ Hg)) in Hs.
  - apply in_app_or in Hin as [Hin|Hin]; [by apply probe_no_clear in Hin|].
    destruct Hin as [Hin|[Hin|[Hin|Hin]]]; try discriminate Hin.
    apply (growCache_clears_only _ _ _ _ Hg) in Hin.
    split; [by exists tr3|].
    repeat split; try done. intros page sx sy sw sh Hs.
    apply in_app_or in Hs as [Hs|Hs]; [by apply probe_no_scissor in Hs|].
    destruct Hs as [Hs|[Hs|[Hs|Hs]]]; try discriminate Hs.
    by apply (grow_no_scissor _ _ _ _ _ _ (growCache_trace _ _ _ Hg)) in Hs.
  - exfalso.
    apply in_app_or in Hin as [Hin|Hin]; [by apply probe_no_clear in Hin|].
    destruct Hin as [Hin|[Hin|[Hin|[]]]]; discriminate Hin.
Qed.

(** X11. When [put] rotates to a new page (its trace holds the clear of a
    whole page [P]), the framebuffer has at least one colour attachment (with
    none the rotation divides by zero and [put] has no result) and [P] is the
    page after the current one modulo the number of attachments; the record
    is stored at the origin of [P], the cursor
    ends at the origin moved right by the width plus the padding, and no
    slot is scissored.  The shelf height is not reset: it becomes the larger
    of the height the shelf step left and the rectangle's height.  No key
    other than the new one appears in the cache. *)
Theorem rotation_restarts_page `{Hasher} (parent : AnimObject)
    (svg : SvgObject) (w w' : World) (tr : list Action) (P : Z) :
  let Wd := x (svgTotalSize parent svg) in
  let Ht := y (svgTotalSize parent svg) in
  let c := svgCache w in
  put parent svg w = Some (w', tr) ->
  In (ActClearPage P) tr ->
  exists k res r,
    In (ActInsert k res) tr /\
    newRightX Wd c = Some r /\
    colorAttachments_size (framebuffer c) <> 0 /\
    P = ((cacheCurrentColorAttachment c + 1) mod 2 ^ 64)
          mod colorAttachments_size (framebuffer c) /\
    colorAttachment res = P /\
    textureOffset res = {| x := F32.zero; y := F32.zero |} /\
    cacheCurrentColorAttachment (svgCache w') = P /\
    cacheCurrentPos (svgCache w') =
      {| x := F32.add F32.zero (F32.add Wd (x cachePadding));
         y := F32.zero |} /\
    cacheLineHeight (svgCache w') =
      F32.max (cacheLineHeight (shelfStep r c (initialPlacement Wd Ht c)).1)
        Ht /\
    (forall j, existsInternal (svgCache w') j = true ->
               j = k \/ existsInternal c j = true) /\
    (forall page sx sy sw sh, ~ In (ActScissorClear page sx sy sw sh) tr).
Proof.
  intros Wd Ht c Hp Hin.
  apply put_inv in Hp as (k & _ & [(_ & -> & _)|Hp]); [destruct Hin|].
  destruct Hp as (_ & _ & c2 & pl & ptr & Hpl & -> & -> & _).
  fold Wd Ht c in Hpl |- *.
  pose proof (fun j => place_index_sub _ _ _ _ _ _ j Hpl) as Hsub.
  apply in_app_or in Hin as [Hin|[Hin|[Hin|[]]]]; try discriminate Hin.
  apply place_inv in Hpl as (r & Hr & Hcases). fold c in Hcases.
  destruct (shelfStep_fields r c (initialPlacement Wd Ht c))
    as (_ & Hfb & Hcur & _ & Hinc).
  destruct Hcases as [(_ & _ & _ & ->)|[_ Ho]]; [destruct Hin|].
  destruct (overflow_rotation _ _ _ _ _ _ _ _ Ho Hin)
    as ([tr2 Hg] & -> & Hoff & Hpage & Hincx & Hnos).
  destruct (growCache_fields _ _ _ Hg) as (_ & Hpos & Hlh & Hnew).
  pose proof (proj1 (growCache_Some _ _ _ Hg)) as Hsize.
  rewrite Hfb in Hsize.
  rewrite Hfb, Hcur in Hnew. rewrite Hinc in Hincx. simpl in Hincx.
  exists k, (cacheEntryFor (framebuffer c2) Wd Ht pl), r.
  split; [apply in_or_app; right; left; reflexivity|].
  split; [exact Hr|]. split; [exact Hsize|]. split; [exact Hnew|].
  split; [exact Hpage|]. split; [cbn [cacheEntryFor textureOffset]; congruence|].
  unfold advanceCursor. rewrite Hincx.
  cbn [svgCache set_cachedSvgs checkLineHeight incrementCacheCurrentX
       cacheCurrentColorAttachment cacheCurrentPos cacheLineHeight cachedSvgs].
  split; [reflexivity|]. rewrite Hpos, Hlh.
  split; [reflexivity|]. split; [reflexivity|].
  split.
  - intros j. unfold existsInternal, LRUCache.exists_.
    cbn [cachedSvgs LRUCache.insert LRUCache.index].
    rewrite !bool_decide_eq_true. intros [Hj|Hj]%elem_of_union.
    + left. set_solver.
    + right. by apply Hsub.
  - intros page sx sy sw sh Hs. apply in_app_or in Hs as [Hs|Hs].
    + by apply Hnos in Hs.
    + destruct Hs as [Hs|[Hs|[]]]; discriminate Hs.
Qed.

Lemma rotation_restarts_page_witness :
  exists w' tr,
    put objSquare svgSquare (mkWorld fewAndFull false) = Some (w', tr) /\
    In (ActClearPage 1) tr /\
    cacheCurrentColorAttachment (svgCache w') = 1 /\
    cacheCurrentPos (svgCache w') = v2 110 0 /\
    cacheLineHeight (svgCache w') = F32.of_Z 100.
Proof.
  assert (Hput : exists w' tr,
             put objSquare svgSquare (mkWorld fewAndFull false)
             = Some (w', tr) /\ In (ActClearPage 1) tr).
  { vm_compute. do 2 eexists. split; [reflexivity|]. simpl. auto. }
  destruct Hput as (w' & tr & Hput & Hin).
  destruct (rotation_restarts_page objSquare svgSquare
              (mkWorld fewAndFull false) w' tr 1 Hput Hin)
    as (k & res & r & _ & Hr & _ & _ & _ & _ & Hpage & Hpos & Hlh & _).
  assert (r = 110) as -> by (vm_compute in Hr; by injection Hr).
  exists w', tr. split; [exact Hput|]. split; [exact Hin|].
  split; [exact Hpage|].
  split; [rewrite Hpos; by_computation|rewrite Hlh; by_computation].
Defined.

(* ================================================================== *)
(** ** Stored records are never rewritten *)
(* ================================================================== *)

Lemma get_entries_sub (s : LRUCache.t) (k : Z) (e : LRUCacheEntry) :
  e ∈ LRUCache.entries (LRUCache.get s k).2 -> e ∈ LRUCache.entries s.
Proof.
  unfold LRUCache.get. destruct (LRUCache.exists_ s k); [|done].
  destruct (LRUCache.node k (LRUCache.entries s)) as [e0|] eqn:Hn; [|done].
  simpl. intros [Hin|Hin]%elem_of_app.
  - by apply unlink_sub in Hin.
  - apply list_elem_of_singleton in Hin as ->. by apply node_in in Hn as [? _].
Qed.

Lemma lookupOwn_entries_sub `{Hasher} (animObj : AnimObject) (c c' : SvgCache)
    (entry : option SvgCacheEntry) (e : LRUCacheEntry) :
  lookupOwn animObj c = Some (entry, c') ->
  e ∈ LRUCache.entries (cachedSvgs c') -> e ∈ LRUCache.entries (cachedSvgs c).
Proof.
  unfold lookupOwn. destruct (ownMd5 animObj) as [m|].
  - destruct (hash m (svgScale animObj) (percentReplacementTransformed animObj))
      as [k|]; [|discriminate]. cbn [mbind option_bind].
    unfold getInternal. pose proof (get_entries_sub (cachedSvgs c) k e) as Hsub.
    destruct (LRUCache.get (cachedSvgs c) k) as [res s]. intros [= _ <-].
    exact Hsub.
  - by intros [= _ <-].
Qed.

Lemma put_entries `{Hasher} (parent : AnimObject) (svg : SvgObject)
    (w w' : World) (tr : list Action) (e : LRUCacheEntry) :
  put parent svg w = Some (w', tr) ->
  e ∈ LRUCache.entries (cachedSvgs (svgCache w')) ->
  e ∈ LRUCache.entries (cachedSvgs (svgCache w)) \/
  In (ActInsert (LRUCache.key e) (LRUCache.data e)) tr.
Proof.
  intros Hp.
  apply put_inv in Hp as (k & _ & [(-> & _ & _)|Hp]); [by left|].
  destruct Hp as (_ & _ & c2 & pl & ptr & Hpl & -> & -> & _).
  cbn [cachedSvgs set_cachedSvgs LRUCache.insert LRUCache.entries].
  rewrite advanceCursor_store. intros [Hin|Hin]%elem_of_app.
  - left. apply unlink_sub in Hin. by apply (place_entries_sub _ _ _ _ _ _ _ Hpl).
  - right. apply list_elem_of_singleton in Hin as ->.
    apply in_or_app. right. left. reflexivity.
Qed.

(** X12. Stored records are never rewritten.  Every record in the store
    after [getOrCreateIfNotExist] was in the store before, with the same key
    and the same contents, or is the record the call has just inserted: a
    lookup only changes recency, and a placement only removes records and
    adds the new one.  Texture coordinates handed out earlier therefore
    stay those of their key for as long as the key is cached. *)
Theorem records_never_rewritten `{Hasher} (animObj : AnimObject)
    (svg : SvgObject) (w w' : World) (r : SvgCacheEntry) (tr : list Action)
    (e : LRUCacheEntry) :
  getOrCreateIfNotExist animObj svg w = Some (r, w', tr) ->
  e ∈ LRUCache.entries (cachedSvgs (svgCache w')) ->
  e ∈ LRUCache.entries (cachedSvgs (svgCache w)) \/
  In (ActInsert (LRUCache.key e) (LRUCache.data e)) tr.
Proof.
  unfold getOrCreateIfNotExist.
  destruct (lookupOwn animObj (svgCache w)) as [[entry c1]|] eqn:Hl;
    [|discriminate]. cbn [mbind option_bind].
  destruct entry as [e0|].
  { intros [= _ <- _] Hin. left. by apply (lookupOwn_entries_sub _ _ _ _ _ Hl). }
  destruct (put animObj svg (set_svgCache w c1)) as [[w1 tr1]|] eqn:Hput;
    [|discriminate]. cbn [mbind option_bind].
  unfold get.
  destruct (lookupOwn animObj (svgCache w1)) as [[entry2 c2]|] eqn:Hl2;
    [|discriminate]. cbn [mbind option_bind].
  intros [= _ <- <-] Hin. cbn [svgCache set_svgCache] in Hin.
  apply (lookupOwn_entries_sub _ _ _ _ _ Hl2) in Hin.
  destruct (put_entries _ _ _ _ _ _ Hput Hin) as [Hold|Hnew]; [|by right].
  left. by apply (lookupOwn_entries_sub _ _ _ _ _ Hl).
Qed.

Lemma records_never_rewritten_witness :
  exists r w' tr,
    getOrCreateIfNotExist objSquare svgSquare (mkWorld manyAndFull false)
      = Some (r, w', tr) /\
    (mkNode 5 0 0 0 200 200 ∈ LRUCache.entries (cachedSvgs manyAndFull) \/
     In (ActInsert 5 (LRUCache.data (mkNode 5 0 0 0 200 200))) tr).
Proof.
  assert (Hrun : exists r w' tr,
             getOrCreateIfNotExist objSquare svgSquare
               (mkWorld manyAndFull false) = Some (r, w', tr) /\
             mkNode 5 0 0 0 200 200
               ∈ LRUCache.entries (cachedSvgs (svgCache w'))).
  { vm_compute. do 3 eexists. split; [reflexivity|].
    apply list_elem_of_In. simpl. auto 10. }
  destruct Hrun as (r & w' & tr & Hrun & Hin).
  exists r, w', tr. split; [exact Hrun|].
  exact (records_never_rewritten objSquare svgSquare
           (mkWorld manyAndFull false) w' r tr _ Hrun Hin).
Defined.

(* ================================================================== *)
(** ** Which slot is taken over *)
(* ================================================================== *)

Lemma scissorBox_inv (fb : Framebuffer) (pl : Placement) (sx sy sw sh : Z) :
  scissorBox fb pl = Some (sx, sy, sw, sh) ->
  F32.to_int (x (svgTextureOffset pl)) = Some sx /\
  F32.to_int (F32.sub (F32.sub (F32.of_Z (height fb))
                         (y (svgTextureOffset pl)))
                (y (allotted pl))) = Some sy /\
  F32.to_int (x (allotted pl)) = Some sw /\
  F32.to_int (y (allotted pl)) = Some sh.
Proof.
  unfold scissorBox.
  destruct (F32.to_int (x (svgTextureOffset pl))); [|discriminate].
  cbn [mbind option_bind].
  destruct (F32.to_int (F32.sub _ _)); [|discriminate].
  cbn [mbind option_bind].
  destruct (F32.to_int (x (allotted pl))); [|discriminate].
  cbn [mbind option_bind].
  destruct (F32.to_int (y (allotted pl))); [|discriminate].
  cbn [mbind option_bind]. by intros [= -> -> -> ->].
Qed.

(** X13. The slot taken over is the least recently used one that is large
    enough.  When [put] reuses a slot, the recency list splits into entries
    that were each inspected and found too small, followed by the evicted
    entry, which fits; exactly these entries were inspected, oldest first.
    The scissored clear covers that entry's slot: its offset and allotted
    size cast to integers, the vertical origin flipped against the height
    of the framebuffer. *)
Theorem reuse_takes_oldest_fitting `{Hasher} (parent : AnimObject)
    (svg : SvgObject) (w w' : World) (tr : list Action)
    (page sx sy sw sh : Z) :
  let Wd := x (svgTotalSize parent svg) in
  let Ht := y (svgTotalSize parent svg) in
  let c := svgCache w in
  put parent svg w = Some (w', tr) ->
  In (ActScissorClear page sx sy sw sh) tr ->
  exists probed e rest,
    LRUCache.entries (cachedSvgs c) = probed ++ e :: rest /\
    Forall (fun n => fits Wd Ht n = false) probed /\
    fits Wd Ht e = true /\
    probes tr = LRUCache.key <$> (probed ++ [e]) /\
    In (ActEvict (LRUCache.key e) true) tr /\
    page = colorAttachment (LRUCache.data e) /\
    F32.to_int (x (textureOffset (LRUCache.data e))) = Some sx /\
    F32.to_int (F32.sub (F32.sub (F32.of_Z (height (framebuffer c)))
                           (y (textureOffset (LRUCache.data e))))
                  (y (allottedSize (LRUCache.data e)))) = Some sy /\
    F32.to_int (x (allottedSize (LRUCache.data e))) = Some sw /\
    F32.to_int (y (allottedSize (LRUCache.data e))) = Some sh.
Proof.
  intros Wd Ht c Hp Hin.
  apply put_inv in Hp as (k & _ & [(_ & -> & _)|Hp]); [destruct Hin|].
  destruct Hp as (_ & _ & c2 & pl & ptr & Hpl & -> & _ & _).
  fold Wd Ht c in Hpl |- *.
  apply in_app_or in Hin as [Hin|[Hin|[Hin|[]]]]; try discriminate Hin.
  apply place_inv in Hpl as (r & Hr & Hcases). fold c in Hcases.
  destruct (shelfStep_fields r c (initialPlacement Wd Ht c))
    as (Hs & Hfb & _).
  destruct Hcases as [(_ & _ & _ & ->)|[_ Ho]]; [destruct Hin|].
  inversion Ho as [maxN probed rest c3 tr3 _ _ _ _ Hg
                  |maxN probed e rest c3 tr3 _ _ _ _ _ _ Hg
                  |maxN probed e rest s' sx' sy' sw' sh' _ Hent Hall _ Hfit _
                     Hbox];
    subst.
  - exfalso. apply in_app_or in Hin as [Hin|Hin].
    + by apply probe_no_scissor in Hin.
    + by apply (grow_no_scissor _ _ _ _ _ _ (growCache_trace _ _ _ Hg)) in Hin.
  - exfalso. apply in_app_or in Hin as [Hin|Hin];
      [by apply probe_no_scissor in Hin|].
    destruct Hin as [Hin|[Hin|[Hin|Hin]]]; try discriminate Hin.
    by apply (grow_no_scissor _ _ _ _ _ _ (growCache_trace _ _ _ Hg)) in Hin.
  - apply in_app_or in Hin as [Hin|Hin];
      [by apply probe_no_scissor in Hin|].
    destruct Hin as [Hin|[Hin|[Hin|[]]]]; try discriminate Hin.
    injection Hin as <- <- <- <- <-.
    apply scissorBox_inv in Hbox as (Hx & Hy & Hw & Hh).
    cbn [reuseSlot svgTextureOffset allotted] in Hx, Hy, Hw, Hh.
    rewrite Hfb in Hy. rewrite Hs in Hent.
    exists probed, e, rest. split; [exact Hent|]. split; [exact Hall|].
    split; [exact Hfit|].
    split.
    { rewrite !probes_app, probes_probe, fmap_app. simpl.
      by rewrite app_nil_r. }
    split.
    { apply in_or_app. left. apply in_or_app. right. right. left.
      reflexivity. }
    auto.
Qed.

Lemma reuse_takes_oldest_fitting_witness :
  exists w' tr,
    put objSquare svgSquare (mkWorld manyAndFull false) = Some (w', tr) /\
    probes tr = [0] /\ In (ActEvict 0 true) tr.
Proof.
  assert (Hput : exists w' tr,
             put objSquare svgSquare (mkWorld manyAndFull false)
             = Some (w', tr) /\ In (ActScissorClear 0 0 3896 200 200) tr).
  { vm_compute. do 2 eexists. split; [reflexivity|]. simpl. auto. }
  destruct Hput as (w' & tr & Hput & Hin).
  destruct (reuse_takes_oldest_fitting objSquare svgSquare
              (mkWorld manyAndFull false) w' tr 0 0 3896 200 200 Hput Hin)
    as (probed & e & rest & Hent & Hall & _ & Hprobes & Hev & _).
  exists w', tr. split; [exact Hput|].
  destruct probed as [|n probed].
  - simpl in Hent. vm_compute in Hent. injection Hent as <- _.
    split; [exact Hprobes|exact Hev].
  - exfalso. simpl in Hent. vm_compute in Hent. injection Hent as <- _.
    apply Forall_cons in Hall as [Hn _]. vm_compute in Hn. discriminate Hn.
Defined.

(* ================================================================== *)
(** ** TextureCache: reference counting *)
(* ================================================================== *)

Lemma set_refCount_same `{TP : TexturePlatform} (ct : TextureCache.CachedTexture) :
  TextureCache.set_refCount ct (TextureCache.refCount ct) = ct.
Proof. by destruct ct. Qed.

Lemma consistent_paths_inj `{TP : TexturePlatform} (st : TextureCache.t)
    (h h' : Z) (ct ct' : TextureCache.CachedTexture) :
  TextureCache.consistent st ->
  TextureCache.cachedTextures st !! h = Some ct ->
  TextureCache.cachedTextures st !! h' = Some ct' ->
  TextureCache.absPath ct = TextureCache.absPath ct' -> h = h'.
Proof.
  intros [_ Ht] Hh Hh' Hp.
  destruct (Ht _ _ Hh) as [H1 _]. destruct (Ht _ _ Hh') as [H2 _].
  rewrite Hp in H1. congruence.
Qed.

(** X14. [init] and [free] leave a consistent, empty cache, and
    [loadTexture] keeps the two maps consistent: provided the GPU hands out
    an id that is not in use and the reference count has room, the call
    never fails its assertion, the path is cached under the handle returned,
    and [getTexture] on that handle returns the cached texture without an
    error. *)
Theorem loadTexture_keeps_consistent `{TP : TexturePlatform}
    (imageFilepath : string) (options : TextureLoadOptions)
    (generated : Texture) (st : TextureCache.t) :
  let p := stringToAbsPath imageFilepath in
  TextureCache.consistent st ->
  (TextureCache.cachedTexturePaths st !! p = None ->
   TextureCache.cachedTextures st !! graphicsId generated = None) ->
  (forall h ct, TextureCache.cachedTextures st !! h = Some ct ->
                TextureCache.refCount ct + 1 < 2 ^ 32) ->
  TextureCache.consistent (TextureCache.init st) /\
  TextureCache.consistent (TextureCache.free st).1 /\
  exists h st' tr ct,
    TextureCache.loadTexture imageFilepath options generated st
      = Some (h, st', tr) /\
    TextureCache.consistent st' /\
    TextureCache.cachedTexturePaths st' !! p = Some h /\
    TextureCache.cachedTextures st' !! h = Some ct /\
    TextureCache.getTexture h st' = (TextureCache.texture ct, []).
Proof.
  intros p Hc Hfresh Hroom.
  split; [split; simpl; intros ? ? Hl; by rewrite lookup_empty in Hl|].
  split; [split; simpl; intros ? ? Hl; by rewrite lookup_empty in Hl|].
  destruct Hc as [Hp Ht]. unfold TextureCache.loadTexture. fold p.
  destruct (TextureCache.cachedTexturePaths st !! p) as [h|] eqn:Hlook.
  - destruct (Hp _ _ Hlook) as (ct & Hct & Hpath). rewrite Hct.
    destruct (Ht _ _ Hct) as [_ Hrc]. pose proof (Hroom _ _ Hct) as Hr.
    eexists h, _, [], _. split; [reflexivity|].
    split; [|split; [exact Hlook|]].
    + split; simpl.
      * intros q h' Hq. destruct (Hp _ _ Hq) as (ct' & Hct' & Hq').
        destruct (decide (h = h')) as [<-|Hne].
        -- rewrite lookup_insert_eq. eexists. split; [reflexivity|].
           simpl. congruence.
        -- rewrite lookup_insert_ne by done. eauto.
      * intros h' ct'. destruct (decide (h = h')) as [<-|Hne].
        -- rewrite lookup_insert_eq. intros [= <-]. simpl.
           rewrite Hpath. split; [exact Hlook|].
           rewrite Z.mod_small by lia. lia.
        -- rewrite lookup_insert_ne by done. apply Ht.
    + split; [simpl; apply lookup_insert_eq|].
      unfold TextureCache.getTexture. simpl. by rewrite lookup_insert_eq.
  - specialize (Hfresh eq_refl).
    eexists (graphicsId generated), _, _, _. split; [reflexivity|].
    split; [|split; [simpl; apply lookup_insert_eq|]].
    + split; simpl.
      * intros q h'. destruct (decide (p = q)) as [<-|Hne].
        -- rewrite lookup_insert_eq. intros [= <-].
           rewrite lookup_insert_eq. eauto.
        -- rewrite lookup_insert_ne by done. intros Hq.
           destruct (Hp _ _ Hq) as (ct' & Hct' & Hq').
           rewrite lookup_insert_ne by congruence. eauto.
      * intros h' ct'.
        destruct (decide (graphicsId generated = h')) as [<-|Hne].
        -- rewrite lookup_insert_eq. intros [= <-]. simpl.
           rewrite lookup_insert_eq. split; [reflexivity|lia].
        -- rewrite lookup_insert_ne by done. intros Hct'.
           destruct (Ht _ _ Hct') as [Hq Hrc]. split; [|exact Hrc].
           rewrite lookup_insert_ne; [exact Hq|]. intros Heq.
           rewrite Heq, Hq in Hlook. discriminate Hlook.
    + split; [simpl; apply lookup_insert_eq|].
      unfold TextureCache.getTexture. simpl. by rewrite lookup_insert_eq.
Qed.

Lemma loadTexture_keeps_consistent_witness :
  exists h st' tr,
    TextureCache.loadTexture (TP := refPlatform) "a.png" tt 7 noTextures = Some (h, st', tr) /\
    TextureCache.consistent st'.
Proof.
  destruct (loadTexture_keeps_consistent (TP := refPlatform) "a.png" tt 7 noTextures)
    as (_ & _ & h & st' & tr & _ & Hrun & Hc & _).
  - split; simpl; intros ? ? Hl; by rewrite lookup_empty in Hl.
  - reflexivity.
  - simpl. intros ? ? Hl. by rewrite lookup_empty in Hl.
  - exists h, st', tr. by split.
Defined.

(** X15. [unloadTexture] keeps the two maps consistent for every handle, and
    on a consistent cache the branch that reports a texture whose count is
    already zero is never taken. *)
Theorem unloadTexture_keeps_consistent `{TP : TexturePlatform} (handle : Z)
    (st : TextureCache.t) :
  TextureCache.consistent st ->
  TextureCache.consistent (TextureCache.unloadTexture handle st).1 /\
  forall path,
    ~ In (TextureCache.LogAlreadyUnloaded path)
         (TextureCache.unloadTexture handle st).2.
Proof.
  intros Hc. pose proof Hc as [Hp Ht]. unfold TextureCache.unloadTexture.
  destruct (isNull handle); [split; [exact Hc|intros ? []]|].
  destruct (TextureCache.cachedTextures st !! handle) as [ct|] eqn:Hct.
  2:{ destruct (TextureCache.deadTextures st !! handle);
        (split; [exact Hc|intros ? [Hin|[]]; discriminate Hin]). }
  destruct (Ht _ _ Hct) as [Hpath Hrc].
  destruct (Z.eqb_spec (TextureCache.refCount ct) 0) as [H0|_]; [lia|].
  simpl.
  destruct (Z.eqb_spec (TextureCache.refCount ct - 1) 0) as [H1|H1]; simpl.
  - split; [|intros ? [Hin|[Hin|[]]]; discriminate Hin].
    split; simpl.
    + intros q h'. destruct (decide (TextureCache.absPath ct = q)) as [<-|Hne].
      * by rewrite lookup_delete_eq.
      * rewrite lookup_delete_ne by done. intros Hq.
        destruct (Hp _ _ Hq) as (ct' & Hct' & Hq').
        exists ct'. split; [|exact Hq'].
        rewrite lookup_delete_ne; [exact Hct'|]. intros <-.
        rewrite Hct in Hct'. injection Hct' as <-. contradiction.
    + intros h' ct'. destruct (decide (handle = h')) as [<-|Hne].
      * by rewrite lookup_delete_eq.
      * rewrite lookup_delete_ne by done. intros Hct'.
        destruct (Ht _ _ Hct') as [Hq Hrc']. split; [|exact Hrc'].
        rewrite lookup_delete_ne; [exact Hq|]. intros Heq.
        apply Hne. by apply (consistent_paths_inj st _ _ ct ct').
  - split; [|intros ? []]. split; simpl.
    + intros q h' Hq. destruct (Hp _ _ Hq) as (ct' & Hct' & Hq').
      destruct (decide (handle = h')) as [<-|Hne].
      * rewrite lookup_insert_eq. eexists. split; [reflexivity|].
        simpl. congruence.
      * rewrite lookup_insert_ne by done. eauto.
    + intros h' ct'. destruct (decide (handle = h')) as [<-|Hne].
      * rewrite lookup_insert_eq. intros [= <-]. simpl.
        split; [exact Hpath|lia].
      * rewrite lookup_insert_ne by done. apply Ht.
Qed.

Lemma oneTexture_consistent : TextureCache.consistent oneTexture.
Proof.
  split; simpl.
  - intros p h [<- <-]%lookup_singleton_Some. eexists.
    split; [apply lookup_singleton_eq|reflexivity].
  - intros h ct [<- <-]%lookup_singleton_Some. simpl.
    split; [apply lookup_singleton_eq|lia].
Qed.

Lemma unloadTexture_keeps_consistent_witness :
  TextureCache.consistent (TextureCache.unloadTexture 7 oneTexture).1.
Proof.
  exact (proj1 (unloadTexture_keeps_consistent 7 oneTexture
                  oneTexture_consistent)).
Defined.

(** X16. A file is loaded once.  After a successful [loadTexture], loading
    any spelling of the same absolute path again, with whatever options,
    returns the same handle, generates no texture and logs nothing; the
    texture behind the handle is the one cached first and its reference
    count has gone up by one (modulo 2^32). *)
Theorem second_load_shares_texture `{TP : TexturePlatform}
    (path path' : string) (options options' : TextureLoadOptions)
    (generated generated' : Texture) (st st1 : TextureCache.t) (h : Z)
    (tr1 : list TextureCache.Event) :
  stringToAbsPath path' = stringToAbsPath path ->
  TextureCache.loadTexture path options generated st = Some (h, st1, tr1) ->
  exists st2 ct1 ct2,
    TextureCache.loadTexture path' options' generated' st1
      = Some (h, st2, []) /\
    TextureCache.cachedTextures st1 !! h = Some ct1 /\
    TextureCache.cachedTextures st2 !! h = Some ct2 /\
    TextureCache.texture ct2 = TextureCache.texture ct1 /\
    TextureCache.refCount ct2 = (TextureCache.refCount ct1 + 1) mod 2 ^ 32 /\
    TextureCache.getTexture h st2 = TextureCache.getTexture h st1 /\
    TextureCache.cachedTexturePaths st2 = TextureCache.cachedTexturePaths st1.
Proof.
  intros Hsame Hload.
  assert (Hst1 : exists ct1,
            TextureCache.cachedTexturePaths st1 !! stringToAbsPath path
              = Some h /\
            TextureCache.cachedTextures st1 !! h = Some ct1).
  { unfold TextureCache.loadTexture in Hload.
    destruct (TextureCache.cachedTexturePaths st !! stringToAbsPath path)
      as [h0|] eqn:Hlook.
    - destruct (TextureCache.cachedTextures st !! h0) as [ct|];
        [|discriminate]. injection Hload as <- <- _. simpl.
      eexists. split; [exact Hlook|apply lookup_insert_eq].
    - injection Hload as <- <- _. simpl.
      eexists. split; apply lookup_insert_eq. }
  destruct Hst1 as (ct1 & Hp1 & Hct1).
  unfold TextureCache.loadTexture at 1. rewrite Hsame, Hp1, Hct1.
  eexists _, ct1, _. split; [reflexivity|]. split; [reflexivity|].
  simpl. split; [apply lookup_insert_eq|].
  split; [reflexivity|]. split; [reflexivity|]. split; [|reflexivity].
  unfold TextureCache.getTexture. simpl. by rewrite lookup_insert_eq, Hct1.
Qed.

Lemma second_load_shares_texture_witness :
  exists st1 st2,
    TextureCache.loadTexture (TP := refPlatform) "a.png" tt 7 noTextures
      = Some (7, st1, [TextureCache.LogCaching "a.png";
                       TextureCache.Generate "a.png" tt 7]) /\
    TextureCache.loadTexture (TP := refPlatform) "a.png" tt 8 st1
      = Some (7, st2, []).
Proof.
  eexists.
  destruct (second_load_shares_texture (TP := refPlatform)
              "a.png" "a.png" tt tt 7 8 noTextures _ 7 _ eq_refl eq_refl)
    as (st2 & _ & _ & Hrun & _).
  exists st2. split; [reflexivity|exact Hrun].
Defined.

(** X17. Load / unload round trip.  On a consistent cache, unloading the
    handle that [loadTexture] has just returned restores the path map and
    the texture map exactly.  If the file was cached already nothing else
    happens; if it was loaded from disk the texture generated is the one
    destroyed, and the handle is remembered as dead under its path. *)
Theorem load_unload_round_trip `{TP : TexturePlatform}
    (imageFilepath : string) (options : TextureLoadOptions)
    (generated : Texture) (st st1 : TextureCache.t) (h : Z)
    (tr1 : list TextureCache.Event) :
  let p := stringToAbsPath imageFilepath in
  TextureCache.consistent st ->
  (TextureCache.cachedTexturePaths st !! p = None ->
   TextureCache.cachedTextures st !! graphicsId generated = None) ->
  (forall h ct, TextureCache.cachedTextures st !! h = Some ct ->
                TextureCache.refCount ct + 1 < 2 ^ 32) ->
  TextureCache.loadTexture imageFilepath options generated st
    = Some (h, st1, tr1) ->
  isNull h = false ->
  let r := TextureCache.unloadTexture h st1 in
  TextureCache.cachedTexturePaths r.1 = TextureCache.cachedTexturePaths st /\
  TextureCache.cachedTextures r.1 = TextureCache.cachedTextures st /\
  (tr1 = [] /\ r.2 = [] /\
   TextureCache.deadTextures r.1 = TextureCache.deadTextures st
   \/
   tr1 = [TextureCache.LogCaching p;
          TextureCache.Generate imageFilepath options generated] /\
   r.2 = [TextureCache.LogUnloading p; TextureCache.Destroy generated] /\
   TextureCache.deadTextures r.1
     = <[h := p]> (TextureCache.deadTextures st)).
Proof.
  intros p [Hp Ht] Hfresh Hroom Hload Hnull r. subst r.
  unfold TextureCache.loadTexture in Hload. fold p in Hload.
  unfold TextureCache.unloadTexture. rewrite Hnull.
  destruct (TextureCache.cachedTexturePaths st !! p) as [h0|] eqn:Hlook.
  - destruct (Hp _ _ Hlook) as (ct & Hct & Hpath). rewrite Hct in Hload.
    injection Hload as <- <- <-. simpl. rewrite lookup_insert_eq.
    destruct (Ht _ _ Hct) as [_ Hrc]. pose proof (Hroom _ _ Hct) as Hr.
    simpl. rewrite Z.mod_small by lia.
    destruct (Z.eqb_spec (TextureCache.refCount ct + 1) 0) as [?|_]; [lia|].
    destruct (Z.eqb_spec (TextureCache.refCount ct + 1 - 1) 0) as [?|_];
      [lia|]. simpl.
    split; [reflexivity|]. split; [|by left].
    rewrite insert_insert_eq. apply insert_id. rewrite Hct. f_equal.
    destruct ct as [tex rc ap]. unfold TextureCache.set_refCount. simpl.
    f_equal. lia.
  - specialize (Hfresh eq_refl). injection Hload as <- <- <-. simpl.
    rewrite lookup_insert_eq. simpl.
    split; [by apply delete_insert_id|].
    split; [by apply delete_insert_id|]. by right.
Qed.

Lemma load_unload_round_trip_witness :
  exists st1,
    TextureCache.loadTexture (TP := refPlatform) "a.png" tt 9 oneTexture
      = Some (7, st1, []) /\
    TextureCache.cachedTextures (TextureCache.unloadTexture 7 st1).1
      = TextureCache.cachedTextures oneTexture.
Proof.
  eexists. split; [reflexivity|].
  refine (proj1 (proj2 (load_unload_round_trip (TP := refPlatform)
                  "a.png" tt 9 oneTexture _ 7 [] oneTexture_consistent
                  _ _ eq_refl eq_refl))).
  - intros Hl. discriminate Hl.
  - intros h ct Hl. cbn [oneTexture TextureCache.cachedTextures] in Hl.
    apply lookup_singleton_Some in Hl as [<- <-]. simpl. lia.
Defined.

(** X18. A texture is destroyed at the unload that matches its last
    reference, not before and not again.  For a cached texture with
    reference count [n + 1] and a handle that is not null, [n] unloads log
    nothing and leave the texture retrievable under its path; the next one
    destroys it, removes the handle and the path and records the handle as
    dead; any later unload of the handle only warns and changes nothing. *)
Theorem destroyed_at_last_unload `{TP : TexturePlatform} (n : nat) :
  forall (h : Z) (st : TextureCache.t) (ct : TextureCache.CachedTexture),
    isNull h = false ->
    TextureCache.cachedTextures st !! h = Some ct ->
    TextureCache.refCount ct = Z.of_nat (S n) ->
    let before := TextureCache.unloadTimes n h st in
    let after := TextureCache.unloadTimes (S n) h st in
    before.2 = [] /\
    TextureCache.getTexture h before.1 = (TextureCache.texture ct, []) /\
    TextureCache.cachedTexturePaths before.1
      = TextureCache.cachedTexturePaths st /\
    after.2 = [TextureCache.LogUnloading (TextureCache.absPath ct);
               TextureCache.Destroy (TextureCache.texture ct)] /\
    TextureCache.cachedTextures after.1
      = delete h (TextureCache.cachedTextures st) /\
    TextureCache.cachedTexturePaths after.1
      = delete (TextureCache.absPath ct) (TextureCache.cachedTexturePaths st) /\
    TextureCache.unloadTexture h after.1
      = (after.1, [TextureCache.LogDeadTexture (TextureCache.absPath ct)]).
Proof.
  induction n as [|n IH]; intros h st ct Hnull Hct Hrc.
  - assert (Hstep : TextureCache.unloadTexture h st =
              ({| TextureCache.cachedTexturePaths :=
                    delete (TextureCache.absPath ct)
                      (TextureCache.cachedTexturePaths st);
                  TextureCache.cachedTextures :=
                    delete h (TextureCache.cachedTextures st);
                  TextureCache.deadTextures :=
                    <[h := TextureCache.absPath ct]>
                      (TextureCache.deadTextures st) |},
               [TextureCache.LogUnloading (TextureCache.absPath ct);
                TextureCache.Destroy (TextureCache.texture ct)])).
    { unfold TextureCache.unloadTexture. rewrite Hnull, Hct, Hrc.
      reflexivity. }
    cbv zeta. cbn [TextureCache.unloadTimes]. rewrite Hstep.
    cbn [fst snd app].
    split; [reflexivity|].
    split; [unfold TextureCache.getTexture; by rewrite Hct|].
    do 4 (split; [reflexivity|]).
    unfold TextureCache.unloadTexture. rewrite Hnull.
    cbn [TextureCache.cachedTextures TextureCache.deadTextures].
    by rewrite lookup_delete_eq, lookup_insert_eq.
  - set (ct' := TextureCache.set_refCount ct (Z.of_nat (S n))).
    set (st1 := {| TextureCache.cachedTexturePaths :=
                     TextureCache.cachedTexturePaths st;
                   TextureCache.cachedTextures :=
                     <[h := ct']> (TextureCache.cachedTextures st);
                   TextureCache.deadTextures :=
                     TextureCache.deadTextures st |}).
    assert (Hstep : TextureCache.unloadTexture h st = (st1, [])).
    { unfold TextureCache.unloadTexture. rewrite Hnull, Hct, Hrc.
      destruct (Z.eqb_spec (Z.of_nat (S (S n))) 0) as [?|_]; [lia|].
      cbn [TextureCache.set_refCount TextureCache.refCount].
      replace (Z.of_nat (S (S n)) - 1) with (Z.of_nat (S n)) by lia.
      destruct (Z.eqb_spec (Z.of_nat (S n)) 0) as [?|_]; [lia|].
      reflexivity. }
    specialize (IH h st1 ct' Hnull (lookup_insert_eq _ _ _) eq_refl).
    cbv zeta in IH.
    destruct IH as (Hb2 & Hget & Hpaths & Ha2 & Htex & Hap & Hdead).
    cbv zeta.
    change (TextureCache.unloadTimes (S (S n)) h st)
      with (let '(s1, t1) := TextureCache.unloadTexture h st in
            let '(s2, t2) := TextureCache.unloadTimes (S n) h s1 in
            (s2, t1 ++ t2)).
    change (TextureCache.unloadTimes (S n) h st)
      with (let '(s1, t1) := TextureCache.unloadTexture h st in
            let '(s2, t2) := TextureCache.unloadTimes n h s1 in
            (s2, t1 ++ t2)) at 1 2 3.
    rewrite Hstep.
    destruct (TextureCache.unloadTimes n h st1) as [sb tb].
    destruct (TextureCache.unloadTimes (S n) h st1) as [sa ta].
    simpl in *.
    split; [exact Hb2|]. split; [exact Hget|]. split; [exact Hpaths|].
    split; [exact Ha2|].
    split; [by rewrite Htex, delete_insert_eq|]. split; [exact Hap|].
    exact Hdead.
Qed.

Lemma destroyed_at_last_unload_witness :
  (TextureCache.unloadTimes 1 7 oneTexture).2 = [] /\
  (TextureCache.unloadTimes 2 7 oneTexture).2
    = [TextureCache.LogUnloading "a.png";
       TextureCache.Destroy (TP := refPlatform) 7].
Proof.
  destruct (destroyed_at_last_unload (TP := refPlatform) 1 7 oneTexture
              sevenTwice)
    as (Hb & _ & _ & Ha & _).
  - reflexivity.
  - apply lookup_singleton_eq.
  - reflexivity.
  - split; [exact Hb|exact Ha].
Defined.

(* ================================================================== *)
(** ** Application: the pending scene *)
(* ================================================================== *)

(** The first position of [sceneName] in [names]. *)
Lemma changeSceneToLoop_spec (sceneName : string) (save : bool)
    (st : Application.SceneState) (rest : list string) :
  forall i0 : nat,
    (forall i : nat,
       rest !! i = Some sceneName ->
       (forall j : nat, (j < i)%nat -> rest !! j <> Some sceneName) ->
       Application.changeSceneToLoop (Z.of_nat i0) rest sceneName save st =
         ({| Application.sceneNames := Application.sceneNames st;
             Application.currentScene := Application.currentScene st;
             Application.sceneToChangeTo := Z.of_nat (i0 + i);
             Application.reloadCurrentScene := true;
             Application.saveCurrentSceneOnReload := save |}, [])) /\
    (sceneName ∉ rest ->
       Application.changeSceneToLoop (Z.of_nat i0) rest sceneName save st =
         (st, [Application.LogUnknownScene sceneName])).
Proof.
  induction rest as [|name rest IH]; intros i0.
  - split; [intros i Hi; discriminate Hi|reflexivity].
  - simpl. destruct (String.eqb_spec name sceneName) as [->|Hne].
    + split.
      * intros [|i] _ Hfirst.
        -- by rewrite Nat.add_0_r.
        -- exfalso. by apply (Hfirst 0%nat); [lia|].
      * intros Hnot. exfalso. apply Hnot. left.
    + replace (Z.of_nat i0 + 1) with (Z.of_nat (S i0)) by lia.
      destruct (IH (S i0)) as [IH1 IH2]. split.
      * intros [|i] Hi Hfirst; [simpl in Hi; congruence|].
        rewrite (IH1 i Hi).
        -- do 3 f_equal. lia.
        -- intros j Hj. apply (Hfirst (S j)). lia.
      * intros Hnot. apply IH2. intros Hin. apply Hnot. by right.
Qed.

Lemma deleteSceneLoop_spec (sceneName : string) (st : Application.SceneState)
    (rest : list string) :
  forall i0 : nat,
    let st' := Application.deleteSceneLoop (Z.of_nat i0) rest sceneName st in
    Application.sceneNames st' = Application.sceneNames st /\
    Application.currentScene st' = Application.currentScene st /\
    Application.reloadCurrentScene st' = Application.reloadCurrentScene st /\
    Application.saveCurrentSceneOnReload st'
      = Application.saveCurrentSceneOnReload st /\
    (sceneName ∉ rest ->
       Application.sceneToChangeTo st' = Application.sceneToChangeTo st) /\
    (forall i : nat,
       rest !! i = Some sceneName ->
       (forall j : nat, (j < i)%nat -> rest !! j <> Some sceneName) ->
       Application.sceneToChangeTo st' =
         if Z.of_nat (i0 + i) <=? Application.sceneToChangeTo st
         then Application.sceneToChangeTo st - 1
         else Application.sceneToChangeTo st).
Proof.
  induction rest as [|name rest IH]; intros i0; cbv zeta.
  - simpl. repeat split; auto. intros i Hi. discriminate Hi.
  - simpl. destruct (String.eqb_spec name sceneName) as [->|Hne].
    + assert (Hfirst0 : forall i : nat,
                (sceneName :: rest) !! i = Some sceneName ->
                (forall j : nat, (j < i)%nat ->
                   (sceneName :: rest) !! j <> Some sceneName) -> i = 0%nat).
      { intros [|i] _ Hfirst; [reflexivity|].
        exfalso. by apply (Hfirst 0%nat); [lia|]. }
      destruct (Z.of_nat i0 <=? Application.sceneToChangeTo st) eqn:Hle;
        simpl; (do 4 (split; [reflexivity|]));
        (split; [intros Hnot; exfalso; apply Hnot; left|]);
        intros i Hi Hf; rewrite (Hfirst0 i Hi Hf), Nat.add_0_r, Hle;
        reflexivity.
    + replace (Z.of_nat i0 + 1) with (Z.of_nat (S i0)) by lia.
      destruct (IH (S i0)) as (H1 & H2 & H3 & H4 & H5 & H6).
      do 4 (split; [assumption|]). split.
      * intros Hnot. apply H5. intros Hin. apply Hnot. by right.
      * intros [|i] Hi Hfirst; [simpl in Hi; congruence|].
        rewrite (H6 i Hi).
        -- by replace (S i0 + i)%nat with (i0 + S i)%nat by lia.
        -- intros j Hj. apply (Hfirst (S j)). lia.
Qed.

(** X19. [changeSceneTo] selects the first scene that carries the name: the
    pending index becomes the position of the first match, the reload is
    requested and the save flag is taken from the argument; for a name that
    is not in the list nothing changes and a warning is logged.  A reload
    at the end of the frame then loads exactly the scene named, after
    writing the file of the scene that was current if and only if that was
    asked for, makes the pending index the current one and clears the
    request. *)
Theorem changeSceneTo_selects_first_match (sceneName : string) (save : bool)
    (st : Application.SceneState) :
  (forall (i : nat) (current : string),
     Application.sceneNameAt st (Application.currentScene st) = Some current ->
     Application.sceneNames st !! i = Some sceneName ->
     (forall j : nat, (j < i)%nat ->
        Application.sceneNames st !! j <> Some sceneName) ->
     let picked :=
       {| Application.sceneNames := Application.sceneNames st;
          Application.currentScene := Application.currentScene st;
          Application.sceneToChangeTo := Z.of_nat i;
          Application.reloadCurrentScene := true;
          Application.saveCurrentSceneOnReload := save |} in
     Application.changeSceneTo sceneName save st = (picked, []) /\
     Application.endOfFrame picked =
       Some ({| Application.sceneNames := Application.sceneNames st;
                Application.currentScene := Z.of_nat i;
                Application.sceneToChangeTo := Z.of_nat i;
                Application.reloadCurrentScene := false;
                Application.saveCurrentSceneOnReload := save |},
             (if save
              then [Application.WriteSceneFile
                      ("Scene_" +:+ current +:+ ".json")]
              else []) ++
             [Application.FreeEditorGui; Application.FreeSceneSystems;
              Application.InitializeSceneSystems;
              Application.LoadScene sceneName; Application.InitEditorGui])) /\
  (sceneName ∉ Application.sceneNames st ->
     Application.changeSceneTo sceneName save st =
       (st, [Application.LogUnknownScene sceneName])).
Proof.
  destruct (changeSceneToLoop_spec sceneName save st
              (Application.sceneNames st) 0) as [Hfound Hmissing].
  split; [|exact Hmissing].
  intros i current Hcur Hi Hfirst picked.
  split; [exact (Hfound i Hi Hfirst)|].
  assert (Hnew : Application.sceneNameAt picked (Z.of_nat i)
                 = Some sceneName).
  { unfold Application.sceneNameAt. subst picked. simpl.
    destruct (Z.ltb_spec (Z.of_nat i) 0) as [?|_]; [lia|].
    by rewrite Nat2Z.id. }
  unfold Application.endOfFrame, Application.reloadCurrentSceneInternal,
    Application.saveCurrentScene.
  change (Application.sceneNameAt picked
            (Application.currentScene picked))
    with (Application.sceneNameAt st (Application.currentScene st)).
  rewrite Hcur. subst picked.
  cbn [Application.reloadCurrentScene Application.saveCurrentSceneOnReload
       Application.sceneToChangeTo Application.currentScene
       Application.sceneNames].
  unfold Application.sceneNameAt in *.
  cbn [Application.sceneNames] in *.
  destruct save; cbn [mbind option_bind]; rewrite Hnew; reflexivity.
Qed.

Lemma changeSceneTo_selects_first_match_witness :
  Application.changeSceneTo "proof" false threeScenes =
    ({| Application.sceneNames := ["intro"; "proof"; "outro"];
        Application.currentScene := 0;
        Application.sceneToChangeTo := 1;
        Application.reloadCurrentScene := true;
        Application.saveCurrentSceneOnReload := false |}, []) /\
  Application.changeSceneTo "coda" false threeScenes =
    (threeScenes, [Application.LogUnknownScene "coda"]).
Proof.
  destruct (changeSceneTo_selects_first_match "proof" false threeScenes)
    as [Hfound _].
  destruct (changeSceneTo_selects_first_match "coda" false threeScenes)
    as [_ Hmissing].
  split.
  - refine (proj1 (Hfound 1%nat "intro" eq_refl eq_refl _)).
    intros [|j] Hj; [simpl; congruence|lia].
  - apply Hmissing. intros Hin.
    repeat (apply elem_of_cons in Hin as [Hin|Hin]; [discriminate Hin|]).
    by apply elem_of_nil in Hin.
Defined.

(** X20. [deleteScene] removes the scene file, named [Scene_<name>.json],
    for every name, known or not, and never touches the list of names, the
    current scene or the reload flags.  The pending index is moved down by
    one exactly when the first scene with that name sits at or before it,
    so an index that was not negative stays at least -1 - and becomes -1
    when the pending scene is the first one and is deleted. *)
Theorem deleteScene_shifts_pending_index (sceneName : string)
    (st : Application.SceneState) :
  let r := Application.deleteScene sceneName st in
  Application.sceneNames r.1 = Application.sceneNames st /\
  Application.currentScene r.1 = Application.currentScene st /\
  Application.reloadCurrentScene r.1 = Application.reloadCurrentScene st /\
  Application.saveCurrentSceneOnReload r.1
    = Application.saveCurrentSceneOnReload st /\
  r.2 = [Application.RemoveFile ("Scene_" +:+ sceneName +:+ ".json")] /\
  (sceneName ∉ Application.sceneNames st ->
     Application.sceneToChangeTo r.1 = Application.sceneToChangeTo st) /\
  (forall i : nat,
     Application.sceneNames st !! i = Some sceneName ->
     (forall j : nat, (j < i)%nat ->
        Application.sceneNames st !! j <> Some sceneName) ->
     Application.sceneToChangeTo r.1 =
       (if Z.of_nat i <=? Application.sceneToChangeTo st
        then Application.sceneToChangeTo st - 1
        else Application.sceneToChangeTo st)) /\
  (0 <= Application.sceneToChangeTo st ->
     -1 <= Application.sceneToChangeTo r.1 <= Application.sceneToChangeTo st).
Proof.
  cbv zeta. unfold Application.deleteScene. cbn [fst snd].
  pose proof (deleteSceneLoop_spec sceneName st (Application.sceneNames st)
                0%nat) as Hs.
  cbv zeta in Hs. change (Z.of_nat 0) with 0 in Hs.
  destruct Hs as (H1 & H2 & H3 & H4 & H5 & H6). cbn [Nat.add] in H6.
  do 4 (split; [assumption|]). split; [reflexivity|].
  split; [exact H5|]. split; [exact H6|].
  intros Hpos.
  destruct (decide (sceneName ∈ Application.sceneNames st)) as [Hin|Hnot].
  - assert (Hex : exists i : nat,
              Application.sceneNames st !! i = Some sceneName /\
              forall j : nat, (j < i)%nat ->
                Application.sceneNames st !! j <> Some sceneName).
    { clear -Hin. induction (Application.sceneNames st) as [|n l IH].
      - by apply elem_of_nil in Hin.
      - destruct (decide (n = sceneName)) as [->|Hne].
        + exists 0%nat. split; [reflexivity|]. intros j Hj. lia.
        + apply elem_of_cons in Hin as [Hin|Hin]; [congruence|].
          destruct (IH Hin) as (i & Hi & Hf). exists (S i).
          split; [exact Hi|]. intros [|j] Hj; [simpl; congruence|].
          apply Hf. lia. }
    destruct Hex as (i & Hi & Hf). rewrite (H6 i Hi Hf).
    destruct (Z.leb_spec (Z.of_nat i) (Application.sceneToChangeTo st)); lia.
  - rewrite (H5 Hnot). lia.
Qed.

Lemma deleteScene_shifts_pending_index_witness :
  Application.sceneToChangeTo (Application.deleteScene "intro" threeScenes).1
    = -1.
Proof.
  destruct (deleteScene_shifts_pending_index "intro" threeScenes)
    as (_ & _ & _ & _ & _ & _ & Hshift & _).
  rewrite (Hshift 0%nat eq_refl); [reflexivity|]. intros j Hj. lia.
Defined.

(* ================================================================== *)
(** ** GizmoManager: find or create *)
(* ================================================================== *)

Lemma getGizmoById_defined {GizmoType GizmoVariant : Type} (id : Z)
    (g : GizmoManager.GlobalContext (GizmoType := GizmoType)
           (GizmoVariant := GizmoVariant)) :
  GizmoManager.registryValid g -> GizmoManager.getGizmoById id g <> None.
Proof.
  intros Hv. unfold GizmoManager.getGizmoById.
  destruct (GizmoManager.gizmoById g !! id) as [index|] eqn:Hl; [|done].
  destruct (Hv _ _ Hl) as (Hpos & s & Hs & _).
  apply lookup_lt_Some in Hs.
  destruct (Z.ltb_spec index (Z.of_nat (length (GizmoManager.gizmos g))));
    [done|lia].
Qed.

(** X21. A gizmo that [createDefaultGizmoState] has registered is found
    again.  On a registry whose ids all lead to a state carrying that id,
    and with fewer than 2^32 - 1 gizmos, the call keeps the registry in
    that shape and appends a state that is not drawn, follows no mouse
    movement, has a zero mouse delta and the hash of the name as id, the
    other fields being left as allocated; [getGizmoByName] returns that
    state for the name and for every name with the same hash, and answers
    for all other ids as before.  On such a registry [getGizmoById] never
    reads past the end of the vector. *)
Theorem created_gizmo_is_found {GizmoType GizmoVariant : Type}
    (name : string) (type : GizmoType)
    (allocated : GizmoManager.GizmoState (GizmoType := GizmoType)
                   (GizmoVariant := GizmoVariant))
    (g : GizmoManager.GlobalContext) :
  GizmoManager.registryValid g ->
  Z.of_nat (length (GizmoManager.gizmos g)) < 2 ^ 32 - 1 ->
  let r := GizmoManager.createDefaultGizmoState name type allocated g in
  GizmoManager.registryValid r.2 /\
  (forall name',
     GizmoManager.hashName name' = GizmoManager.hashName name ->
     GizmoManager.getGizmoByName name' r.2 = Some (Some r.1)) /\
  (exists s,
     GizmoManager.gizmos r.2 !! r.1 = Some s /\
     GizmoManager.idHash s = GizmoManager.hashName name /\
     GizmoManager.gizmoType s = type /\
     GizmoManager.moveMode s = GizmoManager.None_ /\
     GizmoManager.shouldDraw s = false /\
     GizmoManager.mouseDelta s =
       {| GizmoManager.x := F32.zero; GizmoManager.y := F32.zero;
          GizmoManager.z := F32.zero |} /\
     GizmoManager.position s = GizmoManager.position allocated /\
     GizmoManager.positionMoveStart s
       = GizmoManager.positionMoveStart allocated /\
     GizmoManager.variant s = GizmoManager.variant allocated) /\
  (forall id, id <> GizmoManager.hashName name ->
     GizmoManager.getGizmoById id r.2 = GizmoManager.getGizmoById id g) /\
  (forall id, GizmoManager.getGizmoById id g <> None).
Proof.
  intros Hv Hlen r.
  assert (Hidx : (Z.of_nat (length (GizmoManager.gizmos r.2)) mod 2 ^ 32 - 1)
                   mod 2 ^ 32
                 = Z.of_nat (length (GizmoManager.gizmos g))).
  { subst r. cbn [snd GizmoManager.createDefaultGizmoState
                  GizmoManager.gizmos].
    rewrite length_app. cbn [length]. rewrite Nat2Z.inj_add.
    change (Z.of_nat 1) with 1.
    rewrite (Z.mod_small (_ + 1)) by lia. rewrite Z.mod_small by lia. lia. }
  assert (Hnew : GizmoManager.gizmoById r.2 !! GizmoManager.hashName name
                 = Some (Z.of_nat (length (GizmoManager.gizmos g)))).
  { rewrite <- Hidx. subst r. cbn [snd GizmoManager.createDefaultGizmoState
                                   GizmoManager.gizmoById].
    apply lookup_insert_eq. }
  assert (Hold : forall id, id <> GizmoManager.hashName name ->
            GizmoManager.gizmoById r.2 !! id = GizmoManager.gizmoById g !! id).
  { intros id Hne. subst r. cbn [snd GizmoManager.createDefaultGizmoState
                                 GizmoManager.gizmoById].
    by rewrite lookup_insert_ne. }
  assert (Hlen' : length (GizmoManager.gizmos r.2)
                  = S (length (GizmoManager.gizmos g))).
  { subst r. cbn [snd GizmoManager.createDefaultGizmoState
                  GizmoManager.gizmos].
    rewrite length_app. simpl. lia. }
  assert (Hkeep : forall i s, GizmoManager.gizmos g !! i = Some s ->
            GizmoManager.gizmos r.2 !! i = Some s).
  { intros i s Hs. subst r. cbn [snd GizmoManager.createDefaultGizmoState
                                 GizmoManager.gizmos].
    apply lookup_app_l_Some, Hs. }
  assert (Hlast : exists s,
            GizmoManager.gizmos r.2 !! length (GizmoManager.gizmos g)
              = Some s /\
            GizmoManager.idHash s = GizmoManager.hashName name /\
            GizmoManager.gizmoType s = type /\
            GizmoManager.moveMode s = GizmoManager.None_ /\
            GizmoManager.shouldDraw s = false /\
            GizmoManager.mouseDelta s =
              {| GizmoManager.x := F32.zero; GizmoManager.y := F32.zero;
                 GizmoManager.z := F32.zero |} /\
            GizmoManager.position s = GizmoManager.position allocated /\
            GizmoManager.positionMoveStart s
              = GizmoManager.positionMoveStart allocated /\
            GizmoManager.variant s = GizmoManager.variant allocated).
  { eexists. split.
    - subst r. cbn [snd GizmoManager.createDefaultGizmoState
                    GizmoManager.gizmos].
      rewrite lookup_app_r by lia. rewrite Nat.sub_diag. reflexivity.
    - repeat split. }
  split; [|split; [|split; [|split]]].
  - intros id index Hl.
    destruct (decide (id = GizmoManager.hashName name)) as [->|Hne].
    + rewrite Hnew in Hl. injection Hl as <-. split; [lia|].
      rewrite Nat2Z.id. destruct Hlast as (s & Hs & Hid & _). eauto.
    + rewrite (Hold _ Hne) in Hl. destruct (Hv _ _ Hl) as (Hpos & s & Hs & Hid).
      split; [exact Hpos|]. eauto.
  - intros name' Hsame.
    unfold GizmoManager.getGizmoByName, GizmoManager.getGizmoById.
    rewrite Hsame, Hnew, Hlen'.
    destruct (Z.ltb_spec (Z.of_nat (length (GizmoManager.gizmos g)))
                (Z.of_nat (S (length (GizmoManager.gizmos g)))));
      [|lia].
    by rewrite Nat2Z.id.
  - exact Hlast.
  - intros id Hne. unfold GizmoManager.getGizmoById. rewrite (Hold _ Hne).
    destruct (GizmoManager.gizmoById g !! id) as [index|] eqn:Hl; [|done].
    destruct (Hv _ _ Hl) as (Hpos & s & Hs & _).
    apply lookup_lt_Some in Hs. rewrite Hlen'.
    destruct (Z.ltb_spec index (Z.of_nat (length (GizmoManager.gizmos g))));
      [|lia].
    destruct (Z.ltb_spec index
                (Z.of_nat (S (length (GizmoManager.gizmos g))))); [done|lia].
  - intros id. by apply getGizmoById_defined.
Qed.

Lemma created_gizmo_is_found_witness :
  GizmoManager.getGizmoByName "camera"
    (GizmoManager.createDefaultGizmoState "camera" tt rawGizmo noGizmos).2
  = Some (Some 0%nat).
Proof.
  destruct (created_gizmo_is_found "camera" tt rawGizmo noGizmos)
    as (_ & Hfound & _).
  - intros id index Hl. cbn [noGizmos GizmoManager.gizmoById] in Hl.
    by rewrite lookup_empty in Hl.
  - simpl. lia.
  - exact (Hfound "camera" eq_refl).
Defined.
